(** * Transducer beam search (espnet/nets/beam_search_transducer.py)

    A shallow embedding of the five search algorithms of
    [BeamSearchTransducer] (greedy, default, time synchronous, alignment-length
    synchronous and N-step constrained search), of the N-best selector and of
    the constructor's dispatch, followed by the properties proved about them.

    The decoder, the joint network and the language model are scoring
    oracles: they appear as records of functions over opaque types.  Scores
    are Python floats; the algorithms only add, scale, divide by a length and
    compare them, so they are written over an arithmetic [Arith] that is
    instantiated below with exact rationals, with binary64 floats and with
    the logarithms of rational probabilities.  [numpy.logaddexp] stays a
    parameter of the algorithms that call it. *)

From Stdlib Require Import String.
From Stdlib Require Import List ZArith QArith Bool Lia PrimFloat Uint63.
From Stdlib Require Import Sorted Permutation.
Import ListNotations.
Close Scope Q_scope.
Open Scope nat_scope.

Set Implicit Arguments.

(** ** Score arithmetic *)

(** [num] is the type of scores, [weight] that of [lm_weight] and [key] that
    of the length-normalised scores, the sort keys of [sort_nbest]; with
    floats the three are one type. *)
Record Arith : Type := MkArith {
  num : Type;
  zero : num;                       (* 0.0 *)
  add : num -> num -> num;          (* a + b *)
  ltb : num -> num -> bool;         (* a < b *)
  weight : Type;
  scale : weight -> num -> num;     (* w * a *)
  key : Type;
  div_len : num -> nat -> key;      (* a / len(label_seq) *)
  key_ltb : key -> key -> bool      (* a < b on sort keys *)
}.

(** The order laws under which Python's [sort], [sorted] and [max] are
    determined by their documentation: [<] is a strict weak order. *)
Record StrictWeak {K : Type} (lt : K -> K -> bool) : Prop := MkStrictWeak {
  lt_asym : forall a b : K, lt a b = true -> lt b a = false;
  lt_ntrans : forall a b c : K, lt a b = false -> lt b c = false -> lt a c = false
}.

(** ** Python and torch primitives *)

Inductive exn : Set :=
| ValueError            (* max() of an empty sequence *)
| IndexError            (* list index out of range *)
| TypeError             (* subscripting None *)
| TorchError            (* an error raised by a tensor operation *)
| NotImplementedError.

Section PyList.
Context {A : Type}.

(** [l[:n]] *)
Definition slice_to (n : Z) (l : list A) : list A :=
  if (0 <=? n)%Z then firstn (Z.to_nat n) l
  else firstn (length l - Z.to_nat (- n)) l.

(** [l[i]], [None] standing for IndexError *)
Definition getitem (l : list A) (i : Z) : option A :=
  if (0 <=? i)%Z then nth_error l (Z.to_nat i)
  else if (0 <=? Z.of_nat (length l) + i)%Z
       then nth_error l (Z.to_nat (Z.of_nat (length l) + i))
       else None.

(** [range(n)] *)
Definition range (n : Z) : list Z := map Z.of_nat (seq 0 (Z.to_nat n)).

(** [enumerate(l)] *)
Definition enumerate (l : list A) : list (nat * A) :=
  combine (seq 0 (length l)) l.

(** Stable sorting: [x] is inserted in front of a sorted list and moves
    past [y] only when [past x y]; elements that compare equal keep their
    original order, as with [list.sort] and [sorted]. *)
Fixpoint insert_by (past : A -> A -> bool) (x : A) (l : list A) : list A :=
  match l with
  | [] => [x]
  | y :: l' => if past x y then y :: insert_by past x l' else x :: l
  end.

Definition sort_by (past : A -> A -> bool) (l : list A) : list A :=
  fold_right (insert_by past) [] l.

(** Removing the element at an index. *)
Fixpoint remove_at (i : nat) (l : list A) : list A :=
  match l, i with
  | [], _ => []
  | _ :: l', O => l'
  | x :: l', S i' => x :: remove_at i' l'
  end.
End PyList.

Section PyOrder.
Context {K A : Type}.
Variable lt : K -> K -> bool.
Variable key : A -> K.

(** [sorted(l, key=key, reverse=True)] *)
Definition sorted_desc : list A -> list A :=
  sort_by (fun x y => lt (key x) (key y)).

(** [sorted(l, key=key)] *)
Definition sorted_asc : list A -> list A :=
  sort_by (fun x y => lt (key y) (key x)).

(** [max(l, key=key)]: the running maximum is replaced by a later element
    only when that one is strictly greater.  The index of the result is
    returned with it. *)
Fixpoint max_loop (cur : nat * A) (i : nat) (l : list A) : nat * A :=
  match l with
  | [] => cur
  | x :: l' =>
      max_loop (if lt (key (snd cur)) (key x) then (i, x) else cur) (S i) l'
  end.

Definition py_max (l : list A) : option (nat * A) :=
  match l with
  | [] => None
  | x :: l' => Some (max_loop (O, x) 1 l')
  end.
End PyOrder.

(** [v.topk(k)]: the [k] largest entries with their indices, largest first
    (equal values by increasing index); an error when [k] is out of range. *)
Definition topk (N : Arith) (k : Z) (v : list (num N)) : option (list (num N * nat)) :=
  if ((k <? 0)%Z || (Z.of_nat (length v) <? k)%Z)%bool then None
  else Some (firstn (Z.to_nat k)
               (sorted_desc (ltb N) fst (combine v (seq 0 (length v))))).

(** [torch.max(v, dim=-1)]: the maximum and the index of its first
    occurrence. *)
Definition torch_max (N : Arith) (v : list (num N)) : option (num N * nat) :=
  match py_max (ltb N) (fun x => x) v with
  | None => None
  | Some (i, x) => Some (x, i)
  end.

(** ** Outcomes and the search monad

    A search either returns, raises, or is cut off by the fuel that bounds
    the [while True] loop of the default search.  The decoder's [cache] is
    threaded through every oracle call. *)

Inductive result (A : Type) : Type :=
| Ok (a : A)
| Raise (e : exn)
| OutOfFuel.
Arguments Raise {A} e.
Arguments OutOfFuel {A}.

Definition M (St A : Type) : Type := St -> result (A * St).

Definition ret {St A} (a : A) : M St A := fun s => Ok (a, s).

Definition bind {St A B} (m : M St A) (k : A -> M St B) : M St B :=
  fun s => match m s with
           | Ok (a, s') => k a s'
           | Raise e => Raise e
           | OutOfFuel => OutOfFuel
           end.

Definition raise {St A} (e : exn) : M St A := fun _ => Raise e.

Definition out_of_fuel {St A} : M St A := fun _ => OutOfFuel.

(** An oracle call, which always returns. *)
Definition call {St A} (f : St -> A * St) : M St A := fun s => Ok (f s).

Definition or_raise {St A} (e : exn) (o : option A) : M St A :=
  match o with
  | Some a => ret a
  | None => raise e
  end.

Declare Scope search_scope.
Delimit Scope search_scope with search.
Notation "x <- c ;; k" := (bind c (fun x => k))
  (at level 61, c at next level, right associativity) : search_scope.
Notation "' pat <- c ;; k" := (bind c (fun x => match x with pat => k end))
  (at level 61, pat pattern, c at next level, right associativity) : search_scope.
Local Open Scope search_scope.

(** [for x in l: acc = body(acc, x)] *)
Fixpoint for_each {St A B} (body : B -> A -> M St B) (l : list A) (acc : B) : M St B :=
  match l with
  | [] => ret acc
  | x :: l' => acc' <- body acc x ;; for_each body l' acc'
  end.

(** [[f(x) for x in l]] with a fallible [f] *)
Fixpoint map_m {St A B} (f : A -> M St B) (l : list A) : M St (list B) :=
  match l with
  | [] => ret []
  | x :: l' => y <- f x ;; ys <- map_m f l' ;; ret (y :: ys)
  end.

(** ** Data model and oracles *)

Section Transducer.
Variable N : Arith.
(** Opaque oracle types: an encoder frame, a decoder output vector, a
    decoder state (of one hypothesis or of a batch: the source uses
    [init_state(1)] as the state of a hypothesis), the token tensor handed
    to the language model, the language-model state of one hypothesis and
    of a batch, and the decoder's memoisation cache. *)
Variables Frame DecOut DecState Tokens LmState LmStates Cache : Type.

(** [Hypothesis] (transducer_decoder_interface): the fields the search
    reads and writes. *)
Record hypothesis : Type := Hyp {
  score : num N;
  label_seq : list nat;
  dec_state : DecState;
  lm_state : option LmState
}.

(** [NSCHypothesis] extends [Hypothesis]. *)
Record nsc_hypothesis : Type := NSCHyp {
  base :> hypothesis;
  dec_out : list DecOut;
  lm_scores : option (list (num N))
}.

(** The decoder oracle.  [decoder_score] is [decoder.score(hyp, cache)]. *)
Record Decoder : Type := {
  odim : Z;
  blank_id : nat;
  init_state : Z -> DecState;
  select_state : DecState -> nat -> DecState;
  decoder_score : hypothesis -> Cache -> (DecOut * DecState * Tokens) * Cache;
  batch_score : list hypothesis -> DecState -> Cache -> bool ->
                (list DecOut * DecState * Tokens) * Cache;
  create_batch_states : DecState -> list DecState -> list (list nat) -> DecState;
  empty_cache : Cache                      (* cache = {} *)
}.

(** The language-model oracle with the state helpers of
    pytorch_backend/transducer/utils ([lm_layers] and [is_wordlm] are
    arguments they receive from [self]). *)
Record LM : Type := {
  is_wordlm : bool;
  predict : option LmState -> Tokens -> LmState * list (num N);
  buff_predict : option LmStates -> Tokens -> nat -> LmStates * list (list (num N));
  init_lm_state : LmState;
  create_lm_batch_states : list (option LmState) -> LmStates;
  select_lm_state : LmStates -> nat -> LmState
}.

Inductive algorithm : Set :=
| greedy | default | tsd | alsd | nsc.

(** The attributes of a constructed [BeamSearchTransducer].  [joint_logp e d]
    is [log_softmax(joint_network(e, d) / softmax_temperature, dim=-1)]. *)
Record BeamSearchTransducer : Type := {
  decoder : Decoder;
  joint_logp : Frame -> DecOut -> list (num N);
  beam_size : Z;
  search_algorithm : algorithm;
  lm : option LM;
  lm_weight : weight N;
  max_sym_exp : Z;
  u_max : Z;
  nstep : Z;
  prefix_alpha : Z;
  score_norm : bool;
  nbest : Z
}.

Variable self : BeamSearchTransducer.

Definition vocab_size : Z := odim (decoder self).
Definition use_lm : bool := match lm self with Some _ => true | None => false end.

(** [float(v)] of a tensor that must hold one element. *)
Definition item (v : list (num N)) : option (num N) :=
  match v with
  | [x] => Some x
  | _ => None
  end.

(** [score += self.lm_weight * lm_scores[k]] when an LM is used. *)
Definition add_lm_score (s : num N) (lm_scores : list (num N)) (k : nat) : M Cache (num N) :=
  if use_lm then
    x <- or_raise IndexError (nth_error lm_scores k) ;;
    ret (add N s (scale N (lm_weight self) x))
  else ret s.

(** *** N-best selector *)

Definition norm_score (x : hypothesis) : key N :=
  div_len N (score x) (length (label_seq x)).

Definition sort_nbest {H : Type} (hyp_of : H -> hypothesis) (hyps : list H) : list H :=
  let hyps :=
    if score_norm self
    then sorted_desc (key_ltb N) (fun x => norm_score (hyp_of x)) hyps
    else sorted_desc (ltb N) (fun x => score (hyp_of x)) hyps in
  slice_to (nbest self) hyps.

(** *** Greedy search *)

Definition greedy_step (st : hypothesis * DecOut * DecState) (enc_out_t : Frame)
  : M Cache (hypothesis * DecOut * DecState) :=
  let '(hyp, dec_out, state) := st in
  let logp := joint_logp self enc_out_t dec_out in
  '(top_logp, pred) <- or_raise TorchError (torch_max N logp) ;;
  if negb (pred =? blank_id (decoder self)) then
    let hyp := Hyp (add N (score hyp) top_logp) (label_seq hyp ++ [pred])
                   state (lm_state hyp) in
    '(dec_out, state, _) <- call (decoder_score (decoder self) hyp) ;;
    ret (hyp, dec_out, state)
  else ret (hyp, dec_out, state).

Definition greedy_search (enc_out : list Frame) : M Cache (list hypothesis) :=
  let dec_state := init_state (decoder self) 1 in
  let hyp := Hyp (zero N) [blank_id (decoder self)] dec_state None in
  '(dec_out, state, _) <- call (decoder_score (decoder self) hyp) ;;
  '(hyp, _, _) <- for_each greedy_step enc_out (hyp, dec_out, state) ;;
  ret [hyp].

(** *** Default beam search *)

Definition default_beam : Z := Z.min (beam_size self) vocab_size.
Definition default_beam_k : Z := Z.min default_beam (vocab_size - 1).

(** The blank extension appended to [kept_hyps] (lines 207-214). *)
Definition default_blank_ext (max_hyp : hypothesis) (blank_logp : num N) : hypothesis :=
  Hyp (add N (score max_hyp) blank_logp) (label_seq max_hyp)
      (dec_state max_hyp) (lm_state max_hyp).

(** [kept_most_prob] (lines 237-240). *)
Definition kept_most_prob (kept_hyps : list hypothesis) (hyps_max : num N) : list hypothesis :=
  sorted_asc (ltb N) score (filter (fun hyp => ltb N hyps_max (score hyp)) kept_hyps).

(** One turn of the [while True] loop: [inr kept] when it breaks [kept]
    being the new [kept_hyps], [inl (hyps, kept_hyps)] when it goes on. *)
Definition default_expand (enc_out_t : Frame) (hyps kept_hyps : list hypothesis)
  : M Cache (list hypothesis * list hypothesis + list hypothesis) :=
  '(i, max_hyp) <- or_raise ValueError (py_max (ltb N) score hyps) ;;
  let hyps := remove_at i hyps in
  '(dec_out, state, lm_tokens) <- call (decoder_score (decoder self) max_hyp) ;;
  let logp := joint_logp self enc_out_t dec_out in
  top_k <- or_raise TorchError (topk N default_beam_k (tl logp)) ;;
  blank_logp <- or_raise TorchError (item (firstn 1 logp)) ;;
  let kept_hyps := kept_hyps ++ [default_blank_ext max_hyp blank_logp] in
  let '(lm_state', lm_scores) :=
    match lm self with
    | Some l => let (s, sc) := predict l (lm_state max_hyp) lm_tokens in (Some s, sc)
    | None => (lm_state max_hyp, [])
    end in
  new_hyps <- map_m (fun '(logp, k) =>
                score <- add_lm_score (add N (score max_hyp) logp) lm_scores (k + 1) ;;
                ret (Hyp score (label_seq max_hyp ++ [k + 1]) state lm_state'))
              top_k ;;
  let hyps := hyps ++ new_hyps in
  '(_, top) <- or_raise ValueError (py_max (ltb N) score hyps) ;;
  let hyps_max := score top in
  let most_prob := kept_most_prob kept_hyps hyps_max in
  if (default_beam <=? Z.of_nat (length most_prob))%Z
  then ret (inr most_prob)
  else ret (inl (hyps, kept_hyps)).

Fixpoint default_frame (fuel : nat) (enc_out_t : Frame) (hyps kept_hyps : list hypothesis)
  : M Cache (list hypothesis) :=
  match fuel with
  | O => out_of_fuel
  | S fuel' =>
      r <- default_expand enc_out_t hyps kept_hyps ;;
      match r with
      | inr kept => ret kept
      | inl (hyps, kept_hyps) => default_frame fuel' enc_out_t hyps kept_hyps
      end
  end.

Definition default_init : hypothesis :=
  Hyp (zero N) [blank_id (decoder self)] (init_state (decoder self) 1) None.

(** [fuel] bounds the turns of the [while True] loop of each frame. *)
Definition default_beam_search (fuel : nat) (enc_out : list Frame) : M Cache (list hypothesis) :=
  kept_hyps <- for_each (fun kept_hyps enc_out_t =>
                           default_frame fuel enc_out_t kept_hyps [])
                        enc_out [default_init] ;;
  ret (sort_nbest (fun h => h) kept_hyps).

(** *** Helpers shared by the batched searches *)

(** [numpy.logaddexp] *)
Variable logaddexp : num N -> num N -> num N.

(** [float(m[i, j])] *)
Definition at2 (m : list (list (num N))) (i j : nat) : M Cache (num N) :=
  r <- or_raise IndexError (nth_error m i) ;;
  or_raise IndexError (nth_error r j).

(** [a == b] on label sequences *)
Fixpoint seq_eqb (a b : list nat) : bool :=
  match a, b with
  | [], [] => true
  | x :: a', y :: b' => (x =? y) && seq_eqb a' b'
  | _, _ => false
  end.

(** [seq in seqs] and [seqs.index(seq)] *)
Fixpoint seq_index (seqs : list (list nat)) (s : list nat) : option nat :=
  match seqs with
  | [] => None
  | x :: seqs' =>
      if seq_eqb x s then Some O
      else match seq_index seqs' s with
           | Some i => Some (S i)
           | None => None
           end
  end.

(** [hyp.score = s] *)
Definition set_score (hyp : hypothesis) (s : num N) : hypothesis :=
  Hyp s (label_seq hyp) (dec_state hyp) (lm_state hyp).

(** [l[i] = f(l[i])] for an index in range *)
Fixpoint update_at {A : Type} (i : nat) (f : A -> A) (l : list A) : list A :=
  match l, i with
  | [], _ => []
  | x :: l', O => f x :: l'
  | x :: l', S i' => x :: update_at i' f l'
  end.

(** [beam_logp[:, 1:].topk(k, dim=-1)], row by row *)
Definition batch_topk (k : Z) (beam_logp : list (list (num N)))
  : M Cache (list (list (num N * nat))) :=
  map_m (fun r => or_raise TorchError (topk N k (tl r))) beam_logp.

(** The batched LM step of TSD and ALSD (lines 318-325, 415-422). *)
Definition lm_batch (hyps : list hypothesis) (beam_lm_tokens : Tokens)
  : option (LM * LmStates * list (list (num N))) :=
  match lm self with
  | Some l =>
      let beam_lm_states := create_lm_batch_states l (map lm_state hyps) in
      let (beam_lm_states, beam_lm_scores) :=
        buff_predict l (Some beam_lm_states) beam_lm_tokens (length hyps) in
      Some (l, beam_lm_states, beam_lm_scores)
  | None => None
  end.

(** The non-blank candidates of the [i]-th hypothesis of a batch
    (lines 328-343 and 437-452). *)
Definition expand_hyp (beam_state : DecState) (beam_topk : list (list (num N * nat)))
  (lm_out : option (LM * LmStates * list (list (num N)))) (ih : nat * hypothesis)
  : M Cache (list hypothesis) :=
  let '(i, hyp) := ih in
  top <- or_raise IndexError (nth_error beam_topk i) ;;
  map_m (fun '(logp, k0) =>
           let k := k0 + 1 in
           let new_score := add N (score hyp) logp in
           let new_state := select_state (decoder self) beam_state i in
           match lm_out with
           | Some (l, beam_lm_states, beam_lm_scores) =>
               x <- at2 beam_lm_scores i k ;;
               ret (Hyp (add N new_score (scale N (lm_weight self) x))
                        (label_seq hyp ++ [k]) new_state
                        (Some (select_lm_state l beam_lm_states i)))
           | None => ret (Hyp new_score (label_seq hyp ++ [k]) new_state (lm_state hyp))
           end)
        top.

(** The initial beam of TSD and ALSD (lines 261-273, 368-381). *)
Definition batched_init (beam : Z) : list hypothesis * DecState :=
  let beam_state := init_state (decoder self) beam in
  let lm0 := match lm self with
             | Some l => if negb (is_wordlm l) then Some (init_lm_state l) else None
             | None => None
             end in
  ([Hyp (zero N) [blank_id (decoder self)]
        (select_state (decoder self) beam_state 0) lm0], beam_state).

(** *** Time synchronous decoding *)

Definition tsd_beam : Z := Z.min (beam_size self) vocab_size.

(** The blank extension of a hypothesis of [C] (lines 303-308). *)
Definition tsd_blank_ext (hyp : hypothesis) (blank_logp : num N) : hypothesis :=
  Hyp (add N (score hyp) blank_logp) (label_seq hyp) (dec_state hyp) (lm_state hyp).

(** Lines 300-315: the blank extension of [hyp] enters [A], merged by
    [logaddexp] into the entry that had its label sequence when the round
    began ([seq_A] is computed once, before the loop). *)
Definition tsd_merge_blank (seq_A : list (list nat)) (beam_logp : list (list (num N)))
  (A : list hypothesis) (ih : nat * hypothesis) : M Cache (list hypothesis) :=
  let '(i, hyp) := ih in
  match seq_index seq_A (label_seq hyp) with
  | None =>
      blank_logp <- at2 beam_logp i 0 ;;
      ret (A ++ [tsd_blank_ext hyp blank_logp])
  | Some dict_pos =>
      blank_logp <- at2 beam_logp i 0 ;;
      ret (update_at dict_pos
             (fun a => set_score a (logaddexp (score a) (add N (score hyp) blank_logp))) A)
  end.

Definition tsd_round (enc_out_t : Frame)
  (st : list hypothesis * list hypothesis * DecState) (v : Z)
  : M Cache (list hypothesis * list hypothesis * DecState) :=
  let '(A, C, beam_state) := st in
  '(beam_dec_out, beam_state, beam_lm_tokens) <-
     call (fun c => batch_score (decoder self) C beam_state c use_lm) ;;
  let beam_logp := map (joint_logp self enc_out_t) beam_dec_out in
  beam_topk <- batch_topk tsd_beam beam_logp ;;
  let seq_A := map label_seq A in
  A <- for_each (tsd_merge_blank seq_A beam_logp) (enumerate C) A ;;
  D <- (if (v <? max_sym_exp self - 1)%Z then
          let lm_out := lm_batch C beam_lm_tokens in
          Ds <- map_m (expand_hyp beam_state beam_topk lm_out) (enumerate C) ;;
          ret (concat Ds)
        else ret []) ;;
  let C := slice_to tsd_beam (sorted_desc (ltb N) score D) in
  ret (A, C, beam_state).

Definition tsd_frame (st : list hypothesis * DecState) (enc_out_t : Frame)
  : M Cache (list hypothesis * DecState) :=
  let '(B, beam_state) := st in
  '(A, _, beam_state) <-
     for_each (tsd_round enc_out_t) (range (max_sym_exp self)) ([], B, beam_state) ;;
  ret (slice_to tsd_beam (sorted_desc (ltb N) score A), beam_state).

Definition time_sync_decoding (enc_out : list Frame) : M Cache (list hypothesis) :=
  '(B, _) <- for_each tsd_frame enc_out (batched_init tsd_beam) ;;
  ret (sort_nbest (fun h => h) B).

(** *** Alignment-length synchronous decoding *)

(** Modelled from the spec: [recombine_hyps] of
    pytorch_backend/transducer/utils is not among the sources.  The spec's
    words are: merge identical-label-sequence hypotheses via log-sum-exp
    (recombine); the first hypothesis with a label sequence keeps its place
    and receives the scores of the later ones. *)
Fixpoint recombine_into (final : list hypothesis) (hyp : hypothesis) : list hypothesis :=
  match final with
  | [] => [hyp]
  | f :: final' =>
      if seq_eqb (label_seq f) (label_seq hyp)
      then set_score f (logaddexp (score f) (score hyp)) :: final'
      else f :: recombine_into final' hyp
  end.

Definition recombine_hyps (hyps : list hypothesis) : list hypothesis :=
  fold_left recombine_into hyps [].

Definition alsd_beam : Z := Z.min (beam_size self) vocab_size.

(** The blank extension of a live hypothesis (lines 425-430). *)
Definition alsd_blank_ext (hyp : hypothesis) (blank_logp : num N) : hypothesis :=
  Hyp (add N (score hyp) blank_logp) (label_seq hyp) (dec_state hyp) (lm_state hyp).

(** Lines 388-396: the live hypotheses of round [i] with their frame. *)
Definition alsd_select (enc_out : list Frame) (t_max i : Z)
  (acc : list (hypothesis * (Z * Frame))) (hyp : hypothesis)
  : M Cache (list (hypothesis * (Z * Frame))) :=
  let u := (Z.of_nat (length (label_seq hyp)) - 1)%Z in
  let t := (i - u + 1)%Z in
  if (t_max - 1 <? t)%Z then ret acc
  else
    e <- or_raise IndexError (getitem enc_out t) ;;
    ret (acc ++ [(hyp, (t, e))]).

(** Lines 424-452: the candidates of the [i]-th live hypothesis. *)
Definition alsd_extend (t_max : Z) (beam_state : DecState)
  (beam_logp : list (list (num N))) (beam_topk : list (list (num N * nat)))
  (lm_out : option (LM * LmStates * list (list (num N))))
  (B_enc_out : list (Z * Frame))
  (st : list hypothesis * list hypothesis) (ih : nat * hypothesis)
  : M Cache (list hypothesis * list hypothesis) :=
  let '(A, final) := st in
  let '(i, hyp) := ih in
  blank_logp <- at2 beam_logp i 0 ;;
  let new_hyp := alsd_blank_ext hyp blank_logp in
  let A := A ++ [new_hyp] in
  te <- or_raise IndexError (nth_error B_enc_out i) ;;
  let final := if (fst te =? t_max - 1)%Z then final ++ [new_hyp] else final in
  new_hyps <- expand_hyp beam_state beam_topk lm_out ih ;;
  ret (A ++ new_hyps, final).

(** One turn of the loop over [range(t_max + u_max)]. *)
Definition alsd_round (enc_out : list Frame) (t_max : Z)
  (st : list hypothesis * list hypothesis * DecState) (i : Z)
  : M Cache (list hypothesis * list hypothesis * DecState) :=
  let '(B, final, beam_state) := st in
  live <- for_each (alsd_select enc_out t_max i) B [] ;;
  let B_ := map fst live in
  let B_enc_out := map snd live in
  match B_ with
  | [] => ret (B, final, beam_state)
  | _ :: _ =>
      '(beam_dec_out, beam_state, beam_lm_tokens) <-
         call (fun c => batch_score (decoder self) B_ beam_state c use_lm) ;;
      let beam_enc_out := map snd B_enc_out in
      let beam_logp :=
        map (fun ed => joint_logp self (fst ed) (snd ed))
            (combine beam_enc_out beam_dec_out) in
      beam_topk <- batch_topk alsd_beam beam_logp ;;
      let lm_out := lm_batch B_ beam_lm_tokens in
      '(A, final) <-
         for_each (alsd_extend t_max beam_state beam_logp beam_topk lm_out B_enc_out)
                  (enumerate B_) ([], final) ;;
      let B := slice_to alsd_beam (sorted_desc (ltb N) score A) in
      let B := recombine_hyps B in
      ret (B, final, beam_state)
  end.

(** The alignment positions visited by the outer loop (line 383). *)
Definition alsd_u_max (t_max : Z) : Z := Z.min (u_max self) (t_max - 1).

Definition alsd_positions (enc_out : list Frame) : list Z :=
  let t_max := Z.of_nat (length enc_out) in
  range (t_max + alsd_u_max t_max).

(** The loop of lines 383-455 over given positions, and the return of
    lines 457-460. *)
Definition alsd_loop (enc_out : list Frame) (positions : list Z) : M Cache (list hypothesis) :=
  let t_max := Z.of_nat (length enc_out) in
  let '(B, beam_state) := batched_init alsd_beam in
  '(B, final, _) <-
     for_each (alsd_round enc_out t_max) positions (B, [], beam_state) ;;
  match final with
  | _ :: _ => ret (sort_nbest (fun h => h) final)
  | [] => ret B
  end.

Definition align_length_sync_decoding (enc_out : list Frame) : M Cache (list hypothesis) :=
  alsd_loop enc_out (alsd_positions enc_out).

(** *** N-step constrained beam search *)

(** Modelled from the spec: [is_prefix] of pytorch_backend/transducer/utils
    is not among the sources.  [is_prefix x pref] holds when [pref] is a true
    (strictly shorter) prefix of [x]. *)
Fixpoint starts_with (x pref : list nat) : bool :=
  match pref, x with
  | [], _ => true
  | p :: pref', y :: x' => (p =? y) && starts_with x' pref'
  | _ :: _, [] => false
  end.

Definition is_prefix (x pref : list nat) : bool :=
  (length pref <? length x) && starts_with x pref.

(** Modelled from the spec: [substract] of pytorch_backend/transducer/utils
    is not among the sources.  It removes from [x] every hypothesis whose
    label sequence duplicates one of [subset]. *)
Definition substract (x subset : list nsc_hypothesis) : list nsc_hypothesis :=
  filter (fun x_ : nsc_hypothesis =>
            negb (existsb (fun sub : nsc_hypothesis =>
                             seq_eqb (label_seq x_) (label_seq sub)) subset)) x.

Definition nsc_beam : Z := Z.min (beam_size self) vocab_size.
Definition nsc_beam_k : Z := Z.min nsc_beam (vocab_size - 1).

(** [hyp.score = s] on an [NSCHypothesis] *)
Definition nsc_set_score (hyp : nsc_hypothesis) (s : num N) : nsc_hypothesis :=
  NSCHyp (set_score hyp s) (dec_out hyp) (lm_scores hyp).

(** Lines 479-521: the initial hypothesis, scored once by the decoder. *)
Definition nsc_init : M Cache (list nsc_hypothesis * DecState) :=
  let beam_state := init_state (decoder self) nsc_beam in
  let init_tokens :=
    [Hyp (zero N) [blank_id (decoder self)]
         (select_state (decoder self) beam_state 0) None] in
  '(beam_dec_out, beam_state, beam_lm_tokens) <-
     call (fun c => batch_score (decoder self) init_tokens beam_state c use_lm) ;;
  let state := select_state (decoder self) beam_state 0 in
  '(lm_state0, lm_scores0) <-
     match lm self with
     | Some l =>
         let (beam_lm_states, beam_lm_scores) := buff_predict l None beam_lm_tokens 1 in
         sc <- or_raise IndexError (nth_error beam_lm_scores 0) ;;
         ret (Some (select_lm_state l beam_lm_states 0), Some sc)
     | None => ret (None, None)
     end ;;
  d <- or_raise IndexError (nth_error beam_dec_out 0) ;;
  ret ([NSCHyp (Hyp (zero N) [blank_id (decoder self)] state lm_state0) [d] lm_scores0],
       beam_state).

(** Lines 538-553: the score with which the shorter [hyp_i] reaches the
    label sequence of [hyp_j]. *)
Definition nsc_prefix_score (enc_out_t : Frame) (hyp_j hyp_i : nsc_hypothesis)
  : M Cache (num N) :=
  let curr_id := length (label_seq hyp_j) in
  let pref_id := length (label_seq hyp_i) in
  d <- or_raise IndexError (getitem (dec_out hyp_i) (-1)) ;;
  let logp := joint_logp self enc_out_t d in
  lab <- or_raise IndexError (nth_error (label_seq hyp_j) pref_id) ;;
  x <- or_raise IndexError (nth_error logp lab) ;;
  for_each (fun curr_score k =>
              d <- or_raise IndexError (nth_error (dec_out hyp_j) k) ;;
              let logp := joint_logp self enc_out_t d in
              lab <- or_raise IndexError (nth_error (label_seq hyp_j) (k + 1)) ;;
              x <- or_raise IndexError (nth_error logp lab) ;;
              ret (add N curr_score x))
           (seq pref_id (curr_id - 1 - pref_id))
           (add N (score hyp_i) x).

(** Lines 531-555: the body of the inner loop, acting on [hyp_j]. *)
Definition nsc_merge_pair (enc_out_t : Frame) (hyp_j hyp_i : nsc_hypothesis)
  : M Cache nsc_hypothesis :=
  let curr_id := Z.of_nat (length (label_seq hyp_j)) in
  let pref_id := Z.of_nat (length (label_seq hyp_i)) in
  if is_prefix (label_seq hyp_j) (label_seq hyp_i)
     && (curr_id - pref_id <=? prefix_alpha self)%Z
  then
    curr_score <- nsc_prefix_score enc_out_t hyp_j hyp_i ;;
    ret (nsc_set_score hyp_j (logaddexp (score hyp_j) curr_score))
  else ret hyp_j.

(** Lines 529-555.  [hyp_j] is updated from the hypotheses after it, which
    have not been updated yet when it reads them. *)
Fixpoint nsc_prefix_merge (enc_out_t : Frame) (hyps : list nsc_hypothesis)
  : M Cache (list nsc_hypothesis) :=
  match hyps with
  | [] => ret []
  | hyp_j :: rest =>
      hyp_j <- for_each (nsc_merge_pair enc_out_t) rest hyp_j ;;
      rest <- nsc_prefix_merge enc_out_t rest ;;
      ret (hyp_j :: rest)
  end.

(** The blank extension appended to [S] (lines 570-579); the set [S] of the
    source is written [S_] below. *)
Definition nsc_blank_ext (hyp : nsc_hypothesis) (blank_logp : num N) : nsc_hypothesis :=
  NSCHyp (Hyp (add N (score hyp) blank_logp) (label_seq hyp) (dec_state hyp) (lm_state hyp))
         (dec_out hyp) (lm_scores hyp).

(** Lines 569-596: the candidates of the [i]-th hypothesis. *)
Definition nsc_expand_hyp (beam_logp : list (list (num N)))
  (beam_topk : list (list (num N * nat)))
  (st : list nsc_hypothesis * list nsc_hypothesis) (ih : nat * nsc_hypothesis)
  : M Cache (list nsc_hypothesis * list nsc_hypothesis) :=
  let '(S_, V) := st in
  let '(i, hyp) := ih in
  r <- or_raise IndexError (nth_error beam_logp i) ;;
  blank_logp <- or_raise TorchError (item (firstn 1 r)) ;;
  let S_ := S_ ++ [nsc_blank_ext hyp blank_logp] in
  top <- or_raise IndexError (nth_error beam_topk i) ;;
  new_hyps <- map_m (fun '(logp, k0) =>
                let k := k0 + 1 in
                let score0 := add N (score hyp) logp in
                score1 <- (if use_lm then
                             sc <- or_raise TypeError (lm_scores hyp) ;;
                             x <- or_raise IndexError (nth_error sc k) ;;
                             ret (add N score0 (scale N (lm_weight self) x))
                           else ret score0) ;;
                ret (NSCHyp (Hyp score1 (label_seq hyp ++ [k]) (dec_state hyp) (lm_state hyp))
                            (dec_out hyp) (lm_scores hyp)))
              top ;;
  ret (S_, V ++ new_hyps).

(** Lines 623-631 and 645-653: the decoder output and the states of the
    [i]-th survivor are refreshed. *)
Definition nsc_refresh (beam_state : DecState) (beam_dec_out : list DecOut)
  (lm_out : option (LM * LmStates * list (list (num N))))
  (iv : nat * nsc_hypothesis) : M Cache nsc_hypothesis :=
  let '(i, v) := iv in
  d <- or_raise IndexError (nth_error beam_dec_out i) ;;
  let new_state := select_state (decoder self) beam_state i in
  match lm_out with
  | Some (l, beam_lm_states, beam_lm_scores) =>
      sc <- or_raise IndexError (nth_error beam_lm_scores i) ;;
      ret (NSCHyp (Hyp (score v) (label_seq v) new_state
                       (Some (select_lm_state l beam_lm_states i)))
                  (dec_out v ++ [d]) (Some sc))
  | None =>
      ret (NSCHyp (Hyp (score v) (label_seq v) new_state (lm_state v))
                  (dec_out v ++ [d]) (lm_scores v))
  end.

(** Lines 641-653: the last round of a frame. *)
Definition nsc_final (beam_state : DecState) (beam_dec_out : list DecOut)
  (beam_logp : list (list (num N)))
  (lm_out : option (LM * LmStates * list (list (num N))))
  (iv : nat * nsc_hypothesis) : M Cache nsc_hypothesis :=
  let '(i, v) := iv in
  v <- (if negb (nstep self =? 1)%Z then
          blank_logp <- at2 beam_logp i 0 ;;
          ret (nsc_set_score v (add N (score v) blank_logp))
        else ret v) ;;
  nsc_refresh beam_state beam_dec_out lm_out (i, v).

(** Lines 560-619 of a turn of the loop over [range(self.nstep)]: the sets
    [S] and [V] grow, [V] is sorted, cleared of the label sequences of [hyps]
    and cut to the beam, and the survivors are scored by the decoder. *)
Definition nsc_expand (enc_out_t : Frame)
  (hyps S_ V : list nsc_hypothesis) (beam_state : DecState)
  : M Cache (list nsc_hypothesis * list nsc_hypothesis * DecState * list DecOut
             * option (LM * LmStates * list (list (num N)))) :=
  last_out <- map_m (fun hyp => or_raise IndexError (getitem (dec_out hyp) (-1))) hyps ;;
  beam_dec_out <- (match last_out with
                   | [] => raise TorchError       (* torch.stack of an empty list *)
                   | _ :: _ => ret last_out
                   end) ;;
  let beam_logp := map (joint_logp self enc_out_t) beam_dec_out in
  beam_topk <- batch_topk nsc_beam_k beam_logp ;;
  '(S_, V) <- for_each (nsc_expand_hyp beam_logp beam_topk) (enumerate hyps) (S_, V) ;;
  let V := sorted_desc (ltb N) (fun x : nsc_hypothesis => score x) V in
  let V := slice_to nsc_beam (substract V hyps) in
  let beam_state :=
    create_batch_states (decoder self) beam_state (map (fun v : nsc_hypothesis => dec_state v) V)
                        (map (fun v : nsc_hypothesis => label_seq v) V) in
  '(beam_dec_out, beam_state, beam_lm_tokens) <-
     call (fun c => batch_score (decoder self) (map base V) beam_state c use_lm) ;;
  let lm_out := lm_batch (map base V) beam_lm_tokens in
  ret (S_, V, beam_state, beam_dec_out, lm_out).

(** Lines 621-653: the survivors [V] are refreshed; in the last round
    ([n >= nstep - 1]) through [nsc_final]. *)
Definition nsc_close (enc_out_t : Frame) (n : Z)
  (hyps S_ V : list nsc_hypothesis) (beam_state : DecState) (beam_dec_out : list DecOut)
  (lm_out : option (LM * LmStates * list (list (num N))))
  : M Cache (list nsc_hypothesis * list nsc_hypothesis * list nsc_hypothesis * DecState) :=
  if (n <? nstep self - 1)%Z then
    V <- map_m (nsc_refresh beam_state beam_dec_out lm_out) (enumerate V) ;;
    ret (V, S_, V, beam_state)
  else
    let beam_logp := map (joint_logp self enc_out_t) beam_dec_out in
    V <- map_m (nsc_final beam_state beam_dec_out beam_logp lm_out) (enumerate V) ;;
    ret (hyps, S_, V, beam_state).

(** One turn of the loop over [range(self.nstep)] (lines 559-653). *)
Definition nsc_round (enc_out_t : Frame)
  (st : list nsc_hypothesis * list nsc_hypothesis * list nsc_hypothesis * DecState) (n : Z)
  : M Cache (list nsc_hypothesis * list nsc_hypothesis * list nsc_hypothesis * DecState) :=
  let '(hyps, S_, V, beam_state) := st in
  '(S_, V, beam_state, beam_dec_out, lm_out) <- nsc_expand enc_out_t hyps S_ V beam_state ;;
  nsc_close enc_out_t n hyps S_ V beam_state beam_dec_out lm_out.

Definition nsc_frame (st : list nsc_hypothesis * DecState) (enc_out_t : Frame)
  : M Cache (list nsc_hypothesis * DecState) :=
  let '(kept_hyps, beam_state) := st in
  let hyps :=
    sort_by (fun x y : nsc_hypothesis => length (label_seq x) <? length (label_seq y))
            kept_hyps in
  hyps <- nsc_prefix_merge enc_out_t hyps ;;
  '(_, S_, V, beam_state) <-
     for_each (nsc_round enc_out_t) (range (nstep self)) (hyps, [], [], beam_state) ;;
  ret (slice_to nsc_beam (sorted_desc (ltb N) (fun x : nsc_hypothesis => score x) (S_ ++ V)),
       beam_state).

Definition nsc_beam_search (enc_out : list Frame) : M Cache (list nsc_hypothesis) :=
  st <- nsc_init ;;
  '(kept_hyps, _) <- for_each nsc_frame enc_out st ;;
  ret (sort_nbest base kept_hyps).

(** *** [BeamSearchTransducer.__call__]

    The search selected at construction runs on a fresh cache; an
    [NSCHypothesis] is returned as the [Hypothesis] it extends. *)
Definition search_algorithm_of (a : algorithm) (fuel : nat) (enc_out : list Frame)
  : M Cache (list hypothesis) :=
  match a with
  | greedy => greedy_search enc_out
  | default => default_beam_search fuel enc_out
  | tsd => time_sync_decoding enc_out
  | alsd => align_length_sync_decoding enc_out
  | nsc => nbest_hyps <- nsc_beam_search enc_out ;; ret (map base nbest_hyps)
  end.

Definition run {A : Type} (m : M Cache A) : result A :=
  match m (empty_cache (decoder self)) with
  | Ok (a, _) => Ok a
  | Raise e => Raise e
  | OutOfFuel => OutOfFuel
  end.

Definition call_search (fuel : nat) (enc_out : list Frame) : result (list hypothesis) :=
  run (search_algorithm_of (search_algorithm self) fuel enc_out).

End Transducer.

(** ** Construction ([BeamSearchTransducer.__init__]) *)

Section Construction.
Variable N : Arith.
Variables Frame DecOut DecState Tokens LmState LmStates Cache : Type.

(** Lines 67-78: the search selected by [beam_size] and [search_type]. *)
Definition select_search (beam_size : Z) (search_type : string) : exn + algorithm :=
  if (beam_size <=? 1)%Z then inr greedy
  else if String.eqb search_type "default" then inr default
  else if String.eqb search_type "tsd" then inr tsd
  else if String.eqb search_type "alsd" then inr alsd
  else if String.eqb search_type "nsc" then inr nsc
  else inl NotImplementedError.

(** The constructor: either the exception it raises or the object. *)
Definition init
  (decoder : Decoder N DecOut DecState Tokens LmState Cache)
  (joint_logp : Frame -> DecOut -> list (num N))
  (beam_size : Z)
  (lm : option (LM N Tokens LmState LmStates))
  (lm_weight : weight N)
  (search_type : string)
  (max_sym_exp u_max nstep prefix_alpha : Z)
  (score_norm : bool)
  (nbest : Z)
  : exn + BeamSearchTransducer N Frame DecOut DecState Tokens LmState LmStates Cache :=
  match select_search beam_size search_type with
  | inl e => inl e
  | inr a =>
      inr {| decoder := decoder; joint_logp := joint_logp; beam_size := beam_size;
             search_algorithm := a; lm := lm; lm_weight := lm_weight;
             max_sym_exp := max_sym_exp; u_max := u_max; nstep := nstep;
             prefix_alpha := prefix_alpha; score_norm := score_norm; nbest := nbest |}
  end.

End Construction.

(** ** Arithmetic instances *)

Definition Qltb (a b : Q) : bool :=
  match Qcompare a b with
  | Lt => true
  | _ => false
  end.

(** Exact rational scores. *)
Definition Qscore : Arith :=
  {| num := Q; zero := 0%Q; add := Qplus; ltb := Qltb;
     weight := Q; scale := Qmult;
     key := Q; div_len := fun a n => Qdiv a (inject_Z (Z.of_nat n)); key_ltb := Qltb |}.

(** Binary64 scores, the floats of Python. *)
Definition Fscore : Arith :=
  {| num := float; zero := 0%float; add := PrimFloat.add; ltb := PrimFloat.ltb;
     weight := float; scale := PrimFloat.mul;
     key := float;
     div_len := fun a n => PrimFloat.div a (PrimFloat.of_uint63 (Uint63.of_Z (Z.of_nat n)));
     key_ltb := PrimFloat.ltb |}.

(** Scores that are logarithms of positive rationals: the score [ln p] is
    held as the probability [p].  Adding scores multiplies probabilities,
    [<] is kept by the logarithm, an integer weight [w] turns [p] into [p^w],
    the sort keys [ln p / n] and [ln q / m] compare as [p^m] and [q^n], and
    [logaddexp (ln p) (ln q) = ln (p + q)] exactly. *)
Definition Pscore : Arith :=
  {| num := Q; zero := 1%Q; add := Qmult; ltb := Qltb;
     weight := positive; scale := fun w p => Qpower_positive p w;
     key := Q * positive;
     div_len := fun p n => (p, Pos.of_nat n);
     key_ltb := fun a b => Qltb (Qpower_positive (fst a) (snd b))
                                (Qpower_positive (fst b) (snd a)) |}.

Definition Plogaddexp (p q : Q) : Q := Qplus p q.

(** ** Stub oracles

    A decoder whose output for a hypothesis is its label sequence, so that a
    stub joint network can depend on the frame (a frame number) and on the
    hypothesis; states, tokens and the cache carry no information. *)

Section Stub.
Variable N : Arith.

Definition stub_decoder (vocab : Z) : Decoder N (list nat) unit unit unit unit :=
  {| odim := vocab;
     blank_id := 0;
     init_state := fun _ => tt;
     select_state := fun _ _ => tt;
     decoder_score := fun hyp cache => ((label_seq hyp, tt, tt), cache);
     batch_score := fun hyps _ cache _ =>
                      ((map (fun hyp : hypothesis N unit unit => label_seq hyp) hyps, tt, tt), cache);
     create_batch_states := fun _ _ _ => tt;
     empty_cache := tt |}.

Definition stub_search (w0 : weight N) (vocab : Z) (logp : nat -> list nat -> list (num N))
  (beam : Z) (a : algorithm) (sym_exp steps : Z) (norm : bool) (n_best : Z)
  : BeamSearchTransducer N nat (list nat) unit unit unit unit unit :=
  {| decoder := stub_decoder vocab;
     joint_logp := logp;
     beam_size := beam;
     search_algorithm := a;
     lm := None;
     lm_weight := w0;
     max_sym_exp := sym_exp;
     u_max := 50;
     nstep := steps;
     prefix_alpha := 1;
     score_norm := norm;
     nbest := n_best |}.

End Stub.

(** The scenario of the default search: three labels with blank 0, two
    frames, beam size 2, no LM, length normalisation, 1-best; the joint
    network ignores the hypothesis. *)
Definition scenario_logp (N : Arith) (frame1 frame2 : list (num N))
  (t : nat) (_ : list nat) : list (num N) :=
  match t with
  | O => frame1
  | _ => frame2
  end.

Definition scenario_Q : BeamSearchTransducer Qscore nat (list nat) unit unit unit unit unit :=
  stub_search Qscore 0%Q 3
    (scenario_logp Qscore [-1 # 10; -15 # 10; -23 # 10]%Q [-2 # 10; -10 # 10; -30 # 10]%Q)
    2 default 2 1 true 1.

Definition scenario_F : BeamSearchTransducer Fscore nat (list nat) unit unit unit unit unit :=
  stub_search Fscore 0%float 3
    (scenario_logp Fscore [-0x1.999999999999ap-4; -0x1.8p+0; -0x1.2666666666666p+1]%float
                        [-0x1.999999999999ap-3; -0x1p+0; -0x1.8p+1]%float)
    2 default 2 1 true 1.

(** The stubs of the examples below.  Those over [Pscore] give the joint
    network as probabilities; their scores are the logarithms of these. *)

(** A joint network that favours the labels, as probabilities
    (1/100, 60/100, 39/100) for blank, 1 and 2. *)
Definition label_heavy (_ : nat) (_ : list nat) : list Q :=
  [1 # 100; 60 # 100; 39 # 100]%Q.

(** ALSD with three labels, beam size 2, 1-best and length normalisation. *)
Definition alsd_stub : BeamSearchTransducer Pscore nat (list nat) unit unit unit unit unit :=
  stub_search Pscore 1%positive 3 label_heavy 2 alsd 2 1 true 1.

(** Greedy search on the two frames of the scenario, where blank wins. *)
Definition greedy_stub : BeamSearchTransducer Qscore nat (list nat) unit unit unit unit unit :=
  stub_search Qscore 0%Q 3
    (scenario_logp Qscore [-1 # 10; -15 # 10; -23 # 10]%Q [-2 # 10; -10 # 10; -30 # 10]%Q)
    1 greedy 2 1 true 1.

(** The N-step constrained search of the examples: three labels whose
    probabilities are (1/2, 3/10, 1/5) on every frame, beam size 2, two
    expansion steps, the two best by plain score. *)
Definition blank_heavy (_ : nat) (_ : list nat) : list Q :=
  [50 # 100; 30 # 100; 20 # 100]%Q.

Definition nsc_stub : BeamSearchTransducer Pscore nat (list nat) unit unit unit unit unit :=
  stub_search Pscore 1%positive 3 blank_heavy 2 nsc 2 2 false 2.

(** A survivor of the second of two expansion steps. *)
Definition nsc_survivor : nsc_hypothesis Pscore (list nat) unit unit :=
  NSCHyp (@Hyp Pscore unit unit (3 # 10)%Q [0; 1] tt None) [[0]] None.

(** A default search over four labels with beam size 2.  After the blank
    alone the labels have probabilities (6/100, 45/100, 43/100, 6/100);
    after any label they have (70/100, 10/100, 10/100, 10/100). *)
Definition wide_logp (_ : nat) (labels : list nat) : list Q :=
  match labels with
  | [_] => [6 # 100; 45 # 100; 43 # 100; 6 # 100]%Q
  | _ => [70 # 100; 10 # 100; 10 # 100; 10 # 100]%Q
  end.

Definition wide_stub : BeamSearchTransducer Pscore nat (list nat) unit unit unit unit unit :=
  stub_search Pscore 1%positive 4 wide_logp 2 default 2 1 false 1.

Definition wide_kept : list (hypothesis Pscore unit unit) :=
  [@Hyp Pscore unit unit (Qmult 1 (6 # 100)) [0] tt None;
   @Hyp Pscore unit unit (Qmult (Qmult 1 (43 # 100)) (70 # 100)) [0; 2] tt None;
   @Hyp Pscore unit unit (Qmult (Qmult 1 (45 # 100)) (70 # 100)) [0; 1] tt None].

(** The blank-only hypothesis of probability 1. *)
Definition blank_only : hypothesis Pscore unit unit := @Hyp Pscore unit unit 1%Q [0] tt None.

(** ALSD on four frames where labels win until a hypothesis has six of them
    and blank comes first afterwards: probabilities (1/100, 60/100, 39/100),
    then (50/100, 40/100, 10/100).  Beam size 2, 1-best, length
    normalisation. *)
Definition late_blank (_ : nat) (labels : list nat) : list Q :=
  if length labels <? 7
  then [1 # 100; 60 # 100; 39 # 100]%Q
  else [50 # 100; 40 # 100; 10 # 100]%Q.

Definition alsd_late_blank : BeamSearchTransducer Pscore nat (list nat) unit unit unit unit unit :=
  stub_search Pscore 1%positive 3 late_blank 2 alsd 2 1 true 1.

(** Two frames on which the label sequence (0, 1) is reached along two
    alignments: probabilities (50/100, 40/100, 10/100) on the first frame
    and (60/100, 30/100, 10/100) on the second.  Beam size 2, the three best
    by plain score. *)
Definition two_paths (t : nat) (_ : list nat) : list Q :=
  match t with
  | O => [50 # 100; 40 # 100; 10 # 100]%Q
  | _ => [60 # 100; 30 # 100; 10 # 100]%Q
  end.

Definition tsd_two_paths : BeamSearchTransducer Pscore nat (list nat) unit unit unit unit unit :=
  stub_search Pscore 1%positive 3 two_paths 2 tsd 2 1 false 3.


(** An NSC search with two expansion steps and beam size 3, whose joint
    network follows the label sequence: (30/100, 60/100, 10/100) after the
    blank alone, (5/100, 90/100, 5/100) after (0, 1), (50/100, 30/100, 20/100)
    after (0, 1, 1) and (40/100, 30/100, 30/100) elsewhere. *)
Definition by_labels (_ : nat) (labels : list nat) : list Q :=
  match labels with
  | [0] => [30 # 100; 60 # 100; 10 # 100]%Q
  | [0; 1] => [5 # 100; 90 # 100; 5 # 100]%Q
  | [0; 1; 1] => [50 # 100; 30 # 100; 20 # 100]%Q
  | _ => [40 # 100; 30 # 100; 30 # 100]%Q
  end.

Definition nsc_two_steps : BeamSearchTransducer Pscore nat (list nat) unit unit unit unit unit :=
  stub_search Pscore 1%positive 3 by_labels 3 nsc 2 2 false 3.



(** ** What the properties speak of *)

Definition known_search_type (search_type : string) : Prop :=
  search_type = "default"%string \/ search_type = "tsd"%string \/
  search_type = "alsd"%string \/ search_type = "nsc"%string.

(** The number of turns of the outer loop of ALSD in the words of the spec:
    [t_max + u_max - 1]. *)
Definition alsd_claimed_turns {N Frame DecOut DecState Tokens LmState LmStates Cache}
  (self : BeamSearchTransducer N Frame DecOut DecState Tokens LmState LmStates Cache)
  (enc_out : list Frame) : Prop :=
  let t_max := Z.of_nat (length enc_out) in
  length (alsd_positions self enc_out)
  = Z.to_nat (t_max + Z.min (u_max self) (t_max - 1) - 1).

Section SortedOrder.
Context {K A : Type}.
Variable lt : K -> K -> bool.
Variable key : A -> K.

(** [x] comes before [y] in a list sorted from the largest key down. *)
Definition not_below (x y : A) : Prop := lt (key x) (key y) = false.

End SortedOrder.

Section Predicates.
Variable N : Arith.
Variables Frame DecOut DecState Tokens LmState LmStates Cache : Type.
Variable self : BeamSearchTransducer N Frame DecOut DecState Tokens LmState LmStates Cache.

(** The entry of [v] at index [b] is strictly above every other one. *)
Definition highest_at (v : list (num N)) (b : nat) : Prop :=
  exists x, nth_error v b = Some x /\
            forall j y, j <> b -> nth_error v j = Some y -> ltb N y x = true.

(** What the searches rely on from the batched oracles: one decoder output
    per hypothesis, one row of LM scores per requested row. *)
Definition oracle_contract : Prop :=
  (forall hyps st c b,
      length (fst (fst (fst (batch_score (decoder self) hyps st c b)))) = length hyps) /\
  (forall l, lm self = Some l ->
             forall st tok n, length (snd (buff_predict l st tok n)) = n).

(** The order in which [sort_nbest] leaves two hypotheses. *)
Definition nbest_order (x y : hypothesis N DecState LmState) : Prop :=
  if score_norm self
  then key_ltb N (norm_score x) (norm_score y) = false
  else ltb N (score x) (score y) = false.

(** The LM step of a turn (lines 216-219): the LM state and the LM scores
    that the candidates of [max_hyp] receive. *)
Definition default_lm_step (max_hyp : hypothesis N DecState LmState) (lm_tokens : Tokens)
  : option LmState * list (num N) :=
  match lm self with
  | Some l => let (s, sc) := predict l (lm_state max_hyp) lm_tokens in (Some s, sc)
  | None => (lm_state max_hyp, [])
  end.

(** [h] is the candidate that lines 221-234 build from [max_hyp] for the
    entry [lk = (logp, k)] of the top-k. *)
Definition default_candidate (max_hyp : hypothesis N DecState LmState) (state : DecState)
  (lms : option LmState * list (num N)) (lk : num N * nat)
  (h : hypothesis N DecState LmState) : Prop :=
  label_seq h = label_seq max_hyp ++ [snd lk + 1] /\
  dec_state h = state /\
  lm_state h = fst lms /\
  if use_lm self
  then exists x, nth_error (snd lms) (snd lk + 1) = Some x /\
                 score h = add N (add N (score max_hyp) (fst lk)) (scale N (lm_weight self) x)
  else score h = add N (score max_hyp) (fst lk).

(** The rule of lines 196-243 for one turn of the expansion loop on the
    frame [e], started with the frontier [hyps], the kept hypotheses [kept]
    and the cache [c], and ended in [r].  [max_hyp] is the best hypothesis of
    [hyps]; the decoder scores it; [blank_logp] is the first entry of the
    joint output and [top_k] the top-k of the others; [new_hyps] are the
    candidates built from [top_k].  With [hyps1] the frontier after the turn
    (without [max_hyp], with [new_hyps]), [top] its best hypothesis and
    [kept1] the kept hypotheses with the blank extension of [max_hyp], the
    hypotheses of [kept1] whose score exceeds that of [top] are counted: the
    loop breaks with exactly these when they are at least [beam], and goes on
    with [hyps1] and [kept1] otherwise. *)
Definition default_exit_rule (e : Frame) (hyps kept : list (hypothesis N DecState LmState))
  (c : Cache)
  (r : list (hypothesis N DecState LmState) * list (hypothesis N DecState LmState)
       + list (hypothesis N DecState LmState)) : Prop :=
  exists i max_hyp d state tok c' blank_logp top_k new_hyps j top,
    py_max (ltb N) (@score N DecState LmState) hyps = Some (i, max_hyp) /\
    decoder_score (decoder self) max_hyp c = (d, state, tok, c') /\
    item N (firstn 1 (joint_logp self e d)) = Some blank_logp /\
    topk N (default_beam_k self) (tl (joint_logp self e d)) = Some top_k /\
    Forall2 (default_candidate max_hyp state (default_lm_step max_hyp tok)) top_k new_hyps /\
    let hyps1 := remove_at i hyps ++ new_hyps in
    py_max (ltb N) (@score N DecState LmState) hyps1 = Some (j, top) /\
    let kept1 := kept ++ [default_blank_ext max_hyp blank_logp] in
    let most_prob := kept_most_prob kept1 (score top) in
    (forall h, In h most_prob <-> In h kept1 /\ ltb N (score top) (score h) = true) /\
    length most_prob = length (filter (fun h => ltb N (score top) (score h)) kept1) /\
    (((default_beam self <= Z.of_nat (length most_prob))%Z /\ r = inr most_prob) \/
     ((Z.of_nat (length most_prob) < default_beam self)%Z /\ r = inl (hyps1, kept1))).

(** [child] has the label sequence and the decoder and LM state handles of
    [parent]. *)
Definition carries_states (parent child : hypothesis N DecState LmState) : Prop :=
  label_seq child = label_seq parent /\
  dec_state child = dec_state parent /\
  lm_state child = lm_state parent.

(** Greedy search: the hypothesis is left alone on blank, and takes the
    decoder state [state] computed for it otherwise. *)
Definition greedy_effect (st st' : hypothesis N DecState LmState * DecOut * DecState) : Prop :=
  st' = st \/
  exists pred,
    pred <> blank_id (decoder self) /\
    label_seq (fst (fst st')) = label_seq (fst (fst st)) ++ [pred] /\
    dec_state (fst (fst st')) = snd st.

(** Default search: the turn pops [max_hyp], keeps its blank extension, and
    gives the new state of the decoder to the non-blank candidates. *)
Definition default_effect (hyps kept : list (hypothesis N DecState LmState)) (c : Cache)
  (r : list (hypothesis N DecState LmState) * list (hypothesis N DecState LmState)
       + list (hypothesis N DecState LmState)) : Prop :=
  exists i max_hyp blank_ext new_hyps,
    py_max (ltb N) (fun h : hypothesis N DecState LmState => score h) hyps = Some (i, max_hyp) /\
    carries_states max_hyp blank_ext /\
    Forall (fun h => dec_state h = snd (fst (fst (decoder_score (decoder self) max_hyp c))))
           new_hyps /\
    match r with
    | inl (hyps', kept') =>
        kept' = kept ++ [blank_ext] /\ hyps' = remove_at i hyps ++ new_hyps
    | inr kept' => exists hyps_max, kept' = kept_most_prob (kept ++ [blank_ext]) hyps_max
    end.

(** TSD: the blank extension of [hyp] enters [A], or only a score of [A]
    changes. *)
Definition tsd_effect (A : list (hypothesis N DecState LmState))
  (hyp : hypothesis N DecState LmState) (A' : list (hypothesis N DecState LmState)) : Prop :=
  (exists blank_ext, carries_states hyp blank_ext /\ A' = A ++ [blank_ext]) \/
  (map (fun a => label_seq a) A' = map (fun a => label_seq a) A /\
   map (fun a => dec_state a) A' = map (fun a => dec_state a) A /\
   map (fun a => lm_state a) A' = map (fun a => lm_state a) A).

(** ALSD: the blank extension enters [A], and [final] when its frame is the
    last; the non-blank candidates take the state selected from the batch. *)
Definition alsd_effect (beam_state : DecState) (i : nat)
  (A final : list (hypothesis N DecState LmState)) (hyp : hypothesis N DecState LmState)
  (A' final' : list (hypothesis N DecState LmState)) : Prop :=
  exists blank_ext new_hyps,
    carries_states hyp blank_ext /\
    A' = (A ++ [blank_ext]) ++ new_hyps /\
    (final' = final \/ final' = final ++ [blank_ext]) /\
    Forall (fun h => dec_state h = select_state (decoder self) beam_state i) new_hyps.

(** NSC: the blank extension enters [S] with the decoder outputs and LM
    scores of its parent as well. *)
Definition nsc_effect (S_ V : list (nsc_hypothesis N DecOut DecState LmState))
  (hyp : nsc_hypothesis N DecOut DecState LmState)
  (S' V' : list (nsc_hypothesis N DecOut DecState LmState)) : Prop :=
  exists (blank_ext : nsc_hypothesis N DecOut DecState LmState) new_hyps,
    carries_states hyp blank_ext /\
    dec_out blank_ext = dec_out hyp /\
    lm_scores blank_ext = lm_scores hyp /\
    S' = S_ ++ [blank_ext] /\
    V' = V ++ new_hyps.

Definition labels (l : list (hypothesis N DecState LmState)) : list (list nat) :=
  map (fun h => label_seq h) l.


End Predicates.

(** ** What the further properties speak of *)
(** TSD and ALSD over three labels with a beam as large as the vocabulary. *)
Definition tsd_full_beam : BeamSearchTransducer Pscore nat (list nat) unit unit unit unit unit :=
  stub_search Pscore 1%positive 3 blank_heavy 3 tsd 2 1 false 1.

Definition alsd_full_beam : BeamSearchTransducer Pscore nat (list nat) unit unit unit unit unit :=
  stub_search Pscore 1%positive 3 blank_heavy 3 alsd 2 1 false 1.

Section LabelShape.
Variable N : Arith.
Variables Frame DecOut DecState Tokens LmState LmStates Cache : Type.
Variable self : BeamSearchTransducer N Frame DecOut DecState Tokens LmState LmStates Cache.

(** The label sequence of [h] is the initial [blank_id] followed by at most
    [n] labels, none of which is 0, the index the beam searches read as
    blank. *)
Definition at_most_labels (n : nat) (h : hypothesis N DecState LmState) : Prop :=
  exists ls,
    label_seq h = blank_id (decoder self) :: ls /\
    length ls <= n /\
    Forall (fun k => 1 <= k) ls.

(** What the expansion of a batch of [n] hypotheses needs of the LM scores
    when an LM is used: [n] rows of [vocab_size] entries. *)
Definition lm_ready (n : nat)
  (lm_out : option (LM N Tokens LmState LmStates * LmStates * list (list (num N)))) : Prop :=
  match lm_out with
  | Some (_, _, sc) =>
      length sc = n /\ Forall (fun row => Z.of_nat (length row) = vocab_size self) sc
  | None => True
  end.

(** What NSC relies on in a hypothesis: labels below [vocab_size] after
    the initial blank, one decoder output per label but for the [d] last
    ones, and LM scores of [vocab_size] entries when an LM is used. *)
Definition nsc_shape (d : nat) (h : nsc_hypothesis N DecOut DecState LmState) : Prop :=
  (exists ls, label_seq h = blank_id (decoder self) :: ls /\
              Forall (fun k => (Z.of_nat k < vocab_size self)%Z) ls) /\
  length (dec_out h) + d = length (label_seq h) /\
  (use_lm self = true ->
   exists sc, lm_scores h = Some sc /\ Z.of_nat (length sc) = vocab_size self).

End LabelShape.

Section PrefixMerge.
Variable N : Arith.
Variables DecOut DecState LmState : Type.

(** [h'] is [h] with, at most, another score. *)
Definition same_but_score (h h' : nsc_hypothesis N DecOut DecState LmState) : Prop :=
  label_seq h' = label_seq h /\
  dec_state h' = dec_state h /\
  lm_state h' = lm_state h /\
  dec_out h' = dec_out h /\
  lm_scores h' = lm_scores h.

End PrefixMerge.

Section GreedyTrace.
Variable N : Arith.
Variables Frame DecOut DecState Tokens LmState LmStates Cache : Type.
Variable self : BeamSearchTransducer N Frame DecOut DecState Tokens LmState LmStates Cache.

(** [p] is the best score and its index, not the blank, of the joint
    output on a frame of [enc_out]. *)
Definition greedy_emission (enc_out : list Frame) (p : num N * nat) : Prop :=
  snd p <> blank_id (decoder self) /\
  exists e d, In e enc_out /\ torch_max N (joint_logp self e d) = Some p.

End GreedyTrace.

(** Greedy search where label 1 wins on every frame. *)
Definition greedy_label_stub : BeamSearchTransducer Pscore nat (list nat) unit unit unit unit unit :=
  stub_search Pscore 1%positive 3 label_heavy 1 greedy 2 1 true 1.

(** TSD without symbol expansions and NSC without expansion steps. *)
Definition tsd_no_expansion : BeamSearchTransducer Pscore nat (list nat) unit unit unit unit unit :=
  stub_search Pscore 1%positive 3 blank_heavy 2 tsd 0 1 false 1.

Definition nsc_no_step : BeamSearchTransducer Pscore nat (list nat) unit unit unit unit unit :=
  stub_search Pscore 1%positive 3 blank_heavy 2 nsc 2 0 false 1.

(** * Properties *)

(** ** The search monad *)

Section MonadFacts.
Context {St : Type}.

Lemma bind_ok {A B} (m : M St A) (k : A -> M St B) s b s' :
  bind m k s = Ok (b, s') ->
  exists a s1, m s = Ok (a, s1) /\ k a s1 = Ok (b, s').
Proof.
  unfold bind. destruct (m s) as [[a s1] | e | ]; try discriminate.
  intros H. exists a, s1. split; [reflexivity | exact H].
Qed.

Lemma ret_ok {A} (a b : A) (s s' : St) :
  ret a s = Ok (b, s') -> b = a /\ s' = s.
Proof. unfold ret. intros H. inversion H. split; reflexivity. Qed.

Lemma call_ok {A} (f : St -> A * St) (s : St) a s' :
  call f s = Ok (a, s') -> f s = (a, s').
Proof. unfold call. intros H. inversion H. reflexivity. Qed.

Lemma or_raise_ok {A} e (o : option A) (s : St) a s' :
  or_raise e o s = Ok (a, s') -> o = Some a /\ s' = s.
Proof.
  destruct o as [x | ]; simpl; unfold ret, raise; intros H; inversion H.
  split; reflexivity.
Qed.

(** A loop preserves what each of its turns preserves. *)
Lemma for_each_inv {A B} (P : B -> Prop) (body : B -> A -> M St B) :
  forall (l : list A) acc s r s',
    P acc ->
    (forall b a s1 b' s2, P b -> In a l -> body b a s1 = Ok (b', s2) -> P b') ->
    for_each body l acc s = Ok (r, s') -> P r.
Proof.
  induction l as [ | x l IH]; intros acc s r s' Hacc Hstep Hrun; simpl in Hrun.
  - apply ret_ok in Hrun. destruct Hrun as [-> _]. exact Hacc.
  - apply bind_ok in Hrun. destruct Hrun as (b & s1 & Hb & Hrest).
    apply (IH b s1 r s'); [ | | exact Hrest].
    + apply (Hstep acc x s b s1); [exact Hacc | left; reflexivity | exact Hb].
    + intros b0 a s2 b' s3 Hb0 Hin. apply Hstep; [exact Hb0 | right; exact Hin].
Qed.

(** A comprehension returns one value per element. *)
Lemma map_m_ok {A B} (f : A -> M St B) :
  forall (l : list A) s r s',
    map_m f l s = Ok (r, s') ->
    Forall2 (fun a b => exists s1 s2, f a s1 = Ok (b, s2)) l r.
Proof.
  induction l as [ | x l IH]; intros s r s' Hrun; simpl in Hrun.
  - apply ret_ok in Hrun. destruct Hrun as [-> _]. constructor.
  - apply bind_ok in Hrun. destruct Hrun as (y & s1 & Hy & Hrun).
    apply bind_ok in Hrun. destruct Hrun as (ys & s2 & Hys & Hrun).
    apply ret_ok in Hrun. destruct Hrun as [-> _].
    constructor; [exists s, s1; exact Hy | eapply IH; exact Hys].
Qed.

End MonadFacts.

(** Running a bind forwards. *)
Lemma bind_ok_intro {St A B} (m : M St A) (k : A -> M St B) (s s1 : St) (a : A) :
  m s = Ok (a, s1) -> bind m k s = k a s1.
Proof. intros H. unfold bind. rewrite H. reflexivity. Qed.

Lemma bind_ret_intro {St A B} (a : A) (k : A -> M St B) (s : St) :
  bind (ret a) k s = k a s.
Proof. reflexivity. Qed.

Ltac bind_with H := rewrite (@bind_ok_intro _ _ _ _ _ _ _ _ H).

Ltac inv_bind H :=
  let a := fresh "a" in
  let s := fresh "s" in
  let Ha := fresh "Hstep" in
  apply bind_ok in H; destruct H as (a & s & Ha & H).

(** ** The fuel of the default search *)

Section Fuel.
Variable N : Arith.
Variables Frame DecOut DecState Tokens LmState LmStates Cache : Type.
Variable self : BeamSearchTransducer N Frame DecOut DecState Tokens LmState LmStates Cache.

(** More fuel does not change a frame that ended. *)
Lemma default_frame_fuel : forall fuel e hyps kept c r,
  default_frame self fuel e hyps kept c = Ok r ->
  forall extra, default_frame self (fuel + extra) e hyps kept c = Ok r.
Proof.
  induction fuel as [ | fuel IH]; intros e hyps kept c r Hrun extra.
  - discriminate Hrun.
  - simpl in *. unfold bind in *.
    destruct (default_expand self e hyps kept c) as [[[[h k] | k] c1] | x | ];
      try discriminate.
    + apply IH. exact Hrun.
    + exact Hrun.
Qed.

Lemma default_frames_fuel : forall fuel enc_out kept c r,
  for_each (fun kept_hyps enc_out_t => default_frame self fuel enc_out_t kept_hyps [])
           enc_out kept c = Ok r ->
  forall extra,
    for_each (fun kept_hyps enc_out_t => default_frame self (fuel + extra) enc_out_t kept_hyps [])
             enc_out kept c = Ok r.
Proof.
  intros fuel enc_out. induction enc_out as [ | e l IH]; intros kept c r Hrun extra.
  - exact Hrun.
  - simpl in *. unfold bind in *.
    destruct (default_frame self fuel e kept [] c) as [[k c1] | x | ] eqn:E;
      try discriminate.
    rewrite (default_frame_fuel _ _ _ _ _ E extra). apply IH. exact Hrun.
Qed.

Lemma default_beam_search_fuel : forall fuel enc_out c r,
  default_beam_search self fuel enc_out c = Ok r ->
  forall extra, default_beam_search self (fuel + extra) enc_out c = Ok r.
Proof.
  intros fuel enc_out c r Hrun extra. unfold default_beam_search, bind in *.
  destruct (for_each _ enc_out [default_init self] c) as [[k c1] | x | ] eqn:E;
    try discriminate.
  rewrite (default_frames_fuel _ _ _ _ E extra). exact Hrun.
Qed.

End Fuel.

(** ** The scenario of the default search *)

(** C1.  With three labels (blank 0), two frames, beam size 2, no LM,
    length normalisation and 1-best, and a joint network that returns
    [-0.1, -1.5, -2.3] on the first frame and [-0.2, -1.0, -3.0] on the
    second whatever the hypothesis, the default search returns the blank-only
    hypothesis [0]: with score exactly -3/10 over the rationals, and with a
    score within 1e-9 of -0.3 in binary64.  Two turns of the expansion loop
    per frame are enough, and any larger fuel gives the same result. *)
Theorem default_scenario_top1 :
  (forall extra, exists h,
      run scenario_Q (default_beam_search scenario_Q (2 + extra) [0; 1]) = Ok [h] /\
      label_seq h = [0] /\
      Qeq (score h) (-3 # 10)) /\
  (forall extra, exists h,
      run scenario_F (default_beam_search scenario_F (2 + extra) [0; 1]) = Ok [h] /\
      label_seq h = [0] /\
      PrimFloat.ltb (PrimFloat.abs (PrimFloat.sub (score h) (-0x1.3333333333333p-2)))
                    0x1.12e0be826d695p-30 = true).
Proof.
  split; intros extra.
  - assert (E : default_beam_search scenario_Q 2 [0; 1] tt
                = Ok ([@Hyp Qscore unit unit (-30 # 100)%Q [0] tt None], tt))
      by (vm_compute; reflexivity).
    apply default_beam_search_fuel with (extra := extra) in E.
    exists (@Hyp Qscore unit unit (-30 # 100)%Q [0] tt None).
    unfold run. simpl empty_cache. rewrite E.
    repeat split.
  - assert (E : exists x,
               default_beam_search scenario_F 2 [0; 1] tt
               = Ok ([@Hyp Fscore unit unit x [0] tt None], tt) /\
               PrimFloat.ltb (PrimFloat.abs (PrimFloat.sub x (-0x1.3333333333333p-2)))
                             0x1.12e0be826d695p-30 = true).
    { eexists. split; vm_compute; reflexivity. }
    destruct E as (x & E & Hx).
    apply default_beam_search_fuel with (extra := extra) in E.
    exists (@Hyp Fscore unit unit x [0] tt None).
    unfold run. simpl empty_cache. rewrite E.
    repeat split. exact Hx.
Qed.

(** ** Construction *)

Lemma select_search_unknown (beam_size : Z) (search_type : string) :
  (1 < beam_size)%Z -> ~ known_search_type search_type ->
  select_search beam_size search_type = inl NotImplementedError.
Proof.
  intros Hb Hu. unfold select_search.
  destruct (Z.leb_spec beam_size 1) as [Hle | _]; [lia | ].
  unfold known_search_type in Hu.
  destruct (String.eqb_spec search_type "default") as [-> | _]; [tauto | ].
  destruct (String.eqb_spec search_type "tsd") as [-> | _]; [tauto | ].
  destruct (String.eqb_spec search_type "alsd") as [-> | _]; [tauto | ].
  destruct (String.eqb_spec search_type "nsc") as [-> | _]; [tauto | ].
  reflexivity.
Qed.

Lemma select_search_greedy (beam_size : Z) (search_type : string) :
  (beam_size <= 1)%Z -> select_search beam_size search_type = inr greedy.
Proof.
  intros Hb. unfold select_search.
  destruct (Z.leb_spec beam_size 1) as [_ | Hlt]; [reflexivity | lia].
Qed.

Section ConstructionFacts.
Variable N : Arith.
Variables Frame DecOut DecState Tokens LmState LmStates Cache : Type.
Variable decoder0 : Decoder N DecOut DecState Tokens LmState Cache.
Variable joint0 : Frame -> DecOut -> list (num N).
Variable lm0 : option (LM N Tokens LmState LmStates).
Variable lm_weight0 : weight N.
Variables max_sym_exp0 u_max0 nstep0 prefix_alpha0 nbest0 : Z.
Variable score_norm0 : bool.

(** C8 (as the code has it).  A [search_type] outside default, tsd, alsd and
    nsc makes the constructor raise NotImplementedError, and no object is
    built, for every [beam_size] greater than 1; a [beam_size] of at most 1
    is no error and selects the greedy search whatever [search_type] is. *)
Theorem init_search_type (beam_size : Z) (search_type : string) :
  ((1 < beam_size)%Z -> ~ known_search_type search_type ->
   init (Frame := Frame) decoder0 joint0 beam_size lm0 lm_weight0 search_type
        max_sym_exp0 u_max0 nstep0 prefix_alpha0 score_norm0 nbest0
   = inl NotImplementedError) /\
  ((beam_size <= 1)%Z ->
   exists obj,
     init (Frame := Frame) decoder0 joint0 beam_size lm0 lm_weight0 search_type
          max_sym_exp0 u_max0 nstep0 prefix_alpha0 score_norm0 nbest0
     = inr obj /\
     search_algorithm obj = greedy).
Proof.
  split.
  - intros Hb Hu. unfold init. rewrite (select_search_unknown Hb Hu). reflexivity.
  - intros Hb. unfold init. rewrite (select_search_greedy search_type Hb).
    eexists. split; reflexivity.
Qed.

End ConstructionFacts.

Lemma ctc_not_known : ~ known_search_type "ctc".
Proof. unfold known_search_type. intros [H | [H | [H | H]]]; discriminate H. Qed.

(** The constructor on the unknown type ctc, with beam sizes 2 and 1. *)
Lemma init_search_type_witness :
  init (Frame := nat) (LmStates := unit) (stub_decoder Qscore 3) (scenario_logp Qscore [] [])
       2 None 0%Q "ctc" 2 50 1 1 true 1
  = inl NotImplementedError /\
  exists obj,
    init (Frame := nat) (LmStates := unit) (stub_decoder Qscore 3) (scenario_logp Qscore [] [])
         1 None 0%Q "ctc" 2 50 1 1 true 1
    = inr obj /\
    search_algorithm obj = greedy.
Proof.
  split.
  - apply (proj1 (init_search_type (Frame := nat) (LmStates := unit)
                    (stub_decoder Qscore 3) (scenario_logp Qscore [] []) None 0%Q
                    2 50 1 1 1 true 2 "ctc")).
    + lia.
    + exact ctc_not_known.
  - apply (proj2 (init_search_type (Frame := nat) (LmStates := unit)
                    (stub_decoder Qscore 3) (scenario_logp Qscore [] []) None 0%Q
                    2 50 1 1 1 true 1 "ctc")).
    lia.
Defined.

(** The spec as worded asks for the error at every [beam_size >= 1]; with
    [beam_size = 1] an unknown [search_type] builds a greedy searcher. *)
Lemma init_unknown_type_beam_one :
  ~ (forall (beam_size : Z) (search_type : string),
        (1 <= beam_size)%Z -> ~ known_search_type search_type ->
        init (Frame := nat) (LmStates := unit) (stub_decoder Qscore 3)
             (scenario_logp Qscore [] []) beam_size None 0%Q search_type 2 50 1 1 true 1
        = inl NotImplementedError).
Proof.
  intros H. specialize (H 1%Z "ctc"%string ltac:(lia) ctc_not_known).
  discriminate H.
Qed.

(** ** The alignment positions of ALSD *)

Lemma range_length (n : Z) : length (range n) = Z.to_nat n.
Proof. unfold range. rewrite length_map, length_seq. reflexivity. Qed.

Section AlsdPositions.
Variable N : Arith.
Variables Frame DecOut DecState Tokens LmState LmStates Cache : Type.
Variable self : BeamSearchTransducer N Frame DecOut DecState Tokens LmState LmStates Cache.
Variable logaddexp : num N -> num N -> num N.

(** C6 (as the code has it).  With [t_max] frames the outer loop of ALSD
    runs over the positions [0 .. t_max + u_max - 1], that is over exactly
    [t_max + u_max] of them, where [u_max = min(self.u_max, t_max - 1)]; a
    configured value above [t_max - 1] is replaced by [t_max - 1], which is
    no error. *)
Theorem alsd_positions_count (enc_out : list Frame) :
  let t_max := Z.of_nat (length enc_out) in
  let u := Z.min (u_max self) (t_max - 1) in
  align_length_sync_decoding self logaddexp enc_out
  = alsd_loop self logaddexp enc_out (range (t_max + u)) /\
  length (alsd_positions self enc_out) = Z.to_nat (t_max + u) /\
  (forall k, k < Z.to_nat (t_max + u) ->
             nth_error (alsd_positions self enc_out) k = Some (Z.of_nat k)) /\
  ((t_max - 1 < u_max self)%Z -> u = (t_max - 1)%Z).
Proof.
  intros t_max u. split; [reflexivity | split; [ | split]].
  - unfold alsd_positions. rewrite range_length. reflexivity.
  - intros k Hk. unfold alsd_positions, alsd_u_max, range.
    fold t_max. fold u. rewrite nth_error_map, nth_error_seq.
    destruct (Nat.ltb_spec k (Z.to_nat (t_max + u))) as [_ | Hge]; [reflexivity | lia].
  - intros H. unfold u. lia.
Qed.

End AlsdPositions.

(** Two frames with the default [u_max] of 50: three positions, [u_max]
    clamped to 1. *)
Lemma alsd_positions_count_witness :
  length (alsd_positions alsd_stub [0; 1]) = 3 /\
  Z.min (u_max alsd_stub) (Z.of_nat (length [0; 1]) - 1) = 1%Z.
Proof.
  destruct (alsd_positions_count alsd_stub Plogaddexp [0; 1]) as (_ & Hlen & _ & Hclamp).
  split.
  - exact Hlen.
  - apply Hclamp. vm_compute. reflexivity.
Defined.

(** The spec as worded counts [t_max + u_max - 1] turns.  With two frames
    the loop takes three turns, not two, and the third one matters: cut
    after two turns the search would return another hypothesis. *)
Lemma alsd_two_frames_three_turns :
  ~ alsd_claimed_turns alsd_stub [0; 1] /\
  alsd_positions alsd_stub [0; 1] = [0; 1; 2]%Z /\
  (exists h, run alsd_stub (align_length_sync_decoding alsd_stub Plogaddexp [0; 1]) = Ok [h]
             /\ label_seq h = [0; 1; 1]) /\
  (exists h, run alsd_stub (alsd_loop alsd_stub Plogaddexp [0; 1] (range 2)) = Ok [h]
             /\ label_seq h = [0; 1]).
Proof.
  split; [ | split; [ | split]].
  - unfold alsd_claimed_turns. vm_compute. discriminate.
  - vm_compute. reflexivity.
  - eexists. split; vm_compute; reflexivity.
  - eexists. split; vm_compute; reflexivity.
Qed.

(** ** Maxima *)

Section MaxFacts.
Context {K A : Type}.
Variable lt : K -> K -> bool.
Variable key : A -> K.
Hypothesis order : StrictWeak lt.

Lemma lt_irrefl (a : K) : lt a a = false.
Proof.
  destruct (lt a a) eqn:E; [ | reflexivity].
  rewrite <- E. apply (lt_asym order). exact E.
Qed.

(** The running maximum ends at an element of the list that nothing in the
    list exceeds. *)
Lemma max_loop_spec : forall (l : list A) (cur : nat * A) (i : nat),
  let r := max_loop lt key cur i l in
  (r = cur \/ (i <= fst r /\ nth_error l (fst r - i) = Some (snd r))) /\
  lt (key (snd r)) (key (snd cur)) = false /\
  (forall y, In y l -> lt (key (snd r)) (key y) = false).
Proof.
  induction l as [ | x l IH]; intros cur i; simpl.
  - split; [left; reflexivity | split; [apply lt_irrefl | intros y []]].
  - set (cur' := if lt (key (snd cur)) (key x) then (i, x) else cur).
    destruct (IH cur' (S i)) as (Hpos & Hcur & Hall).
    set (r := max_loop lt key cur' (S i) l) in *.
    assert (Hc : lt (key (snd cur')) (key (snd cur)) = false).
    { unfold cur'. destruct (lt (key (snd cur)) (key x)) eqn:E; simpl.
      - apply (lt_asym order). exact E.
      - apply lt_irrefl. }
    assert (Hx : lt (key (snd cur')) (key x) = false).
    { unfold cur'. destruct (lt (key (snd cur)) (key x)) eqn:E; simpl.
      - apply lt_irrefl.
      - exact E. }
    split; [ | split].
    + destruct Hpos as [Hr | [Hle Hnth]].
      * rewrite Hr. unfold cur'. destruct (lt (key (snd cur)) (key x)).
        -- right. simpl. split; [lia | ]. replace (i - i) with 0 by lia. reflexivity.
        -- left. reflexivity.
      * right. split; [lia | ].
        replace (fst r - i) with (S (fst r - S i)) by lia. exact Hnth.
    + apply (lt_ntrans order) with (b := key (snd cur')); assumption.
    + intros y [<- | Hin].
      * apply (lt_ntrans order) with (b := key (snd cur')); assumption.
      * apply Hall. exact Hin.
Qed.

Lemma py_max_spec (l : list A) (i : nat) (x : A) :
  py_max lt key l = Some (i, x) ->
  nth_error l i = Some x /\ forall y, In y l -> lt (key x) (key y) = false.
Proof.
  destruct l as [ | a l]; simpl; [discriminate | ].
  intros H. injection H as H.
  destruct (max_loop_spec l (0, a) 1) as (Hpos & Hcur & Hall).
  rewrite H in *. simpl in *. split.
  - destruct Hpos as [Hr | [Hle Hnth]].
    + injection Hr as -> ->. reflexivity.
    + destruct i as [ | i]; [lia | ]. simpl.
      replace (S i - 1) with i in Hnth by lia. exact Hnth.
  - intros y [<- | Hin]; [exact Hcur | apply Hall; exact Hin].
Qed.

End MaxFacts.

(** ** Greedy search on frames where blank wins *)

Section GreedyFacts.
Variable N : Arith.
Variables Frame DecOut DecState Tokens LmState LmStates Cache : Type.
Variable self : BeamSearchTransducer N Frame DecOut DecState Tokens LmState LmStates Cache.

Lemma torch_max_highest (v : list (num N)) (b : nat) :
  StrictWeak (ltb N) -> highest_at N v b ->
  exists x, torch_max N v = Some (x, b).
Proof.
  intros order (x & Hx & Hdom). unfold torch_max.
  destruct (py_max (ltb N) (fun y => y) v) as [[i m] | ] eqn:E.
  - apply (@py_max_spec _ _ _ _ order) in E. destruct E as (Hi & Hall).
    destruct (Nat.eq_dec i b) as [-> | Hne].
    + exists m. reflexivity.
    + exfalso. pose proof (Hdom i m Hne Hi) as Hlt.
      rewrite (Hall x (nth_error_In _ _ Hx)) in Hlt. discriminate Hlt.
  - destruct v; [destruct b; discriminate Hx | discriminate E].
Qed.

Lemma greedy_step_blank (st : hypothesis N DecState LmState * DecOut * DecState)
  (enc_out_t : Frame) (c : Cache) :
  StrictWeak (ltb N) ->
  highest_at N (joint_logp self enc_out_t (snd (fst st))) (blank_id (decoder self)) ->
  greedy_step self st enc_out_t c = Ok (st, c).
Proof.
  intros order Hdom. destruct st as [[hyp d] state]. simpl in Hdom.
  destruct (torch_max_highest order Hdom) as (x & Hx).
  unfold greedy_step, bind. rewrite Hx. simpl.
  rewrite Nat.eqb_refl. reflexivity.
Qed.

(** C5 (as the code has it).  When on every frame the joint network puts
    the blank label strictly above all other labels, whatever the decoder
    output, greedy search returns the one hypothesis it started from: the
    label sequence is the blank alone and the score is still the initial
    0.0, since a frame on which blank wins adds nothing to the score. *)
Theorem greedy_all_blank (enc_out : list Frame) :
  StrictWeak (ltb N) ->
  (forall f d, In f enc_out -> highest_at N (joint_logp self f d) (blank_id (decoder self))) ->
  run self (greedy_search self enc_out)
  = Ok [@Hyp N DecState LmState (zero N) [blank_id (decoder self)]
             (init_state (decoder self) 1) None].
Proof.
  intros order Hdom. unfold run, greedy_search, bind, call.
  destruct (decoder_score _ _ _) as [[[d state] tok] c].
  assert (Hloop : forall l st c0,
             (forall f d0, In f l -> highest_at N (joint_logp self f d0) (blank_id (decoder self))) ->
             for_each (greedy_step self) l st c0 = Ok (st, c0)).
  { induction l as [ | f l IH]; intros st c0 Hl; simpl; [reflexivity | ].
    unfold bind. rewrite greedy_step_blank.
    - apply IH. intros f0 d0 Hin. apply Hl. right. exact Hin.
    - exact order.
    - apply Hl. left. reflexivity. }
  rewrite Hloop by exact Hdom. reflexivity.
Qed.

End GreedyFacts.

(** Order laws of the rational instances. *)
Lemma Qltb_true (a b : Q) : Qltb a b = true <-> Qlt a b.
Proof.
  unfold Qltb. rewrite Qlt_alt. destruct (Qcompare a b); split; intros H;
    try reflexivity; try discriminate H.
Qed.

Lemma Qltb_false (a b : Q) : Qltb a b = false <-> Qle b a.
Proof.
  split; intros H.
  - apply Qnot_lt_le. intros Hlt. apply Qltb_true in Hlt. congruence.
  - destruct (Qltb a b) eqn:E; [ | reflexivity].
    apply Qltb_true in E. exfalso. exact (Qlt_not_le _ _ E H).
Qed.

Lemma Qltb_order : StrictWeak Qltb.
Proof.
  constructor.
  - intros a b H. apply Qltb_true in H. apply Qltb_false. apply Qlt_le_weak. exact H.
  - intros a b c Hab Hbc. apply Qltb_false in Hab. apply Qltb_false in Hbc.
    apply Qltb_false. apply Qle_trans with (y := b); assumption.
Qed.

Lemma greedy_stub_blank_highest (f : nat) (d : list nat) :
  highest_at Qscore (joint_logp greedy_stub f d) 0.
Proof.
  destruct f as [ | f]; simpl; unfold scenario_logp.
  - exists (-1 # 10)%Q. split; [reflexivity | ].
    intros [ | [ | [ | j]]] y Hj Hy; simpl in Hy; try congruence;
      try (injection Hy as <-; reflexivity). destruct j; discriminate Hy.
  - exists (-2 # 10)%Q. split; [reflexivity | ].
    intros [ | [ | [ | j]]] y Hj Hy; simpl in Hy; try congruence;
      try (injection Hy as <-; reflexivity). destruct j; discriminate Hy.
Qed.

(** Greedy search on the two frames of the scenario. *)
Lemma greedy_all_blank_witness :
  run greedy_stub (greedy_search greedy_stub [0; 1]) = Ok [@Hyp Qscore unit unit 0%Q [0] tt None].
Proof.
  apply (greedy_all_blank greedy_stub [0; 1]).
  - exact Qltb_order.
  - intros f d _. apply greedy_stub_blank_highest.
Defined.

(** The spec as worded gives the result the sum of the blank
    log-probabilities of the frames, here -0.1 + -0.2; the search returns
    the score 0. *)
Lemma greedy_blank_score_not_sum :
  (forall f d, highest_at Qscore (joint_logp greedy_stub f d) 0) /\
  exists h,
    run greedy_stub (greedy_search greedy_stub [0; 1]) = Ok [h] /\
    label_seq h = [0] /\
    nth_error (joint_logp greedy_stub 0 [0]) 0 = Some (-1 # 10)%Q /\
    nth_error (joint_logp greedy_stub 1 [0]) 0 = Some (-2 # 10)%Q /\
    ~ Qeq (score h) ((-1 # 10) + (-2 # 10))%Q.
Proof.
  split; [exact greedy_stub_blank_highest | ].
  exists (@Hyp Qscore unit unit 0%Q [0] tt None).
  repeat split. simpl. intros H. discriminate H.
Qed.

(** ** Empty input *)

Section EmptyInput.
Variable N : Arith.
Variables Frame DecOut DecState Tokens LmState LmStates Cache : Type.
Variable self : BeamSearchTransducer N Frame DecOut DecState Tokens LmState LmStates Cache.
Variable logaddexp : num N -> num N -> num N.

Lemma slice_to_singleton {A : Type} (n : Z) (x : A) :
  (1 <= n)%Z -> slice_to n [x] = [x].
Proof.
  intros Hn. unfold slice_to.
  destruct (Z.leb_spec 0 n) as [_ | Hneg]; [ | lia].
  destruct (Z.to_nat n) as [ | k] eqn:E; [lia | ]. simpl.
  rewrite firstn_nil. reflexivity.
Qed.

Lemma sort_nbest_singleton {H : Type} (hyp_of : H -> hypothesis N DecState LmState) (x : H) :
  (1 <= nbest self)%Z -> sort_nbest self hyp_of [x] = [x].
Proof.
  intros Hn. unfold sort_nbest.
  destruct (score_norm self); simpl; apply slice_to_singleton; exact Hn.
Qed.

Lemma alsd_positions_nil : alsd_positions self (@nil Frame) = [].
Proof.
  unfold alsd_positions, alsd_u_max, range. simpl length.
  replace (Z.to_nat (Z.of_nat 0 + Z.min (u_max self) (Z.of_nat 0 - 1))) with 0 by lia.
  reflexivity.
Qed.

(** C7.  On an input without frames every search returns, without raising
    and whatever the fuel, a list made of the initial hypothesis: label
    sequence [blank_id], score 0.0.  The N-best selector keeps it as soon as
    [nbest >= 1]; the NSC search has scored it once, for which the batched
    oracles must return one row per hypothesis. *)
Theorem empty_input_initial_hypothesis (fuel : nat) :
  oracle_contract self -> (1 <= nbest self)%Z ->
  exists h,
    call_search self logaddexp fuel [] = Ok [h] /\
    label_seq h = [blank_id (decoder self)] /\
    score h = zero N.
Proof.
  intros [Hrows Hlm] Hn. unfold call_search, run, search_algorithm_of.
  destruct (search_algorithm self).
  - unfold greedy_search, bind, call.
    destruct (decoder_score _ _ _) as [[[d state] tok] c]. simpl.
    eexists. repeat split.
  - unfold default_beam_search, bind. simpl.
    rewrite sort_nbest_singleton by exact Hn.
    eexists. repeat split.
  - unfold time_sync_decoding, batched_init, bind. simpl.
    rewrite sort_nbest_singleton by exact Hn.
    eexists. repeat split.
  - unfold align_length_sync_decoding, alsd_loop, batched_init.
    rewrite alsd_positions_nil. unfold bind. simpl.
    eexists. repeat split.
  - unfold nsc_beam_search, nsc_init, bind, call.
    match goal with
    | |- context [batch_score ?d ?h ?s ?c ?b] =>
        pose proof (Hrows h s c b) as Hlen;
        destruct (batch_score d h s c b) as [[[outs st] tok] c1]
    end.
    simpl in Hlen. destruct outs as [ | d0 outs]; [discriminate Hlen | ].
    destruct (lm self) as [l | ] eqn:El.
    + pose proof (Hlm l eq_refl None tok 1) as Hl.
      destruct (buff_predict l None tok 1) as [lst lsc]. simpl in Hl.
      destruct lsc as [ | r lsc]; [discriminate Hl | ]. simpl.
      rewrite sort_nbest_singleton by exact Hn.
      eexists. repeat split.
    + simpl. rewrite sort_nbest_singleton by exact Hn.
      eexists. repeat split.
Qed.

End EmptyInput.

Lemma stub_oracle_contract (N : Arith) (w0 : weight N) vocab logp beam a sym_exp steps norm n_best :
  oracle_contract (stub_search N w0 vocab logp beam a sym_exp steps norm n_best).
Proof.
  split.
  - intros hyps st c b. simpl. apply length_map.
  - intros l H. discriminate H.
Qed.

(** The NSC stub on an input without frames. *)
Lemma empty_input_initial_hypothesis_witness :
  exists h,
    call_search nsc_stub Plogaddexp 0 [] = Ok [h] /\
    label_seq h = [0] /\
    score h = 1%Q.
Proof.
  apply (empty_input_initial_hypothesis (self := nsc_stub) Plogaddexp 0).
  - apply stub_oracle_contract.
  - vm_compute. discriminate.
Defined.

(** ** Lists and loops with indices *)

Lemma nth_error_combine_seq {A : Type} (l : list A) :
  forall (start i : nat) (x : A),
    nth_error l i = Some x ->
    nth_error (combine (seq start (length l)) l) i = Some (start + i, x).
Proof.
  induction l as [ | a l IH]; intros start i x H.
  - destruct i; discriminate H.
  - destruct i as [ | i]; simpl in *.
    + injection H as ->. rewrite Nat.add_0_r. reflexivity.
    + rewrite (IH (S start) i x H). f_equal. f_equal. lia.
Qed.

Lemma nth_error_enumerate {A : Type} (l : list A) (i : nat) (x : A) :
  nth_error l i = Some x -> nth_error (enumerate l) i = Some (i, x).
Proof. intros H. exact (nth_error_combine_seq l 0 i H). Qed.

Lemma Forall2_nth_error {A B : Type} (R : A -> B -> Prop) (l : list A) (r : list B) :
  Forall2 R l r ->
  forall i a b, nth_error l i = Some a -> nth_error r i = Some b -> R a b.
Proof.
  induction 1 as [ | x y l r Hxy _ IH]; intros i a b Ha Hb.
  - destruct i; discriminate Ha.
  - destruct i as [ | i]; simpl in *.
    + injection Ha as <-. injection Hb as <-. exact Hxy.
    + exact (IH i a b Ha Hb).
Qed.

Lemma enumerate_length {A : Type} (l : list A) : length (enumerate l) = length l.
Proof.
  unfold enumerate. rewrite length_combine, length_seq. apply Nat.min_id.
Qed.

(** ** The last round of an NSC frame *)

Section NscFinal.
Variable N : Arith.
Variables Frame DecOut DecState Tokens LmState LmStates Cache : Type.
Variable self : BeamSearchTransducer N Frame DecOut DecState Tokens LmState LmStates Cache.

Lemma nsc_refresh_keeps beam_state beam_dec_out lm_out i
  (v v' : nsc_hypothesis N DecOut DecState LmState) (c c' : Cache) :
  nsc_refresh self beam_state beam_dec_out lm_out (i, v) c = Ok (v', c') ->
  score v' = score v /\ label_seq v' = label_seq v.
Proof.
  unfold nsc_refresh. intros H. inv_bind H.
  destruct lm_out as [[[l st] sc] | ].
  - inv_bind H. apply ret_ok in H. destruct H as [-> _]. split; reflexivity.
  - apply ret_ok in H. destruct H as [-> _]. split; reflexivity.
Qed.

Lemma nsc_final_score beam_state beam_dec_out beam_logp lm_out i
  (v v' : nsc_hypothesis N DecOut DecState LmState) (c c' : Cache) :
  nsc_final self beam_state beam_dec_out beam_logp lm_out (i, v) c = Ok (v', c') ->
  label_seq v' = label_seq v /\
  (nstep self = 1%Z -> score v' = score v) /\
  (nstep self <> 1%Z ->
   exists row blank_logp,
     nth_error beam_logp i = Some row /\ nth_error row 0 = Some blank_logp /\
     score v' = add N (score v) blank_logp).
Proof.
  unfold nsc_final. intros H. inv_bind H.
  apply nsc_refresh_keeps in H. destruct H as [Hs Hl].
  destruct (Z.eqb_spec (nstep self) 1) as [E | E]; simpl in Hstep.
  - apply ret_ok in Hstep. destruct Hstep as [-> _].
    split; [exact Hl | split; [intros _; exact Hs | intros Hne; contradiction]].
  - apply bind_ok in Hstep. destruct Hstep as (b & s1 & Hat & Hret).
    unfold at2 in Hat. apply bind_ok in Hat. destruct Hat as (row & s2 & Hrow & Hb).
    apply or_raise_ok in Hrow. destruct Hrow as [Hrow ->].
    apply or_raise_ok in Hb. destruct Hb as [Hb ->].
    apply ret_ok in Hret. destruct Hret as [-> _].
    split; [exact Hl | split; [intros Heq; contradiction | intros _]].
    exists row, b. repeat split; try assumption.
Qed.


End NscFinal.


(** ** What one step of each search does *)

Section Steps.
Variable N : Arith.
Variables Frame DecOut DecState Tokens LmState LmStates Cache : Type.
Variable self : BeamSearchTransducer N Frame DecOut DecState Tokens LmState LmStates Cache.
Variable logaddexp : num N -> num N -> num N.

Lemma default_expand_inv e hyps kept c r c' :
  default_expand self e hyps kept c = Ok (r, c') ->
  exists i max_hyp d state tok blank_logp new_hyps j top,
    py_max (ltb N) (@score _ _ _) hyps = Some (i, max_hyp) /\
    decoder_score (decoder self) max_hyp c = (d, state, tok, c') /\
    item N (firstn 1 (joint_logp self e d)) = Some blank_logp /\
    Forall (fun h => dec_state h = state /\
                     exists k, label_seq h = label_seq max_hyp ++ [k + 1]) new_hyps /\
    py_max (ltb N) (@score _ _ _) (remove_at i hyps ++ new_hyps) = Some (j, top) /\
    let kept1 := kept ++ [default_blank_ext max_hyp blank_logp] in
    let most_prob := kept_most_prob kept1 (score top) in
    r = if (default_beam self <=? Z.of_nat (length most_prob))%Z
        then inr most_prob
        else inl (remove_at i hyps ++ new_hyps, kept1).
Proof.
  unfold default_expand. intros H.
  apply bind_ok in H. destruct H as ([i max_hyp] & s1 & Hmax & H).
  apply or_raise_ok in Hmax. destruct Hmax as [Hmax ->].
  apply bind_ok in H. destruct H as ([[d state] tok] & s2 & Hdec & H).
  apply call_ok in Hdec.
  apply bind_ok in H. destruct H as (top_k & s3 & Htop & H).
  apply or_raise_ok in Htop. destruct Htop as [Htop ->].
  apply bind_ok in H. destruct H as (blank_logp & s4 & Hb & H).
  apply or_raise_ok in Hb. destruct Hb as [Hb ->].
  destruct (match lm self with
            | Some l => let (s, sc) := predict l (lm_state max_hyp) tok in (Some s, sc)
            | None => (lm_state max_hyp, [])
            end) as [lm_state' lm_scores].
  apply bind_ok in H. destruct H as (new_hyps & s5 & Hnew & H).
  apply bind_ok in H. destruct H as ([j top] & s6 & Htop2 & H).
  apply or_raise_ok in Htop2. destruct Htop2 as [Htop2 ->].
  assert (Hs5 : s5 = s2 /\
                Forall (fun h => dec_state h = state /\
                          exists k, label_seq h = label_seq max_hyp ++ [k + 1]) new_hyps).
  { clear - Hnew. revert s2 new_hyps s5 Hnew.
    induction top_k as [ | [logp k] top_k IH]; intros s2 new_hyps s5 Hnew; simpl in Hnew.
    - apply ret_ok in Hnew. destruct Hnew as [-> ->]. split; [reflexivity | constructor].
    - apply bind_ok in Hnew. destruct Hnew as (h & s & Hh & Hnew).
      apply bind_ok in Hnew. destruct Hnew as (hs & s' & Hhs & Hnew).
      apply ret_ok in Hnew. destruct Hnew as [-> ->].
      apply bind_ok in Hh. destruct Hh as (sc & s0 & Hsc & Hh).
      apply ret_ok in Hh. destruct Hh as [-> ->].
      assert (s0 = s2).
      { unfold add_lm_score in Hsc. destruct (use_lm self).
        - apply bind_ok in Hsc. destruct Hsc as (x & sx & Hx & Hsc).
          apply or_raise_ok in Hx. destruct Hx as [_ ->].
          apply ret_ok in Hsc. destruct Hsc as [_ ->]. reflexivity.
        - apply ret_ok in Hsc. destruct Hsc as [_ ->]. reflexivity. }
      subst s0. destruct (IH _ _ _ Hhs) as [-> Hall].
      split; [reflexivity | ]. constructor; [ | exact Hall].
      simpl. split; [reflexivity | exists k; reflexivity]. }
  destruct Hs5 as [-> Hall].
  exists i, max_hyp, d, state, tok, blank_logp, new_hyps, j, top.
  cbv zeta.
  destruct (default_beam self <=? _)%Z; apply ret_ok in H; destruct H as [-> ->];
    repeat split; assumption.
Qed.

Lemma update_at_map {A B} (g : A -> B) (f : A -> A) :
  (forall a, g (f a) = g a) -> forall i l, map g (update_at i f l) = map g l.
Proof.
  intros Hg i l. revert i. induction l as [ | x l IH]; intros [ | i]; simpl; try reflexivity.
  - rewrite Hg. reflexivity.
  - rewrite IH. reflexivity.
Qed.

Lemma tsd_merge_blank_inv seq_A beam_logp (A A' : list (hypothesis N DecState LmState)) i hyp
  (c c' : Cache) :
  tsd_merge_blank (Cache := Cache) logaddexp seq_A beam_logp A (i, hyp) c = Ok (A', c') ->
  c' = c /\
  exists blank_logp,
    at2 N beam_logp i 0 c = Ok (blank_logp, c) /\
    match seq_index seq_A (label_seq hyp) with
    | None => A' = A ++ [tsd_blank_ext hyp blank_logp]
    | Some dict_pos =>
        A' = update_at dict_pos
               (fun a => set_score a (logaddexp (score a) (add N (score hyp) blank_logp))) A
    end.
Proof.
  unfold tsd_merge_blank. intros H.
  assert (Hat : forall b s, at2 N beam_logp i 0 c = Ok (b, s) -> s = c).
  { unfold at2. intros b s Hb. apply bind_ok in Hb. destruct Hb as (r & s1 & Hr & Hb).
    apply or_raise_ok in Hr. destruct Hr as [_ ->].
    apply or_raise_ok in Hb. destruct Hb as [_ ->]. reflexivity. }
  destruct (seq_index seq_A (label_seq hyp)) as [pos | ].
  - apply bind_ok in H. destruct H as (b & s & Hb & H).
    pose proof (Hat _ _ Hb) as ->. apply ret_ok in H. destruct H as [-> ->].
    split; [reflexivity | ]. exists b. split; [exact Hb | reflexivity].
  - apply bind_ok in H. destruct H as (b & s & Hb & H).
    pose proof (Hat _ _ Hb) as ->. apply ret_ok in H. destruct H as [-> ->].
    split; [reflexivity | ]. exists b. split; [exact Hb | reflexivity].
Qed.

Lemma expand_hyp_inv beam_state beam_topk lm_out i hyp (c c' : Cache) new_hyps :
  expand_hyp self beam_state beam_topk lm_out (i, hyp) c = Ok (new_hyps, c') ->
  c' = c /\
  exists top,
    nth_error beam_topk i = Some top /\
    Forall2 (fun lk h =>
               label_seq h = label_seq hyp ++ [snd lk + 1] /\
               dec_state h = select_state (decoder self) beam_state i)
            top new_hyps.
Proof.
  unfold expand_hyp. intros H.
  apply bind_ok in H. destruct H as (top & s & Htop & H).
  apply or_raise_ok in Htop. destruct Htop as [Htop ->].
  assert (c' = c /\ Forall2 (fun lk h =>
               label_seq h = label_seq hyp ++ [snd lk + 1] /\
               dec_state h = select_state (decoder self) beam_state i)
            top new_hyps).
  { clear Htop. revert new_hyps c c' H.
    induction top as [ | [logp k] top IH]; intros new_hyps c c' H; simpl in H.
    - apply ret_ok in H. destruct H as [-> ->]. split; [reflexivity | constructor].
    - apply bind_ok in H. destruct H as (h & s & Hh & H).
      apply bind_ok in H. destruct H as (hs & s' & Hhs & H).
      apply ret_ok in H. destruct H as [-> ->].
      destruct (IH _ _ _ Hhs) as [-> Hall].
      assert (s = c /\ label_seq h = label_seq hyp ++ [k + 1] /\
              dec_state h = select_state (decoder self) beam_state i) as (-> & Hl & Hd).
      { destruct lm_out as [[[l st] sc] | ].
        - apply bind_ok in Hh. destruct Hh as (x & sx & Hx & Hh).
          unfold at2 in Hx. apply bind_ok in Hx. destruct Hx as (r & s1 & Hr & Hx).
          apply or_raise_ok in Hr. destruct Hr as [_ ->].
          apply or_raise_ok in Hx. destruct Hx as [_ ->].
          apply ret_ok in Hh. destruct Hh as [-> ->]. repeat split.
        - apply ret_ok in Hh. destruct Hh as [-> ->]. repeat split. }
      split; [reflexivity | ]. constructor; [ | exact Hall]. split; assumption. }
  destruct H0 as [-> Hall]. split; [reflexivity | ]. exists top. split; assumption.
Qed.

Lemma alsd_extend_inv t_max beam_state beam_logp beam_topk lm_out B_enc_out A final i hyp
  (c c' : Cache) A' final' :
  alsd_extend self t_max beam_state beam_logp beam_topk lm_out B_enc_out (A, final) (i, hyp) c
  = Ok (A', final', c') ->
  c' = c /\
  exists blank_logp te new_hyps,
    at2 N beam_logp i 0 c = Ok (blank_logp, c) /\
    nth_error B_enc_out i = Some te /\
    expand_hyp self beam_state beam_topk lm_out (i, hyp) c = Ok (new_hyps, c) /\
    A' = (A ++ [alsd_blank_ext hyp blank_logp]) ++ new_hyps /\
    final' = if (fst te =? t_max - 1)%Z then final ++ [alsd_blank_ext hyp blank_logp] else final.
Proof.
  unfold alsd_extend. intros H.
  apply bind_ok in H. destruct H as (b & s & Hb & H).
  assert (s = c) as ->.
  { unfold at2 in Hb. apply bind_ok in Hb. destruct Hb as (r & s1 & Hr & Hb).
    apply or_raise_ok in Hr. destruct Hr as [_ ->].
    apply or_raise_ok in Hb. destruct Hb as [_ ->]. reflexivity. }
  apply bind_ok in H. destruct H as (te & s & Hte & H).
  apply or_raise_ok in Hte. destruct Hte as [Hte ->].
  apply bind_ok in H. destruct H as (new_hyps & s & Hnew & H).
  pose proof Hnew as Hn. apply expand_hyp_inv in Hn. destruct Hn as [-> _].
  apply ret_ok in H. destruct H as [H ->]. injection H as -> ->.
  split; [reflexivity | ]. exists b, te, new_hyps. repeat split; assumption.
Qed.

Lemma nsc_expand_hyp_inv beam_logp beam_topk S_ V i
  (hyp : nsc_hypothesis N DecOut DecState LmState) (c c' : Cache) S' V' :
  nsc_expand_hyp self beam_logp beam_topk (S_, V) (i, hyp) c = Ok (S', V', c') ->
  c' = c /\
  exists blank_logp new_hyps,
    S' = S_ ++ [nsc_blank_ext hyp blank_logp] /\
    V' = V ++ new_hyps /\
    Forall (fun v : nsc_hypothesis N DecOut DecState LmState =>
              dec_state v = dec_state hyp /\ lm_state v = lm_state hyp /\
              exists k, label_seq v = label_seq hyp ++ [k + 1]) new_hyps.
Proof.
  unfold nsc_expand_hyp. intros H.
  apply bind_ok in H. destruct H as (r & s & Hr & H).
  apply or_raise_ok in Hr. destruct Hr as [Hr ->].
  apply bind_ok in H. destruct H as (b & s & Hb & H).
  apply or_raise_ok in Hb. destruct Hb as [Hb ->].
  apply bind_ok in H. destruct H as (top & s & Htop & H).
  apply or_raise_ok in Htop. destruct Htop as [Htop ->].
  apply bind_ok in H. destruct H as (new_hyps & s & Hnew & H).
  apply ret_ok in H. destruct H as [H ->]. injection H as -> ->.
  assert (s = c /\ Forall (fun v : nsc_hypothesis N DecOut DecState LmState =>
              dec_state v = dec_state hyp /\ lm_state v = lm_state hyp /\
              exists k, label_seq v = label_seq hyp ++ [k + 1]) new_hyps) as [-> Hall].
  { clear Htop. revert new_hyps c s Hnew.
    induction top as [ | [logp k] top IH]; intros new_hyps c s H; simpl in H.
    - apply ret_ok in H. destruct H as [-> ->]. split; [reflexivity | constructor].
    - apply bind_ok in H. destruct H as (h & s1 & Hh & H).
      apply bind_ok in H. destruct H as (hs & s' & Hhs & H).
      apply ret_ok in H. destruct H as [-> ->].
      destruct (IH _ _ _ Hhs) as [-> Hall].
      apply bind_ok in Hh. destruct Hh as (sc & s2 & Hsc & Hh).
      apply ret_ok in Hh. destruct Hh as [-> ->].
      assert (s2 = c) as ->.
      { destruct (use_lm self).
        - apply bind_ok in Hsc. destruct Hsc as (x & sx & Hx & Hsc).
          apply or_raise_ok in Hx. destruct Hx as [_ ->].
          apply bind_ok in Hsc. destruct Hsc as (y & sy & Hy & Hsc).
          apply or_raise_ok in Hy. destruct Hy as [_ ->].
          apply ret_ok in Hsc. destruct Hsc as [_ ->]. reflexivity.
        - apply ret_ok in Hsc. destruct Hsc as [_ ->]. reflexivity. }
      split; [reflexivity | ]. constructor; [ | exact Hall].
      simpl. repeat split. exists k. reflexivity. }
  split; [reflexivity | ]. exists b, new_hyps. repeat split. exact Hall.
Qed.
End Steps.

(** ** Sorting *)

Section SortFacts.
Context {A : Type}.
Variable past : A -> A -> bool.

Lemma insert_by_perm (x : A) (l : list A) : Permutation (insert_by past x l) (x :: l).
Proof.
  induction l as [ | y l IH]; simpl.
  - apply Permutation_refl.
  - destruct (past x y).
    + apply perm_trans with (l' := y :: x :: l).
      * apply perm_skip. exact IH.
      * apply perm_swap.
    + apply Permutation_refl.
Qed.

Lemma sort_by_perm (l : list A) : Permutation (sort_by past l) l.
Proof.
  induction l as [ | x l IH]; simpl.
  - apply perm_nil.
  - apply perm_trans with (l' := x :: sort_by past l).
    + apply insert_by_perm.
    + apply perm_skip. exact IH.
Qed.

Lemma sort_by_length (l : list A) : length (sort_by past l) = length l.
Proof. apply Permutation_length. apply sort_by_perm. Qed.

Lemma sort_by_In (l : list A) (x : A) : In x (sort_by past l) <-> In x l.
Proof.
  split; apply Permutation_in.
  - apply sort_by_perm.
  - apply Permutation_sym. apply sort_by_perm.
Qed.

End SortFacts.

Section SortedFacts.
Context {K A : Type}.
Variable lt : K -> K -> bool.
Variable key : A -> K.
Hypothesis order : StrictWeak lt.

Lemma insert_desc_sorted (x : A) (l : list A) :
  StronglySorted (not_below lt key) l ->
  StronglySorted (not_below lt key) (insert_by (fun a b => lt (key a) (key b)) x l).
Proof.
  induction 1 as [ | y l Hs IH Hy]; simpl.
  - constructor; constructor.
  - destruct (lt (key x) (key y)) eqn:E.
    + constructor; [exact IH | ].
      apply Forall_forall. intros z Hz.
      apply (Permutation_in _ (insert_by_perm _ x l)) in Hz.
      destruct Hz as [<- | Hz].
      * unfold not_below. apply (lt_asym order). exact E.
      * rewrite Forall_forall in Hy. apply Hy. exact Hz.
    + constructor; [constructor; assumption | ].
      constructor; [exact E | ].
      apply Forall_forall. intros z Hz. rewrite Forall_forall in Hy.
      unfold not_below. apply (lt_ntrans order) with (b := key y); [exact E | ].
      apply Hy. exact Hz.
Qed.

Lemma sorted_desc_sorted (l : list A) : StronglySorted (not_below lt key) (sorted_desc lt key l).
Proof.
  unfold sorted_desc, sort_by. induction l as [ | x l IH]; simpl.
  - constructor.
  - apply insert_desc_sorted. exact IH.
Qed.

Lemma firstn_sorted (R : A -> A -> Prop) (n : nat) (l : list A) :
  StronglySorted R l -> StronglySorted R (firstn n l).
Proof.
  intros H. revert n. induction H as [ | x l Hs IH Hx]; intros [ | n]; simpl;
    try constructor.
  - apply IH.
  - apply Forall_forall. intros z Hz. rewrite Forall_forall in Hx.
    apply Hx. revert Hz. clear. revert n.
    induction l as [ | y l IH]; intros [ | n] Hz; simpl in *; try contradiction.
    destruct Hz as [-> | Hz]; [left; reflexivity | right; exact (IH n Hz)].
Qed.

Lemma slice_to_sorted (R : A -> A -> Prop) (n : Z) (l : list A) :
  StronglySorted R l -> StronglySorted R (slice_to n l).
Proof. intros H. unfold slice_to. destruct (0 <=? n)%Z; apply firstn_sorted; exact H. Qed.

End SortedFacts.

Lemma slice_to_length {A : Type} (n : Z) (l : list A) :
  (0 <= n)%Z -> length (slice_to n l) <= Z.to_nat n.
Proof.
  intros Hn. unfold slice_to. destruct (Z.leb_spec 0 n) as [_ | Hneg]; [ | lia].
  rewrite length_firstn. apply Nat.le_min_l.
Qed.

(** ** The N-best selector *)

Section NbestFacts.
Variable N : Arith.
Variables Frame DecOut DecState Tokens LmState LmStates Cache : Type.
Variable self : BeamSearchTransducer N Frame DecOut DecState Tokens LmState LmStates Cache.

(** [sort_nbest] returns at most [nbest] hypotheses, none of which has a
    smaller (normalised) score than a later one. *)
Lemma sort_nbest_ordered {H : Type} (hyp_of : H -> hypothesis N DecState LmState) (hyps : list H) :
  StrictWeak (ltb N) -> StrictWeak (key_ltb N) -> (0 <= nbest self)%Z ->
  length (sort_nbest self hyp_of hyps) <= Z.to_nat (nbest self) /\
  StronglySorted (fun x y => nbest_order self (hyp_of x) (hyp_of y)) (sort_nbest self hyp_of hyps).
Proof.
  intros Hs Hk Hn. unfold sort_nbest, nbest_order. split.
  - apply slice_to_length. exact Hn.
  - destruct (score_norm self); apply slice_to_sorted.
    + exact (sorted_desc_sorted (fun x => norm_score (hyp_of x)) Hk hyps).
    + exact (sorted_desc_sorted (fun x => score (hyp_of x)) Hs hyps).
Qed.

End NbestFacts.

(** ** The exit of the expansion loop of the default search *)

Section DefaultExit.
Variable N : Arith.
Variables Frame DecOut DecState Tokens LmState LmStates Cache : Type.
Variable self : BeamSearchTransducer N Frame DecOut DecState Tokens LmState LmStates Cache.

Lemma default_candidates_inv (max_hyp : hypothesis N DecState LmState) (state : DecState)
  (lms : option LmState * list (num N)) :
  forall (top_k : list (num N * nat)) (c c' : Cache) new_hyps,
    map_m (fun '(logp, k) =>
             score <- add_lm_score self (add N (score max_hyp) logp) (snd lms) (k + 1) ;;
             ret (Hyp N score (label_seq max_hyp ++ [k + 1]) state (fst lms)))
          top_k c = Ok (new_hyps, c') ->
    c' = c /\ Forall2 (default_candidate self max_hyp state lms) top_k new_hyps.
Proof.
  induction top_k as [ | [logp k] top_k IH]; intros c c' new_hyps H; cbn [map_m] in H.
  - apply ret_ok in H. destruct H as [-> ->]. split; [reflexivity | constructor].
  - apply bind_ok in H. destruct H as (h & s & Hh & H).
    apply bind_ok in H. destruct H as (hs & s' & Hhs & H).
    apply ret_ok in H. destruct H as [-> ->].
    apply bind_ok in Hh. destruct Hh as (sc & s0 & Hsc & Hh).
    apply ret_ok in Hh. destruct Hh as [-> ->].
    assert (Hcand : s0 = c /\
                    default_candidate self max_hyp state lms (logp, k)
                      (Hyp N sc (label_seq max_hyp ++ [k + 1]) state (fst lms))).
    { unfold default_candidate, add_lm_score in *. cbn [fst snd label_seq dec_state lm_state score].
      destruct (use_lm self).
      - apply bind_ok in Hsc. destruct Hsc as (x & sx & Hx & Hsc).
        apply or_raise_ok in Hx. destruct Hx as [Hx ->].
        apply ret_ok in Hsc. destruct Hsc as [-> ->].
        split; [reflexivity | ]. repeat split. exists x. split; [exact Hx | reflexivity].
      - apply ret_ok in Hsc. destruct Hsc as [-> ->]. repeat split. }
    destruct Hcand as [-> Hcand]. destruct (IH _ _ _ Hhs) as [-> Hall].
    split; [reflexivity | constructor; assumption].
Qed.

Lemma default_candidates_run (max_hyp : hypothesis N DecState LmState) (state : DecState)
  (lms : option LmState * list (num N)) (c : Cache) :
  forall (top_k : list (num N * nat)) new_hyps,
    Forall2 (default_candidate self max_hyp state lms) top_k new_hyps ->
    map_m (fun '(logp, k) =>
             score <- add_lm_score self (add N (score max_hyp) logp) (snd lms) (k + 1) ;;
             ret (Hyp N score (label_seq max_hyp ++ [k + 1]) state (fst lms)))
          top_k c = Ok (new_hyps, c).
Proof.
  induction 1 as [ | [logp k] h top_k new_hyps Hcand _ IH]; cbn [map_m]; [reflexivity | ].
  assert (Hh : (score <- add_lm_score self (add N (score max_hyp) logp) (snd lms) (k + 1) ;;
                ret (Hyp N score (label_seq max_hyp ++ [k + 1]) state (fst lms))) c
               = Ok (h, c)).
  { destruct h as [s ls ds lmst]. unfold default_candidate in Hcand.
    cbn [fst snd label_seq dec_state lm_state score] in Hcand.
    destruct Hcand as (-> & -> & -> & Hs). unfold add_lm_score.
    destruct (use_lm self).
    - destruct Hs as (x & Hx & ->). rewrite Hx. reflexivity.
    - rewrite Hs. reflexivity. }
  bind_with Hh. bind_with IH. reflexivity.
Qed.

(** A turn returns [r] exactly when the rule holds of [r]. *)
Lemma default_expand_turn e hyps kept (c : Cache) r :
  (exists c', default_expand self e hyps kept c = Ok (r, c')) <->
  default_exit_rule self e hyps kept c r.
Proof.
  split.
  - intros (c' & H). unfold default_expand in H.
    apply bind_ok in H. destruct H as ([i max_hyp] & s1 & Hmax & H).
    apply or_raise_ok in Hmax. destruct Hmax as [Hmax ->].
    apply bind_ok in H. destruct H as ([[d state] tok] & s2 & Hdec & H).
    apply call_ok in Hdec.
    apply bind_ok in H. destruct H as (top_k & s3 & Htop & H).
    apply or_raise_ok in Htop. destruct Htop as [Htop ->].
    apply bind_ok in H. destruct H as (blank_logp & s4 & Hb & H).
    apply or_raise_ok in Hb. destruct Hb as [Hb ->].
    change (match lm self with
            | Some l => let (s, sc) := predict l (lm_state max_hyp) tok in (Some s, sc)
            | None => (lm_state max_hyp, [])
            end) with (default_lm_step self max_hyp tok) in H.
    assert (Hsplit : default_lm_step self max_hyp tok
                     = (fst (default_lm_step self max_hyp tok), snd (default_lm_step self max_hyp tok)))
      by (destruct (default_lm_step self max_hyp tok); reflexivity).
    rewrite Hsplit in H.
    apply bind_ok in H. destruct H as (new_hyps & s5 & Hnew & H).
    apply default_candidates_inv in Hnew. destruct Hnew as [-> Hnew].
    apply bind_ok in H. destruct H as ([j top] & s6 & Htop2 & H).
    apply or_raise_ok in Htop2. destruct Htop2 as [Htop2 ->].
    exists i, max_hyp, d, state, tok, s2, blank_logp, top_k, new_hyps, j, top.
    split; [exact Hmax | split; [exact Hdec | split; [exact Hb | split; [exact Htop | ]]]].
    split; [exact Hnew | ]. cbv zeta. split; [exact Htop2 | ]. split; [ | split].
    + intros h. unfold kept_most_prob, sorted_asc. rewrite sort_by_In.
      rewrite filter_In. reflexivity.
    + unfold kept_most_prob, sorted_asc. apply sort_by_length.
    + destruct (Z.leb_spec (default_beam self)
                  (Z.of_nat (length (kept_most_prob
                                       (kept ++ [default_blank_ext max_hyp blank_logp])
                                       (score top))))) as [Hle | Hlt];
        apply ret_ok in H; destruct H as [-> _]; [left | right]; split; auto.
  - intros (i & max_hyp & d & state & tok & c' & blank_logp & top_k & new_hyps & j & top
            & Hmax & Hdec & Hb & Htop & Hnew & Hrest).
    cbv zeta in Hrest. destruct Hrest as (Htop2 & _ & _ & Hcase).
    exists c'. unfold default_expand.
    rewrite Hmax. cbn [or_raise]. rewrite bind_ret_intro.
    assert (Ecall : call (decoder_score (decoder self) max_hyp) c = Ok ((d, state, tok), c'))
      by (unfold call; rewrite Hdec; reflexivity).
    bind_with Ecall. rewrite Htop. cbn [or_raise]. rewrite bind_ret_intro.
    rewrite Hb. cbn [or_raise]. rewrite bind_ret_intro.
    change (match lm self with
            | Some l => let (s, sc) := predict l (lm_state max_hyp) tok in (Some s, sc)
            | None => (lm_state max_hyp, [])
            end) with (default_lm_step self max_hyp tok).
    destruct (default_lm_step self max_hyp tok) as [lm_state' lm_scores0].
    pose proof (default_candidates_run c' Hnew) as Hrun. cbn [fst snd] in Hrun.
    bind_with Hrun.
    rewrite Htop2. cbn [or_raise]. rewrite bind_ret_intro.
    destruct Hcase as [[Hle ->] | [Hlt ->]].
    + destruct (Z.leb_spec (default_beam self)
                  (Z.of_nat (length (kept_most_prob
                                       (kept ++ [default_blank_ext max_hyp blank_logp])
                                       (score top))))) as [_ | Hlt]; [reflexivity | lia].
    + destruct (Z.leb_spec (default_beam self)
                  (Z.of_nat (length (kept_most_prob
                                       (kept ++ [default_blank_ext max_hyp blank_logp])
                                       (score top))))) as [Hle | _]; [lia | reflexivity].
Qed.

(** C4 (as the code has it).  A turn of the expansion loop returns [r]
    exactly when [default_exit_rule] holds of [r]: it pops the best
    hypothesis of the frontier, keeps its blank extension, puts its top-k
    candidates on the frontier, and breaks exactly when the kept hypotheses
    whose score exceeds the best score of that frontier are at least
    [beam = min(beam_size, vocab_size)]; the new kept set is then the whole
    of these hypotheses: what a frame that ends leaves is the kept set of
    the turn that broke, at least [beam] hypotheses (they are not cut down
    to [beam]). *)
Theorem default_loop_exit :
  (forall e hyps kept (c : Cache) r,
      (exists c', default_expand self e hyps kept c = Ok (r, c')) <->
      default_exit_rule self e hyps kept c r) /\
  (forall fuel e hyps kept (c c' : Cache) kept',
      default_frame self fuel e hyps kept c = Ok (kept', c') ->
      (default_beam self <= Z.of_nat (length kept'))%Z /\
      exists hyps0 kept0 c0, default_exit_rule self e hyps0 kept0 c0 (inr kept')).
Proof.
  split; [exact default_expand_turn | ].
  induction fuel as [ | fuel IH]; intros e hyps kept c c' kept' H; simpl in H.
  - discriminate H.
  - apply bind_ok in H. destruct H as (r & s & Hr & H).
    assert (Hrule : default_exit_rule self e hyps kept c r).
    { apply default_expand_turn. exists s. exact Hr. }
    pose proof Hrule as Hturn.
    destruct Hrule as (i & max_hyp & d & state & tok & c1 & blank_logp & top_k & new_hyps
                       & j & top & _ & _ & _ & _ & _ & Hrest).
    cbv zeta in Hrest. destruct Hrest as (_ & _ & _ & Hcase).
    destruct Hcase as [[Hle Heq] | [Hlt Heq]]; rewrite Heq in H.
    + apply ret_ok in H. destruct H as [-> _]. split; [exact Hle | ].
      exists hyps, kept, c. rewrite <- Heq. exact Hturn.
    + apply IH in H. exact H.
Qed.

End DefaultExit.

(** The frame of the wide stub ends on its third turn. *)
Lemma wide_frame_run :
  default_frame wide_stub 3 0 [default_init wide_stub] [] tt = Ok (wide_kept, tt).
Proof. vm_compute. reflexivity. Qed.

(** The first turn of the wide stub goes on with no kept hypothesis above
    the frontier; its frame ends with three. *)
Lemma default_loop_exit_witness :
  default_exit_rule wide_stub 0 [default_init wide_stub] [] tt
    (inl ([@Hyp Pscore unit unit (Qmult 1 (45 # 100)) [0; 1] tt None;
           @Hyp Pscore unit unit (Qmult 1 (43 # 100)) [0; 2] tt None],
          [@Hyp Pscore unit unit (Qmult 1 (6 # 100)) [0] tt None])) /\
  (default_beam wide_stub <= Z.of_nat (length wide_kept))%Z.
Proof.
  destruct (default_loop_exit wide_stub) as [Hturn Hframe]. split.
  - apply Hturn. exists tt. reflexivity.
  - exact (proj1 (Hframe 3 0 [default_init wide_stub] [] tt tt wide_kept wide_frame_run)).
Defined.

(** The spec as worded has the new kept set cut to [beam]: here the beam
    is 2 and the frame ends, on its third turn, with three kept hypotheses
    (none exceeded the frontier before, all three do then). *)
Lemma default_kept_exceeds_beam :
  default_beam wide_stub = 2%Z /\
  exists kept,
    default_frame wide_stub 3 0 [default_init wide_stub] [] tt = Ok (kept, tt) /\
    map (fun h : hypothesis Pscore unit unit => label_seq h) kept = [[0]; [0; 2]; [0; 1]] /\
    ~ (Z.of_nat (length kept) <= default_beam wide_stub)%Z.
Proof.
  split; [reflexivity | ]. exists wide_kept.
  split; [exact wide_frame_run | split; [reflexivity | ]].
  vm_compute. intros H. apply H. reflexivity.
Qed.

(** ** Blank extensions keep the state handles *)

Section StateHandles.
Variable N : Arith.
Variables Frame DecOut DecState Tokens LmState LmStates Cache : Type.
Variable self : BeamSearchTransducer N Frame DecOut DecState Tokens LmState LmStates Cache.
Variable logaddexp : num N -> num N -> num N.

Lemma greedy_step_effect st e (c c' : Cache) st' :
  greedy_step self st e c = Ok (st', c') -> greedy_effect self st st'.
Proof.
  destruct st as [[hyp d] state]. unfold greedy_step. intros H.
  apply bind_ok in H. destruct H as ([top_logp pred] & s & _ & H).
  destruct (Nat.eqb_spec pred (blank_id (decoder self))) as [E | E]; simpl in H.
  - apply ret_ok in H. destruct H as [-> _]. left. reflexivity.
  - apply bind_ok in H. destruct H as ([[d' state'] tok] & s' & _ & H).
    apply ret_ok in H. destruct H as [-> _]. right. exists pred. repeat split. exact E.
Qed.

Lemma default_expand_effect e hyps kept (c c' : Cache) r :
  default_expand self e hyps kept c = Ok (r, c') -> default_effect self hyps kept c r.
Proof.
  intros H. apply default_expand_inv in H.
  destruct H as (i & max_hyp & d & state & tok & blank_logp & new_hyps & j & top
                 & Hmax & Hdec & _ & Hnew & _ & Hr).
  exists i, max_hyp, (default_blank_ext max_hyp blank_logp), new_hyps.
  split; [exact Hmax | split; [repeat split | split]].
  - rewrite Hdec. simpl. eapply Forall_impl; [ | exact Hnew].
    intros h [Hh _]. exact Hh.
  - cbv zeta in Hr. destruct (default_beam self <=? _)%Z; subst r.
    + eexists. reflexivity.
    + split; reflexivity.
Qed.

Lemma tsd_merge_blank_effect seq_A beam_logp (A A' : list (hypothesis N DecState LmState))
  i hyp (c c' : Cache) :
  tsd_merge_blank logaddexp seq_A beam_logp A (i, hyp) c = Ok (A', c') ->
  tsd_effect A hyp A'.
Proof.
  intros H. apply tsd_merge_blank_inv in H. destruct H as (_ & b & _ & H).
  destruct (seq_index seq_A (label_seq hyp)) as [pos | ]; subst A'.
  - right. repeat split; apply update_at_map; reflexivity.
  - left. exists (tsd_blank_ext hyp b). repeat split.
Qed.

Lemma alsd_extend_effect t_max beam_state beam_logp beam_topk lm_out B_enc_out A final i hyp
  (c c' : Cache) A' final' :
  alsd_extend self t_max beam_state beam_logp beam_topk lm_out B_enc_out (A, final) (i, hyp) c
  = Ok (A', final', c') ->
  alsd_effect self beam_state i A final hyp A' final'.
Proof.
  intros H. apply alsd_extend_inv in H.
  destruct H as (_ & b & te & new_hyps & _ & _ & Hnew & -> & ->).
  exists (alsd_blank_ext hyp b), new_hyps.
  split; [repeat split | split; [reflexivity | split]].
  - destruct (fst te =? t_max - 1)%Z; [right | left]; reflexivity.
  - apply expand_hyp_inv in Hnew. destruct Hnew as (_ & top & _ & Hall).
    clear - Hall. induction Hall as [ | lk h top new_hyps [_ Hh] _ IH]; constructor; assumption.
Qed.

Lemma nsc_expand_hyp_effect beam_logp beam_topk S_ V i
  (hyp : nsc_hypothesis N DecOut DecState LmState) (c c' : Cache) S' V' :
  nsc_expand_hyp self beam_logp beam_topk (S_, V) (i, hyp) c = Ok (S', V', c') ->
  nsc_effect S_ V hyp S' V'.
Proof.
  intros H. apply nsc_expand_hyp_inv in H.
  destruct H as (_ & b & new_hyps & -> & -> & _).
  exists (nsc_blank_ext hyp b), new_hyps. repeat split.
Qed.

(** C10.  In each search the step that extends a hypothesis by blank makes
    a candidate with the label sequence, the decoder state handle and the LM
    state handle of its parent (greedy search, which has no candidates,
    leaves its hypothesis untouched on blank; the TSD merge changes a score
    only).  New decoder states go to the non-blank extensions: at once in
    greedy, default, TSD and ALSD, while NSC gives its non-blank candidates
    the handles of the parent as well and refreshes the survivors later. *)
Theorem blank_extension_keeps_states :
  (forall st e (c c' : Cache) st',
      greedy_step self st e c = Ok (st', c') -> greedy_effect self st st') /\
  (forall e hyps kept (c c' : Cache) r,
      default_expand self e hyps kept c = Ok (r, c') -> default_effect self hyps kept c r) /\
  (forall seq_A beam_logp (A A' : list (hypothesis N DecState LmState)) i hyp (c c' : Cache),
      tsd_merge_blank logaddexp seq_A beam_logp A (i, hyp) c = Ok (A', c') ->
      tsd_effect A hyp A') /\
  (forall t_max beam_state beam_logp beam_topk lm_out B_enc_out A final i hyp
          (c c' : Cache) A' final',
      alsd_extend self t_max beam_state beam_logp beam_topk lm_out B_enc_out
                  (A, final) (i, hyp) c = Ok (A', final', c') ->
      alsd_effect self beam_state i A final hyp A' final') /\
  (forall beam_logp beam_topk S_ V i (hyp : nsc_hypothesis N DecOut DecState LmState)
          (c c' : Cache) S' V',
      nsc_expand_hyp self beam_logp beam_topk (S_, V) (i, hyp) c = Ok (S', V', c') ->
      nsc_effect S_ V hyp S' V').
Proof.
  split; [exact greedy_step_effect | ].
  split; [exact default_expand_effect | ].
  split; [exact tsd_merge_blank_effect | ].
  split; [exact alsd_extend_effect | exact nsc_expand_hyp_effect].
Qed.

End StateHandles.

(** One step of each search on the stubs. *)
Lemma blank_extension_keeps_states_witness :
  (exists st',
      greedy_step greedy_stub (@Hyp Qscore unit unit 0%Q [0] tt None, [0], tt) 0 tt = Ok (st', tt) /\
      greedy_effect greedy_stub (@Hyp Qscore unit unit 0%Q [0] tt None, [0], tt) st') /\
  (exists r,
      default_expand wide_stub 0 [blank_only] [] tt = Ok (r, tt) /\
      default_effect wide_stub [blank_only] [] tt r) /\
  (exists A',
      tsd_merge_blank (N := Pscore) (Cache := unit) Plogaddexp []
                      [[50 # 100; 30 # 100; 20 # 100]%Q] []
                      (0, blank_only) tt = Ok (A', tt) /\
      tsd_effect [] blank_only A') /\
  (exists A' final',
      alsd_extend alsd_stub 1 tt [[1 # 100; 60 # 100; 39 # 100]%Q]
                  [[((60 # 100)%Q, 0); ((39 # 100)%Q, 1)]] None [(1%Z, 1)]
                  ([], []) (0, blank_only) tt = Ok (A', final', tt) /\
      alsd_effect alsd_stub tt 0 [] [] blank_only A' final') /\
  (exists S' V',
      nsc_expand_hyp nsc_stub [[50 # 100; 30 # 100; 20 # 100]%Q]
                     [[((30 # 100)%Q, 0); ((20 # 100)%Q, 1)]]
                     ([], []) (0, nsc_survivor) tt = Ok (S', V', tt) /\
      nsc_effect [] [] nsc_survivor S' V').
Proof.
  split; [ | split; [ | split; [ | split]]].
  - eexists. split; [vm_compute; reflexivity | ].
    apply (proj1 (blank_extension_keeps_states greedy_stub Plogaddexp)
             (@Hyp Qscore unit unit 0%Q [0] tt None, [0], tt) 0 tt tt).
    vm_compute. reflexivity.
  - eexists. split; [vm_compute; reflexivity | ].
    apply (proj1 (proj2 (blank_extension_keeps_states wide_stub Plogaddexp))
             0 [blank_only] [] tt tt).
    vm_compute. reflexivity.
  - eexists. split; [vm_compute; reflexivity | ].
    apply (proj1 (proj2 (proj2 (blank_extension_keeps_states wide_stub Plogaddexp)))
             [] [[50 # 100; 30 # 100; 20 # 100]%Q] [] _ 0 blank_only tt tt).
    vm_compute. reflexivity.
  - eexists. eexists. split; [vm_compute; reflexivity | ].
    apply (proj1 (proj2 (proj2 (proj2 (blank_extension_keeps_states alsd_stub Plogaddexp))))
             1%Z tt [[1 # 100; 60 # 100; 39 # 100]%Q]
             [[((60 # 100)%Q, 0); ((39 # 100)%Q, 1)]] None [(1%Z, 1)]
             [] [] 0 blank_only tt tt).
    vm_compute. reflexivity.
  - eexists. eexists. split; [vm_compute; reflexivity | ].
    apply (proj2 (proj2 (proj2 (proj2 (blank_extension_keeps_states nsc_stub Plogaddexp))))
             [[50 # 100; 30 # 100; 20 # 100]%Q]
             [[((30 # 100)%Q, 0); ((20 # 100)%Q, 1)]]
             [] [] 0 nsc_survivor tt tt).
    vm_compute. reflexivity.
Defined.

(** ** The order and the length of the results *)

Section Ranked.
Variable N : Arith.
Variables Frame DecOut DecState Tokens LmState LmStates Cache : Type.
Variable self : BeamSearchTransducer N Frame DecOut DecState Tokens LmState LmStates Cache.
Variable logaddexp : num N -> num N -> num N.

(** The default, TSD and NSC searches return what [sort_nbest] returns. *)
Lemma ranked_searches (fuel : nat) (enc_out : list Frame) (c c' : Cache) :
  (forall r, default_beam_search self fuel enc_out c = Ok (r, c') ->
             exists hyps, r = sort_nbest self (fun h => h) hyps) /\
  (forall r, time_sync_decoding self logaddexp enc_out c = Ok (r, c') ->
             exists hyps, r = sort_nbest self (fun h => h) hyps) /\
  (forall r, nsc_beam_search self logaddexp enc_out c = Ok (r, c') ->
             exists hyps, r = sort_nbest self (@base N DecOut DecState LmState) hyps).
Proof.
  split; [ | split]; intros r H.
  - unfold default_beam_search in H. apply bind_ok in H.
    destruct H as (kept & s & _ & H). apply ret_ok in H. destruct H as [-> _].
    exists kept. reflexivity.
  - unfold time_sync_decoding in H. apply bind_ok in H.
    destruct H as ([B bs] & s & _ & H). apply ret_ok in H. destruct H as [-> _].
    exists B. reflexivity.
  - unfold nsc_beam_search in H. apply bind_ok in H.
    destruct H as (st & s & _ & H). apply bind_ok in H.
    destruct H as ([kept bs] & s' & _ & H). apply ret_ok in H. destruct H as [-> _].
    exists kept. reflexivity.
Qed.

(** ALSD ranks [final] when it is not empty and returns the working beam as
    it stands otherwise. *)
Lemma alsd_result (enc_out : list Frame) (c c' : Cache) r :
  align_length_sync_decoding self logaddexp enc_out c = Ok (r, c') ->
  exists B final bs,
    for_each (alsd_round self logaddexp enc_out (Z.of_nat (length enc_out)))
             (alsd_positions self enc_out)
             (fst (batched_init self (alsd_beam self)), [],
              snd (batched_init self (alsd_beam self))) c
    = Ok (B, final, bs, c') /\
    r = match final with
        | _ :: _ => sort_nbest self (fun h => h) final
        | [] => B
        end.
Proof.
  unfold align_length_sync_decoding, alsd_loop.
  destruct (batched_init self (alsd_beam self)) as [B0 bs0]. simpl. intros H.
  apply bind_ok in H. destruct H as ([[B final] bs] & s & Hloop & H).
  exists B, final, bs. destruct final as [ | f final];
    apply ret_ok in H; destruct H as [-> ->]; split; (exact Hloop || reflexivity).
Qed.

End Ranked.

(** C2 at its failing input.  No hypothesis reaches the last frame through
    a blank, [final] stays empty and ALSD returns its working beam: two
    hypotheses although [nbest] is 1, the first of which has the smaller
    length-normalised score although [score_norm] is set. *)
Theorem alsd_fallback_unranked :
  nbest alsd_late_blank = 1%Z /\
  score_norm alsd_late_blank = true /\
  exists h1 h2,
    call_search alsd_late_blank Plogaddexp 0 [0; 1; 2; 3] = Ok [h1; h2] /\
    label_seq h1 = [0; 1; 1; 1; 1; 1; 1] /\
    label_seq h2 = [0; 1; 1; 1; 1; 1; 1; 1] /\
    ~ (length [h1; h2] <= Z.to_nat (nbest alsd_late_blank)) /\
    ~ nbest_order alsd_late_blank h1 h2.
Proof.
  split; [reflexivity | split; [reflexivity | ]].
  eexists. eexists. split; [vm_compute; reflexivity | ].
  split; [reflexivity | split; [reflexivity | split]].
  - simpl. lia.
  - unfold nbest_order. vm_compute. discriminate.
Qed.

(** ** Label sequences and list surgery *)

Lemma seq_eqb_eq (a b : list nat) : seq_eqb a b = true <-> a = b.
Proof.
  revert b. induction a as [ | x a IH]; intros [ | y b]; simpl; split; intros H;
    try reflexivity; try discriminate H.
  - apply andb_true_iff in H. destruct H as [Hxy Hab].
    apply Nat.eqb_eq in Hxy. apply IH in Hab. subst. reflexivity.
  - injection H as -> ->. rewrite Nat.eqb_refl. simpl. apply IH. reflexivity.
Qed.










(** ** Recombination in TSD and ALSD *)

Section Recombination.
Variable N : Arith.
Variables Frame DecOut DecState Tokens LmState LmStates Cache : Type.
Variable self : BeamSearchTransducer N Frame DecOut DecState Tokens LmState LmStates Cache.
Variable logaddexp : num N -> num N -> num N.



















End Recombination.



(** * Further properties of the searches *)

(** ** More on lists *)

Lemma firstn_In {A : Type} (n : nat) (l : list A) (x : A) : In x (firstn n l) -> In x l.
Proof.
  revert n. induction l as [ | y l IH]; intros [ | n] H; simpl in *; try contradiction.
  destruct H as [-> | H]; [left; reflexivity | right; exact (IH n H)].
Qed.

Lemma slice_to_In {A : Type} (n : Z) (l : list A) (x : A) : In x (slice_to n l) -> In x l.
Proof. unfold slice_to. destruct (0 <=? n)%Z; apply firstn_In. Qed.

Lemma slice_to_length_eq {A : Type} (n : Z) (l : list A) :
  (0 <= n)%Z -> length (slice_to n l) = Nat.min (Z.to_nat n) (length l).
Proof.
  intros Hn. unfold slice_to. destruct (Z.leb_spec 0 n) as [_ | Hneg]; [ | lia].
  apply length_firstn.
Qed.

Lemma sorted_app_cut {A : Type} (R : A -> A -> Prop) (l1 l2 : list A) :
  StronglySorted R (l1 ++ l2) -> forall x y, In x l1 -> In y l2 -> R x y.
Proof.
  induction l1 as [ | a l1 IH]; simpl; intros H x y Hx Hy; [contradiction | ].
  inversion H as [ | a' l' Hs Ha]; subst. destruct Hx as [<- | Hx].
  - rewrite Forall_forall in Ha. apply Ha. apply in_or_app. right. exact Hy.
  - exact (IH Hs x y Hx Hy).
Qed.

Lemma sorted_map {A B : Type} (f : A -> B) (R : B -> B -> Prop) (l : list A) :
  StronglySorted (fun x y => R (f x) (f y)) l -> StronglySorted R (map f l).
Proof.
  induction 1 as [ | a l Hs IH Ha]; simpl; constructor; [exact IH | ].
  rewrite Forall_forall in *. intros y Hy. apply in_map_iff in Hy.
  destruct Hy as (x & <- & Hx). apply Ha. exact Hx.
Qed.

(** ** The N-best selector, in full *)

Section NbestSelect.
Variable N : Arith.
Variables Frame DecOut DecState Tokens LmState LmStates Cache : Type.
Variable self : BeamSearchTransducer N Frame DecOut DecState Tokens LmState LmStates Cache.

(** X1.  For [nbest >= 0], [sort_nbest] returns [min(nbest, len(hyps))] of
    the hypotheses it is given, in non-increasing order of the (normalised)
    score, and none of the hypotheses it leaves out has a higher one than
    any it returns. *)
Theorem sort_nbest_best {H : Type} (hyp_of : H -> hypothesis N DecState LmState)
  (hyps : list H) :
  StrictWeak (ltb N) -> StrictWeak (key_ltb N) -> (0 <= nbest self)%Z ->
  length (sort_nbest self hyp_of hyps) = Nat.min (Z.to_nat (nbest self)) (length hyps) /\
  StronglySorted (fun x y => nbest_order self (hyp_of x) (hyp_of y))
                 (sort_nbest self hyp_of hyps) /\
  exists rest,
    Permutation hyps (sort_nbest self hyp_of hyps ++ rest) /\
    forall x y, In x (sort_nbest self hyp_of hyps) -> In y rest ->
                nbest_order self (hyp_of x) (hyp_of y).
Proof.
  intros Hs Hk Hn. split; [ | split].
  - unfold sort_nbest. rewrite slice_to_length_eq by exact Hn.
    destruct (score_norm self); unfold sorted_desc; rewrite sort_by_length; reflexivity.
  - apply (sort_nbest_ordered self hyp_of hyps Hs Hk Hn).
  - unfold sort_nbest, nbest_order, slice_to.
    destruct (Z.leb_spec 0 (nbest self)) as [_ | Hneg]; [ | lia].
    destruct (score_norm self).
    + set (l := sorted_desc (key_ltb N) (fun x => norm_score (hyp_of x)) hyps).
      exists (skipn (Z.to_nat (nbest self)) l). split.
      * rewrite firstn_skipn. apply Permutation_sym. apply sort_by_perm.
      * apply sorted_app_cut. rewrite firstn_skipn.
        exact (sorted_desc_sorted (fun x => norm_score (hyp_of x)) Hk hyps).
    + set (l := sorted_desc (ltb N) (fun x => score (hyp_of x)) hyps).
      exists (skipn (Z.to_nat (nbest self)) l). split.
      * rewrite firstn_skipn. apply Permutation_sym. apply sort_by_perm.
      * apply sorted_app_cut. rewrite firstn_skipn.
        exact (sorted_desc_sorted (fun x => score (hyp_of x)) Hs hyps).
Qed.

End NbestSelect.

(** The selector of the scenario, 1-best, on two hypotheses. *)
Lemma sort_nbest_best_witness :
  length (sort_nbest scenario_Q (fun h => h)
            [@Hyp Qscore unit unit (-13 # 10)%Q [0; 1] tt None;
             @Hyp Qscore unit unit (-3 # 10)%Q [0] tt None]) = 1.
Proof.
  apply (proj1 (sort_nbest_best scenario_Q (fun h => h)
                  [@Hyp Qscore unit unit (-13 # 10)%Q [0; 1] tt None;
                   @Hyp Qscore unit unit (-3 # 10)%Q [0] tt None]
                  Qltb_order Qltb_order ltac:(vm_compute; discriminate))).
Defined.

(** ** Ranked results *)

Section RankedResults.
Variable N : Arith.
Variables Frame DecOut DecState Tokens LmState LmStates Cache : Type.
Variable self : BeamSearchTransducer N Frame DecOut DecState Tokens LmState LmStates Cache.
Variable logaddexp : num N -> num N -> num N.

Lemma sort_nbest_at_most {H : Type} (hyp_of : H -> hypothesis N DecState LmState)
  (hyps : list H) :
  (0 <= nbest self)%Z -> length (sort_nbest self hyp_of hyps) <= Z.to_nat (nbest self).
Proof. intros Hn. unfold sort_nbest. apply slice_to_length. exact Hn. Qed.

(** X2.  Through [__call__], for [nbest >= 0], the default, TSD and NSC
    searches return at most [nbest] hypotheses, whatever the input and the
    oracles; the hypotheses are in non-increasing order of the (normalised)
    score when [<] on scores and on sort keys is a strict weak order, as it
    is on the reals and as it is not on binary64 once a score is NaN.  So
    does ALSD whenever its [final] collection is not empty; otherwise it
    returns its beam [B] as it stands. *)
Theorem call_results_ranked (fuel : nat) (enc_out : list Frame)
  (r : list (hypothesis N DecState LmState)) :
  (0 <= nbest self)%Z ->
  call_search self logaddexp fuel enc_out = Ok r ->
  (search_algorithm self = default \/ search_algorithm self = tsd \/
   search_algorithm self = nsc ->
   length r <= Z.to_nat (nbest self) /\
   (StrictWeak (ltb N) -> StrictWeak (key_ltb N) -> StronglySorted (nbest_order self) r)) /\
  (search_algorithm self = alsd ->
   exists B final bs c',
     for_each (alsd_round self logaddexp enc_out (Z.of_nat (length enc_out)))
              (alsd_positions self enc_out)
              (fst (batched_init self (alsd_beam self)), [],
               snd (batched_init self (alsd_beam self))) (empty_cache (decoder self))
     = Ok (B, final, bs, c') /\
     (final <> [] ->
      length r <= Z.to_nat (nbest self) /\
      (StrictWeak (ltb N) -> StrictWeak (key_ltb N) ->
       StronglySorted (nbest_order self) r)) /\
     (final = [] -> r = B)).
Proof.
  intros Hn Hrun. unfold call_search, run in Hrun.
  destruct (search_algorithm_of self logaddexp (search_algorithm self) fuel enc_out
              (empty_cache (decoder self))) as [[r0 c'] | e | ] eqn:E; try discriminate.
  injection Hrun as ->.
  pose proof (ranked_searches self logaddexp fuel enc_out (empty_cache (decoder self)) c')
    as (Hd & Ht & Hnsc).
  split.
  - intros [Ha | [Ha | Ha]]; rewrite Ha in E; simpl in E.
    + destruct (Hd r E) as (hyps & ->). split; [apply sort_nbest_at_most; exact Hn | ].
      intros Hs Hk. exact (proj2 (sort_nbest_ordered self (fun h => h) hyps Hs Hk Hn)).
    + destruct (Ht r E) as (hyps & ->). split; [apply sort_nbest_at_most; exact Hn | ].
      intros Hs Hk. exact (proj2 (sort_nbest_ordered self (fun h => h) hyps Hs Hk Hn)).
    + apply bind_ok in E. destruct E as (nb & s & Hnb & E).
      apply ret_ok in E. destruct E as [-> ->].
      destruct (Hnsc nb Hnb) as (hyps & ->). split.
      * rewrite length_map. apply sort_nbest_at_most. exact Hn.
      * intros Hs Hk. apply sorted_map.
        exact (proj2 (sort_nbest_ordered self (@base N DecOut DecState LmState) hyps
                        Hs Hk Hn)).
  - intros Ha. rewrite Ha in E. simpl in E.
    apply alsd_result in E. destruct E as (B & final & bs & Hloop & ->).
    exists B, final, bs, c'. split; [exact Hloop | split].
    + intros Hne. destruct final as [ | f final]; [congruence | ].
      split; [apply sort_nbest_at_most; exact Hn | ].
      intros Hs Hk. exact (proj2 (sort_nbest_ordered self (fun h => h) (f :: final) Hs Hk Hn)).
    + intros ->. reflexivity.
Qed.

End RankedResults.

(** The comparison of binary64 scores is no strict weak order: a NaN is
    neither below nor above -1 and -3. *)
Lemma float_scores_not_strict_weak : ~ StrictWeak (ltb Fscore).
Proof.
  intros [_ Hnt].
  specialize (Hnt (-3)%float PrimFloat.nan (-1)%float eq_refl eq_refl).
  vm_compute in Hnt. discriminate Hnt.
Qed.

(** The default search of the scenario is ranked. *)
Lemma call_results_ranked_witness :
  exists r,
    call_search scenario_Q Plogaddexp 2 [0; 1] = Ok r /\
    length r <= Z.to_nat (nbest scenario_Q) /\
    StronglySorted (nbest_order scenario_Q) r.
Proof.
  assert (Hrun : exists r, call_search scenario_Q Plogaddexp 2 [0; 1] = Ok r).
  { eexists. vm_compute. reflexivity. }
  destruct Hrun as (r & Hrun). exists r. split; [exact Hrun | ].
  destruct (proj1 (call_results_ranked scenario_Q Plogaddexp 2 [0; 1]
                     ltac:(vm_compute; discriminate) Hrun)
                  (or_introl eq_refl)) as [Hlen Hsorted].
  split; [exact Hlen | exact (Hsorted Qltb_order Qltb_order)].
Defined.

(** ** Greedy search *)

Section Greedy.
Variable N : Arith.
Variables Frame DecOut DecState Tokens LmState LmStates Cache : Type.
Variable self : BeamSearchTransducer N Frame DecOut DecState Tokens LmState LmStates Cache.

Lemma greedy_step_inv (st st' : hypothesis N DecState LmState * DecOut * DecState)
  (e : Frame) (c c' : Cache) :
  greedy_step self st e c = Ok (st', c') ->
  exists top_logp pred,
    torch_max N (joint_logp self e (snd (fst st))) = Some (top_logp, pred) /\
    ((pred = blank_id (decoder self) /\ st' = st) \/
     (pred <> blank_id (decoder self) /\
      label_seq (fst (fst st')) = label_seq (fst (fst st)) ++ [pred] /\
      score (fst (fst st')) = add N (score (fst (fst st))) top_logp)).
Proof.
  destruct st as [[hyp d] state]. unfold greedy_step. intros H.
  apply bind_ok in H. destruct H as ([top_logp pred] & c1 & Hmax & H).
  apply or_raise_ok in Hmax. destruct Hmax as [Hmax _].
  exists top_logp, pred. split; [exact Hmax | ].
  destruct (Nat.eqb_spec pred (blank_id (decoder self))) as [Heq | Hne]; cbn [negb] in H.
  - left. apply ret_ok in H. destruct H as [-> _]. split; [exact Heq | reflexivity].
  - right. apply bind_ok in H. destruct H as ([[d1 s1] t1] & c2 & _ & H).
    apply ret_ok in H. destruct H as [-> _]. split; [exact Hne | split; reflexivity].
Qed.

Lemma greedy_loop_trace :
  forall (l : list Frame) st (c c' : Cache) st',
    for_each (greedy_step self) l st c = Ok (st', c') ->
    exists steps,
      label_seq (fst (fst st')) = label_seq (fst (fst st)) ++ map snd steps /\
      score (fst (fst st')) = fold_left (add N) (map fst steps) (score (fst (fst st))) /\
      length steps <= length l /\
      Forall (greedy_emission self l) steps.
Proof.
  induction l as [ | e l IH]; intros st c c' st' H; cbn [for_each] in H.
  - apply ret_ok in H. destruct H as [-> _]. exists []. simpl. rewrite app_nil_r.
    repeat split; [apply Nat.le_refl | constructor].
  - apply bind_ok in H. destruct H as (st1 & s & Hstep & H).
    apply IH in H. destruct H as (steps & Hl & Hs & Hlen & Hall).
    assert (Hall' : Forall (greedy_emission self (e :: l)) steps).
    { eapply Forall_impl; [ | exact Hall]. intros p (Hp & e0 & d0 & Hin & Hmax).
      split; [exact Hp | ]. exists e0, d0. split; [right; exact Hin | exact Hmax]. }
    apply greedy_step_inv in Hstep.
    destruct Hstep as (top_logp & pred & Hmax & [[_ ->] | (Hne & Hl1 & Hs1)]).
    + exists steps. repeat split; [exact Hl | exact Hs | simpl; lia | exact Hall'].
    + exists ((top_logp, pred) :: steps). simpl. rewrite Hl, Hl1, Hs, Hs1, <- app_assoc.
      repeat split; [lia | ]. constructor; [ | exact Hall'].
      split; [exact Hne | ]. exists e, (snd (fst st)). split; [left; reflexivity | exact Hmax].
Qed.

(** X3.  Whatever [nbest] is, a greedy search that returns gives exactly
    one hypothesis.  Its label sequence is [blank_id] followed by at most
    one label per encoder frame, each the best index of the joint output on
    a frame and none of them [blank_id]; its score is the sum of the scores
    of these labels alone: a frame on which blank wins adds nothing. *)
Theorem greedy_labels_and_score (enc_out : list Frame) (c c' : Cache)
  (r : list (hypothesis N DecState LmState)) :
  greedy_search self enc_out c = Ok (r, c') ->
  exists h steps,
    r = [h] /\
    label_seq h = blank_id (decoder self) :: map snd steps /\
    score h = fold_left (add N) (map fst steps) (zero N) /\
    length steps <= length enc_out /\
    Forall (greedy_emission self enc_out) steps.
Proof.
  unfold greedy_search. intros H.
  apply bind_ok in H. destruct H as ([[d state] tok] & s & _ & H).
  apply bind_ok in H. destruct H as ([[hyp d'] state'] & s' & Hloop & H).
  apply ret_ok in H. destruct H as [-> _].
  apply greedy_loop_trace in Hloop. destruct Hloop as (steps & Hl & Hs & Hlen & Hall).
  exists hyp, steps. simpl in Hl, Hs. repeat split; assumption.
Qed.

(** X4.  Greedy search raises nothing as soon as the joint network returns
    a non-empty vector on every frame of the input: it always returns. *)
Theorem greedy_returns (enc_out : list Frame) (c : Cache) :
  (forall e d, In e enc_out -> joint_logp self e d <> []) ->
  exists h c', greedy_search self enc_out c = Ok ([h], c').
Proof.
  intros Hne. unfold greedy_search, bind, call.
  destruct (decoder_score _ _ _) as [[[d state] tok] c1].
  assert (Hloop : forall l st c0,
             (forall e d0, In e l -> joint_logp self e d0 <> []) ->
             exists st' c0', for_each (greedy_step self) l st c0 = Ok (st', c0')).
  { induction l as [ | e l IH]; intros st c0 Hl; simpl.
    - eexists. eexists. reflexivity.
    - assert (Hstep : exists st1 c1', greedy_step self st e c0 = Ok (st1, c1')).
      { destruct st as [[hyp d0] state0]. unfold greedy_step, bind.
        pose proof (Hl e d0 (or_introl eq_refl)) as Hv.
        unfold torch_max. destruct (joint_logp self e d0) as [ | x v]; [congruence | ].
        simpl. destruct (max_loop _ _ _ _ _) as [i m]. simpl.
        destruct (negb (i =? blank_id (decoder self))).
        - unfold call. destruct (decoder_score _ _ _) as [[[d2 s2] t2] c2].
          eexists. eexists. reflexivity.
        - eexists. eexists. reflexivity. }
      destruct Hstep as (st1 & c1' & Hstep). unfold bind. rewrite Hstep.
      apply IH. intros e0 d1 Hin. apply Hl. right. exact Hin. }
  destruct (Hloop enc_out (Hyp N (zero N) [blank_id (decoder self)]
                               (init_state (decoder self) 1) None, d, state) c1 Hne)
    as ([[hyp d'] state'] & c2 & Hrun).
  rewrite Hrun. exists hyp, c2. reflexivity.
Qed.

End Greedy.

(** Greedy search on two frames where label 1 wins. *)
Lemma greedy_labels_and_score_witness :
  exists r h steps,
    greedy_search greedy_label_stub [0; 1] tt = Ok (r, tt) /\
    r = [h] /\
    label_seq h = blank_id (decoder greedy_label_stub) :: map snd steps /\
    score h = fold_left (add Pscore) (map fst steps) (zero Pscore) /\
    length steps <= length [0; 1] /\
    Forall (greedy_emission greedy_label_stub [0; 1]) steps.
Proof.
  assert (Hrun : exists r, greedy_search greedy_label_stub [0; 1] tt = Ok (r, tt)).
  { eexists. vm_compute. reflexivity. }
  destruct Hrun as (r & Hrun). exists r.
  destruct (greedy_labels_and_score greedy_label_stub [0; 1] tt Hrun) as (h & steps & H).
  exists h, steps. split; [exact Hrun | exact H].
Defined.

(** Greedy search on the two frames of the scenario. *)
Lemma greedy_returns_witness :
  exists h c', greedy_search greedy_stub [0; 1] tt = Ok ([h], c').
Proof.
  apply (greedy_returns greedy_stub [0; 1] tt).
  intros e d _. destruct e; discriminate.
Defined.

(** ** The top-k of the batched searches *)

Lemma topk_too_wide (N : Arith) (k : Z) (v : list (num N)) :
  (Z.of_nat (length v) < k)%Z -> topk N k v = None.
Proof.
  intros H. unfold topk.
  destruct (Z.ltb_spec (Z.of_nat (length v)) k) as [_ | Hge]; [ | lia].
  rewrite orb_true_r. reflexivity.
Qed.

Lemma range_cons (n : Z) : (1 <= n)%Z -> exists l, range n = 0%Z :: l.
Proof.
  intros H. unfold range. destruct (Z.to_nat n) as [ | k] eqn:E; [lia | ].
  simpl. eexists. reflexivity.
Qed.

Lemma bind_raise {St A B} (m : M St A) (k : A -> M St B) (s : St) (e : exn) :
  m s = Raise e -> bind m k s = Raise e.
Proof. intros H. unfold bind. rewrite H. reflexivity. Qed.

Lemma for_each_raise {St A B} (body : B -> A -> M St B) (x : A) (l : list A) (acc : B)
  (s : St) (e : exn) :
  body acc x s = Raise e -> for_each body (x :: l) acc s = Raise e.
Proof. intros H. cbn [for_each]. apply bind_raise. exact H. Qed.

Section TopkRange.
Variable N : Arith.
Variables Frame DecOut DecState Tokens LmState LmStates Cache : Type.
Variable self : BeamSearchTransducer N Frame DecOut DecState Tokens LmState LmStates Cache.
Variable logaddexp : num N -> num N -> num N.

Hypothesis rows : oracle_contract self.
Hypothesis joint_size :
  forall e d, Z.of_nat (length (joint_logp self e d)) = vocab_size self.
Hypothesis vocab_pos : (1 <= vocab_size self)%Z.
Hypothesis wide_beam : (vocab_size self <= beam_size self)%Z.

Lemma batch_topk_too_wide (row : list (num N)) (beam_logp : list (list (num N))) (c : Cache) :
  Z.of_nat (length row) = vocab_size self ->
  batch_topk N (Z.min (beam_size self) (vocab_size self)) (row :: beam_logp) c
  = Raise TorchError.
Proof.
  intros Hrow. unfold batch_topk. simpl. unfold bind.
  rewrite topk_too_wide; [reflexivity | ].
  destruct row as [ | x row]; simpl in *; lia.
Qed.

Lemma tsd_round_too_wide (e : Frame) A h C bs (v : Z) (c : Cache) :
  tsd_round self logaddexp e (A, h :: C, bs) v c = Raise TorchError.
Proof.
  unfold tsd_round, bind, call.
  pose proof (proj1 rows (h :: C) bs c (use_lm self)) as Hlen.
  destruct (batch_score _ _ _ _ _) as [[[bdo bs'] tok] c1]. simpl in Hlen.
  destruct bdo as [ | d bdo]; [discriminate Hlen | ].
  simpl map. unfold tsd_beam. rewrite batch_topk_too_wide; [reflexivity | apply joint_size].
Qed.

Lemma alsd_round_too_wide (e0 e1 : Frame) (rest : list Frame) h final bs (c : Cache) :
  label_seq h = [blank_id (decoder self)] ->
  alsd_round self logaddexp (e0 :: e1 :: rest) (Z.of_nat (length (e0 :: e1 :: rest)))
             ([h], final, bs) 0 c
  = Raise TorchError.
Proof.
  intros Hh. set (T := Z.of_nat (length (e0 :: e1 :: rest))).
  assert (HT : (2 <= T)%Z) by (unfold T; simpl length; lia).
  assert (Hlive : for_each (alsd_select (N := N) (DecState := DecState) (LmState := LmState)
                              (e0 :: e1 :: rest) T 0) [h] [] c
                   = Ok ([(h, (1%Z, e1))], c)).
  { cbn [for_each]. unfold alsd_select. rewrite Hh. cbn [length].
    replace (0 - (Z.of_nat 1 - 1) + 1)%Z with 1%Z by lia.
    destruct (Z.ltb_spec (T - 1) 1) as [Hlt | _]; [lia | ].
    change (getitem (e0 :: e1 :: rest) 1) with (Some e1). reflexivity. }
  unfold alsd_round. unfold bind at 1. rewrite Hlive. cbn [map fst snd].
  unfold bind at 1. unfold call.
  match goal with
  | |- context [batch_score ?d ?hs ?s ?c0 ?b] =>
      pose proof (proj1 rows hs s c0 b) as Hlen;
      destruct (batch_score d hs s c0 b) as [[[bdo bs'] tok] c1]
  end.
  simpl in Hlen. destruct bdo as [ | d bdo]; [discriminate Hlen | ].
  cbn [combine map fst snd]. unfold alsd_beam. apply bind_raise.
  apply batch_topk_too_wide. apply joint_size.
Qed.

(** X5.  TSD and ALSD ask the top-k of the non-blank scores for [beam]
    entries, with [beam = min(beam_size, vocab_size)] and without the guard
    [beam_k] of the default and NSC searches.  With [beam_size >= vocab_size]
    there are only [vocab_size - 1] such scores: TSD raises on the first
    frame, and ALSD in its first turn as soon as there are two frames. *)
Theorem batched_topk_unguarded :
  (forall (e : Frame) (rest : list Frame) (c : Cache),
      (1 <= max_sym_exp self)%Z ->
      time_sync_decoding self logaddexp (e :: rest) c = Raise TorchError) /\
  (forall (e0 e1 : Frame) (rest : list Frame) (c : Cache),
      (0 <= u_max self)%Z ->
      align_length_sync_decoding self logaddexp (e0 :: e1 :: rest) c = Raise TorchError).
Proof.
  split.
  - intros e rest c Hsym. unfold time_sync_decoding, batched_init.
    apply bind_raise. apply for_each_raise. unfold tsd_frame.
    apply bind_raise. destruct (range_cons Hsym) as (l & ->).
    apply for_each_raise. apply tsd_round_too_wide.
  - intros e0 e1 rest c Hu. unfold align_length_sync_decoding, alsd_positions, alsd_u_max.
    set (T := Z.of_nat (length (e0 :: e1 :: rest))).
    assert (HT : (2 <= T)%Z) by (unfold T; simpl length; lia).
    assert (Hpos : (1 <= T + Z.min (u_max self) (T - 1))%Z) by lia.
    destruct (range_cons Hpos) as (l & ->).
    unfold alsd_loop, batched_init. apply bind_raise. apply for_each_raise.
    apply alsd_round_too_wide. reflexivity.
Qed.

End TopkRange.

(** TSD on one frame and ALSD on two, three labels and beam size 3. *)
Lemma batched_topk_unguarded_witness :
  time_sync_decoding tsd_full_beam Plogaddexp [0] tt = Raise TorchError /\
  align_length_sync_decoding alsd_full_beam Plogaddexp [0; 1] tt = Raise TorchError.
Proof.
  split.
  - apply (proj1 (@batched_topk_unguarded _ _ _ _ _ _ _ _ tsd_full_beam Plogaddexp
                    (stub_oracle_contract _ _ _ _ _ _ _ _ _ _)
                    (fun _ _ => eq_refl)
                    ltac:(vm_compute; discriminate) ltac:(vm_compute; discriminate))).
    vm_compute. discriminate.
  - apply (proj2 (@batched_topk_unguarded _ _ _ _ _ _ _ _ alsd_full_beam Plogaddexp
                    (stub_oracle_contract _ _ _ _ _ _ _ _ _ _)
                    (fun _ _ => eq_refl)
                    ltac:(vm_compute; discriminate) ltac:(vm_compute; discriminate))).
    vm_compute. discriminate.
Defined.

(** ** Loops over positions *)

Lemma for_each_ext_In {St A B} (body1 body2 : B -> A -> M St B) (l : list A) :
  (forall b a s, In a l -> body1 b a s = body2 b a s) ->
  forall acc s, for_each body1 l acc s = for_each body2 l acc s.
Proof.
  induction l as [ | x l IH]; intros H acc s; cbn [for_each]; [reflexivity | ].
  unfold bind. rewrite (H acc x s (or_introl eq_refl)).
  destruct (body2 acc x s) as [[b s1] | | ]; try reflexivity.
  apply IH. intros b0 a s0 Hin. apply H. right. exact Hin.
Qed.

Lemma for_each_idx {St A B} (P : nat -> B -> Prop) (body : B -> A -> M St B) :
  forall (l : list A) (k : nat) acc s r s',
    P k acc ->
    (forall j b a s1 b' s2,
        nth_error l j = Some a -> P (k + j) b -> body b a s1 = Ok (b', s2) ->
        P (S (k + j)) b') ->
    for_each body l acc s = Ok (r, s') -> P (k + length l) r.
Proof.
  induction l as [ | x l IH]; intros k acc s r s' H0 Hstep H; cbn [for_each] in H.
  - apply ret_ok in H. destruct H as [-> _]. simpl. rewrite Nat.add_0_r. exact H0.
  - apply bind_ok in H. destruct H as (b1 & s1 & Hb & H).
    simpl length. rewrite Nat.add_succ_r. change (S (k + length l)) with (S k + length l).
    apply (IH (S k) b1 s1 r s'); [ | | exact H].
    + specialize (Hstep 0 acc x s b1 s1 eq_refl). rewrite Nat.add_0_r in Hstep.
      apply Hstep; assumption.
    + intros j b a s2 b' s3 Hn Hp Hbody.
      specialize (Hstep (S j) b a s2 b' s3 Hn). rewrite Nat.add_succ_r in Hstep.
      apply Hstep; assumption.
Qed.

Lemma for_each_ext_idx {St A B} (P : nat -> B -> Prop) (body1 body2 : B -> A -> M St B) :
  forall (l : list A) (k : nat) acc s,
    P k acc ->
    (forall j b a s1,
        nth_error l j = Some a -> P (k + j) b ->
        body1 b a s1 = body2 b a s1 /\
        forall b' s2, body1 b a s1 = Ok (b', s2) -> P (S (k + j)) b') ->
    for_each body1 l acc s = for_each body2 l acc s.
Proof.
  induction l as [ | x l IH]; intros k acc s H0 Hstep; cbn [for_each]; [reflexivity | ].
  destruct (Hstep 0 acc x s eq_refl) as [Heq Hp]; [rewrite Nat.add_0_r; exact H0 | ].
  unfold bind. rewrite <- Heq.
  destruct (body1 acc x s) as [[b s1] | | ] eqn:E; try reflexivity.
  apply (IH (S k)).
  - specialize (Hp b s1 eq_refl). rewrite Nat.add_0_r in Hp. exact Hp.
  - intros j b0 a0 s2 Hn Hp0. specialize (Hstep (S j) b0 a0 s2 Hn).
    rewrite Nat.add_succ_r in Hstep. apply Hstep. exact Hp0.
Qed.

Lemma range_nth (n : Z) (j : nat) (a : Z) :
  nth_error (range n) j = Some a -> a = Z.of_nat j.
Proof.
  unfold range. rewrite nth_error_map.
  destruct (nth_error (seq 0 (Z.to_nat n)) j) as [m | ] eqn:E; simpl; [ | discriminate].
  intros [= <-]. f_equal.
  assert (Hlt : j < length (seq 0 (Z.to_nat n))).
  { apply nth_error_Some. rewrite E. discriminate. }
  rewrite length_seq in Hlt.
  apply (nth_error_nth _ _ 0) in E. rewrite seq_nth in E by exact Hlt. simpl in E. lia.
Qed.

Lemma In_enumerate {A : Type} (l : list A) (j : nat) (x : A) :
  In (j, x) (enumerate l) -> nth_error l j = Some x.
Proof.
  intros H. apply In_nth_error in H. destruct H as (n & Hn).
  assert (Hlt : n < length l).
  { rewrite <- enumerate_length. apply nth_error_Some. rewrite Hn. discriminate. }
  destruct (nth_error l n) as [y | ] eqn:E.
  - rewrite (nth_error_enumerate l n E) in Hn. injection Hn as -> ->. exact E.
  - apply nth_error_None in E. lia.
Qed.

Lemma Forall2_Forall_r {A B : Type} (R : A -> B -> Prop) (P : B -> Prop)
  (l : list A) (r : list B) :
  Forall2 R l r -> (forall a b, R a b -> P b) -> Forall P r.
Proof.
  induction 1 as [ | a b l r Hab _ IH]; intros HP; constructor.
  - exact (HP a b Hab).
  - exact (IH HP).
Qed.

Lemma Forall_update_at {A : Type} (P : A -> Prop) (f : A -> A) :
  (forall a, P a -> P (f a)) ->
  forall i l, Forall P l -> Forall P (update_at i f l).
Proof.
  intros Hf i l. revert i. induction l as [ | x l IH]; intros i H; [destruct i; exact H | ].
  inversion H as [ | x' l' Hx Hl]; subst.
  destruct i; simpl; constructor; auto.
Qed.

Lemma Forall_slice_sorted {K A : Type} (P : A -> Prop) (lt : K -> K -> bool) (key : A -> K)
  (n : Z) (l : list A) :
  Forall P l -> Forall P (slice_to n (sorted_desc lt key l)).
Proof.
  rewrite !Forall_forall. intros H x Hx. apply slice_to_In in Hx.
  unfold sorted_desc in Hx. apply sort_by_In in Hx. exact (H x Hx).
Qed.

(** ** The shape of the label sequences *)

Section LabelShapeFacts.
Variable N : Arith.
Variables Frame DecOut DecState Tokens LmState LmStates Cache : Type.
Variable self : BeamSearchTransducer N Frame DecOut DecState Tokens LmState LmStates Cache.
Variable logaddexp : num N -> num N -> num N.

Lemma at_most_labels_mono n m (h : hypothesis N DecState LmState) :
  n <= m -> at_most_labels self n h -> at_most_labels self m h.
Proof.
  intros Hnm (ls & Hl & Hlen & Hall). exists ls. split; [exact Hl | split; [lia | exact Hall]].
Qed.

Lemma at_most_labels_same n (h h' : hypothesis N DecState LmState) :
  label_seq h' = label_seq h -> at_most_labels self n h -> at_most_labels self n h'.
Proof.
  intros Heq (ls & Hl & Hlen & Hall). exists ls. rewrite Heq. auto.
Qed.

Lemma at_most_labels_ext n (h h' : hypothesis N DecState LmState) k :
  label_seq h' = label_seq h ++ [k + 1] ->
  at_most_labels self n h -> at_most_labels self (S n) h'.
Proof.
  intros Heq (ls & Hl & Hlen & Hall). exists (ls ++ [k + 1]).
  rewrite Heq, Hl. split; [reflexivity | split].
  - rewrite length_app. simpl. lia.
  - apply Forall_app. split; [exact Hall | constructor; [lia | constructor]].
Qed.

Lemma at_most_labels_length n (h : hypothesis N DecState LmState) :
  at_most_labels self n h -> length (label_seq h) <= S n.
Proof. intros (ls & Hl & Hlen & _). rewrite Hl. simpl. lia. Qed.

Lemma at_most_labels_init beam : Forall (at_most_labels self 0) (fst (batched_init self beam)).
Proof.
  constructor; [ | constructor]. exists []. simpl.
  split; [reflexivity | split; [lia | constructor]].
Qed.

Lemma recombine_into_Forall (P : hypothesis N DecState LmState -> Prop) :
  (forall h h', label_seq h' = label_seq h -> P h -> P h') ->
  forall final hyp, Forall P final -> P hyp -> Forall P (recombine_into logaddexp final hyp).
Proof.
  intros HP final hyp. induction final as [ | f final IH]; intros Hf Hh; simpl.
  - constructor; [exact Hh | constructor].
  - inversion Hf as [ | f' l' Hpf Hl]; subst.
    destruct (seq_eqb (label_seq f) (label_seq hyp)).
    + constructor; [ | exact Hl]. apply (HP f); [reflexivity | exact Hpf].
    + constructor; [exact Hpf | apply IH; assumption].
Qed.

Lemma recombine_hyps_Forall (P : hypothesis N DecState LmState -> Prop) :
  (forall h h', label_seq h' = label_seq h -> P h -> P h') ->
  forall hyps, Forall P hyps -> Forall P (recombine_hyps logaddexp hyps).
Proof.
  intros HP hyps. unfold recombine_hyps.
  assert (Hgen : forall l acc, Forall P acc -> Forall P l ->
                               Forall P (fold_left (recombine_into logaddexp) l acc)).
  { induction l as [ | x l IH]; intros acc Ha Hl; simpl; [exact Ha | ].
    inversion Hl as [ | x' l' Hx Hl']; subst.
    apply IH; [apply recombine_into_Forall; assumption | exact Hl']. }
  intros H. apply Hgen; [constructor | exact H].
Qed.

Lemma expand_hyp_labels_ext beam_state beam_topk lm_out i hyp (c c' : Cache) new_hyps n :
  expand_hyp self beam_state beam_topk lm_out (i, hyp) c = Ok (new_hyps, c') ->
  at_most_labels self n hyp ->
  Forall (at_most_labels self (S n)) new_hyps.
Proof.
  intros H Hh. apply expand_hyp_inv in H. destruct H as (_ & top & _ & Hall).
  eapply Forall2_Forall_r; [exact Hall | ]. intros lk h [Hl _].
  eapply at_most_labels_ext; [exact Hl | exact Hh].
Qed.

End LabelShapeFacts.

(** ** Alignment-length synchronous decoding *)

Section AlsdFrames.
Variable N : Arith.
Variables Frame DecOut DecState Tokens LmState LmStates Cache : Type.
Variable self : BeamSearchTransducer N Frame DecOut DecState Tokens LmState LmStates Cache.
Variable logaddexp : num N -> num N -> num N.

(** The frame of a live hypothesis in turn [i]. *)
Lemma alsd_select_live (P : hypothesis N DecState LmState -> Prop) (enc_out : list Frame)
  (t_max i : Z) :
  forall (B : list (hypothesis N DecState LmState)) (c c' : Cache) live,
    for_each (alsd_select enc_out t_max i) B [] c = Ok (live, c') ->
    Forall P B ->
    Forall (fun x => P (fst x) /\
                     fst (snd x) = (i - (Z.of_nat (length (label_seq (fst x))) - 1) + 1)%Z)
           live.
Proof.
  intros B c c' live H HB.
  refine (for_each_inv
            (fun acc => Forall (fun x => P (fst x) /\
               fst (snd x) = (i - (Z.of_nat (length (label_seq (fst x))) - 1) + 1)%Z) acc)
            _ B [] c (Forall_nil _) _ H).
  intros acc hyp s1 acc' s2 Hacc Hin Hsel. unfold alsd_select in Hsel.
  destruct (t_max - 1 <? i - (Z.of_nat (length (label_seq hyp)) - 1) + 1)%Z.
  - apply ret_ok in Hsel. destruct Hsel as [-> _]. exact Hacc.
  - apply bind_ok in Hsel. destruct Hsel as (e & s & _ & Hsel).
    apply ret_ok in Hsel. destruct Hsel as [-> _].
    apply Forall_app. split; [exact Hacc | ].
    constructor; [ | constructor]. simpl. split; [ | reflexivity].
    rewrite Forall_forall in HB. exact (HB hyp Hin).
Qed.

(** One turn: the beam grows by at most one label, and what enters [final]
    has exactly [i - t_max + 2] labels. *)
Lemma alsd_round_labels (enc_out : list Frame) (t_max i : Z) (n : nat)
  B final bs (c : Cache) B' final' bs' c' :
  alsd_round self logaddexp enc_out t_max (B, final, bs) i c = Ok (B', final', bs', c') ->
  Forall (at_most_labels self n) B ->
  Forall (at_most_labels self (S n)) B' /\
  exists added,
    final' = final ++ added /\
    Forall (fun h => at_most_labels self n h /\
                     (Z.of_nat (length (label_seq h)) = i - t_max + 3)%Z) added.
Proof.
  intros H HB. unfold alsd_round in H.
  apply bind_ok in H. destruct H as (live & c1 & Hlive & H).
  pose proof (@alsd_select_live (at_most_labels self n) _ _ _ _ _ _ _ Hlive HB) as HQ.
  destruct (map fst live) as [ | x B_] eqn:EB.
  - apply ret_ok in H. destruct H as [Heq _]. injection Heq as -> -> ->. split.
    + eapply Forall_impl; [ | exact HB]. intros h. apply at_most_labels_mono. lia.
    + exists []. rewrite app_nil_r. split; [reflexivity | constructor].
  - apply bind_ok in H. destruct H as ([[bdo bs1] tok] & c2 & _ & H).
    apply bind_ok in H. destruct H as (beam_topk & c3 & _ & H).
    apply bind_ok in H. destruct H as ([A fin] & c4 & Hext & H).
    apply ret_ok in H. destruct H as [Heq _]. injection Heq as -> -> ->.
    assert (Hinv : Forall (at_most_labels self (S n)) A /\
                   exists added,
                     fin = final ++ added /\
                     Forall (fun h => at_most_labels self n h /\
                               (Z.of_nat (length (label_seq h)) = i - t_max + 3)%Z) added).
    { refine (for_each_inv
                (fun st : list (hypothesis N DecState LmState)
                          * list (hypothesis N DecState LmState) =>
                   Forall (at_most_labels self (S n)) (fst st) /\
                   exists added,
                     snd st = final ++ added /\
                     Forall (fun h => at_most_labels self n h /\
                               (Z.of_nat (length (label_seq h)) = i - t_max + 3)%Z) added)
                _ _ _ _ _ _ Hext).
      - simpl. split; [constructor | ]. exists []. rewrite app_nil_r.
        split; [reflexivity | constructor].
      - intros [A0 fin0] [j hyp] s1 [A1 fin1] s2 [HA (added & Hfin & Hadded)] Hin Hstep.
        simpl in HA, Hfin. subst fin0.
        apply alsd_extend_inv in Hstep.
        destruct Hstep as (_ & blank_logp & te & new_hyps & _ & Hte & Hnew & -> & ->).
        apply In_enumerate in Hin. rewrite <- EB in Hin.
        rewrite nth_error_map in Hin. rewrite nth_error_map in Hte.
        destruct (nth_error live j) as [[hyp' te'] | ] eqn:El; [ | discriminate].
        simpl in Hin, Hte. injection Hin as ->. injection Hte as ->.
        rewrite Forall_forall in HQ.
        destruct (HQ (hyp, te) (nth_error_In _ _ El)) as [Hhyp Ht]. simpl in Hhyp, Ht.
        simpl. split.
        + apply Forall_app. split.
          * apply Forall_app. split; [exact HA | ].
            constructor; [ | constructor].
            apply (at_most_labels_same (h := hyp)); [reflexivity | ].
            apply (at_most_labels_mono (n := n)); [lia | exact Hhyp].
          * eapply expand_hyp_labels_ext; [exact Hnew | exact Hhyp].
        + destruct (Z.eqb_spec (fst te) (t_max - 1)) as [Hlast | _].
          * exists (added ++ [alsd_blank_ext hyp blank_logp]).
            rewrite app_assoc. split; [reflexivity | ].
            apply Forall_app. split; [exact Hadded | ].
            constructor; [ | constructor]. split.
            -- apply (at_most_labels_same (h := hyp)); [reflexivity | exact Hhyp].
            -- simpl. lia.
          * exists added. split; [reflexivity | exact Hadded]. }
    destruct Hinv as [HA Hfin]. split; [ | exact Hfin].
    apply recombine_hyps_Forall.
    + intros h h' Hl. apply at_most_labels_same. exact Hl.
    + apply Forall_slice_sorted. exact HA.
Qed.

(** X6.  On an input of one frame ALSD returns the initial hypothesis, the
    blank alone with score zero, whatever the networks say and whatever
    [nbest] is: its only turn finds no live hypothesis, since the frame it
    looks for is frame 1. *)
Theorem alsd_single_frame (e : Frame) (c : Cache) :
  exists h,
    align_length_sync_decoding self logaddexp [e] c = Ok ([h], c) /\
    label_seq h = [blank_id (decoder self)] /\
    score h = zero N.
Proof.
  assert (H : align_length_sync_decoding self logaddexp [e] c
              = Ok (fst (batched_init self (alsd_beam self)), c)).
  { unfold align_length_sync_decoding, alsd_positions, alsd_u_max, range.
    change (Z.of_nat (length [e])) with 1%Z.
    destruct (Z.to_nat (1 + Z.min (u_max self) (1 - 1))) as [ | [ | k]] eqn:E; [ | | lia].
    - reflexivity.
    - reflexivity. }
  unfold batched_init in H. simpl fst in H.
  eexists. split; [exact H | split; reflexivity].
Qed.

Lemma alsd_select_first_frame (e e' : Frame) (rest : list Frame) (t_max : Z) (i : nat)
  (acc : list (hypothesis N DecState LmState * (Z * Frame)))
  (hyp : hypothesis N DecState LmState) (s : Cache) :
  length (label_seq hyp) <= S i ->
  alsd_select (e :: rest) t_max (Z.of_nat i) acc hyp s
  = alsd_select (e' :: rest) t_max (Z.of_nat i) acc hyp s.
Proof.
  intros Hlen. unfold alsd_select.
  set (t := (Z.of_nat i - (Z.of_nat (length (label_seq hyp)) - 1) + 1)%Z).
  assert (Ht : (1 <= t)%Z) by (unfold t; lia).
  destruct (t_max - 1 <? t)%Z; [reflexivity | ].
  unfold getitem. destruct (Z.leb_spec 0 t) as [_ | Hneg]; [ | lia].
  destruct (Z.to_nat t) as [ | m] eqn:E; [lia | ]. reflexivity.
Qed.

(** X7.  ALSD never reads the first encoder frame: a hypothesis with [u]
    labels is given frame [i - u + 1] in turn [i], and has at most [i]
    labels by then.  Two inputs that differ in their first frame only give
    the same outcome. *)
Theorem alsd_first_frame_unused (e e' : Frame) (rest : list Frame) (c : Cache) :
  align_length_sync_decoding self logaddexp (e :: rest) c
  = align_length_sync_decoding self logaddexp (e' :: rest) c.
Proof.
  unfold align_length_sync_decoding, alsd_positions, alsd_loop.
  change (length (e' :: rest)) with (length (e :: rest)).
  set (T := Z.of_nat (length (e :: rest))).
  destruct (batched_init self (alsd_beam self)) as [B bs] eqn:Einit.
  assert (HB : Forall (at_most_labels self 0) B).
  { pose proof (at_most_labels_init self (alsd_beam self)) as Hi.
    rewrite Einit in Hi. exact Hi. }
  unfold bind.
  rewrite (for_each_ext_idx
             (fun k (st : list (hypothesis N DecState LmState)
                          * list (hypothesis N DecState LmState) * DecState) =>
                Forall (at_most_labels self k) (fst (fst st)))
             (alsd_round self logaddexp (e :: rest) T)
             (alsd_round self logaddexp (e' :: rest) T)
             (range (T + alsd_u_max self T)) 0 (B, [], bs) c HB); [reflexivity | ].
  intros j [[B0 final0] bs0] a s1 Ha HB0. simpl in HB0.
  apply range_nth in Ha. subst a. split.
  - unfold alsd_round. unfold bind at 1 3.
    rewrite (for_each_ext_In
               (alsd_select (e :: rest) T (Z.of_nat j))
               (alsd_select (e' :: rest) T (Z.of_nat j)) B0); [reflexivity | ].
    intros acc hyp s Hin. apply alsd_select_first_frame.
    rewrite Forall_forall in HB0. eapply at_most_labels_length. exact (HB0 hyp Hin).
  - intros [[B1 final1] bs1] s2 Hround. simpl.
    eapply alsd_round_labels in Hround; [exact (proj1 Hround) | exact HB0].
Qed.

(** X8.  When ALSD returns, its loop has ended with a beam [B] and a
    collection [final] of which the result is made; every hypothesis of
    that [final] is the blank followed by at most [u_max + 1] labels, and
    every hypothesis of that [B] by at most [t_max + u_max], with [u_max]
    the bound [min(self.u_max, t_max - 1)] of line 366; no label is 0. *)
Theorem alsd_label_bounds (enc_out : list Frame) (c c' : Cache)
  (r : list (hypothesis N DecState LmState)) :
  align_length_sync_decoding self logaddexp enc_out c = Ok (r, c') ->
  let T := Z.of_nat (length enc_out) in
  exists B final bs,
    for_each (alsd_round self logaddexp enc_out T) (alsd_positions self enc_out)
             (fst (batched_init self (alsd_beam self)), [],
              snd (batched_init self (alsd_beam self))) c
    = Ok (B, final, bs, c') /\
    r = match final with
        | _ :: _ => sort_nbest self (fun h => h) final
        | [] => B
        end /\
    Forall (at_most_labels self (Z.to_nat (alsd_u_max self T + 1))) final /\
    Forall (at_most_labels self (Z.to_nat (T + alsd_u_max self T))) B.
Proof.
  intros H T. apply alsd_result in H. destruct H as (B & final & bs & Hloop & Hr).
  exists B, final, bs. split; [exact Hloop | ]. split; [exact Hr | ]. fold T in Hloop.
  set (P := fun k (st : list (hypothesis N DecState LmState)
                        * list (hypothesis N DecState LmState) * DecState) =>
              Forall (at_most_labels self k) (fst (fst st)) /\
              Forall (fun h => at_most_labels self k h /\
                        (Z.of_nat (length (label_seq h)) <= Z.of_nat k - T + 2)%Z)
                     (snd (fst st))).
  assert (Hend : P (0 + length (alsd_positions self enc_out)) (B, final, bs)).
  { eapply for_each_idx with (P := P) (k := 0); [ | | exact Hloop].
    - split; simpl; [apply at_most_labels_init | constructor].
    - intros j [[B0 final0] bs0] a s1 [[B1 final1] bs1] s2 Ha [HB0 Hf0] Hround.
      cbn [fst snd Nat.add] in HB0, Hf0. unfold P. cbn [fst snd Nat.add].
      apply range_nth in Ha. subst a.
      eapply alsd_round_labels in Hround; [ | exact HB0].
      destruct Hround as [HB1 (added & -> & Hadded)].
      split; [exact HB1 | ]. apply Forall_app. split.
      + eapply Forall_impl; [ | exact Hf0]. intros h [Hh Hlen]. split.
        * apply (at_most_labels_mono (n := j)); [lia | exact Hh].
        * lia.
      + eapply Forall_impl; [ | exact Hadded]. intros h [Hh Hlen]. split.
        * apply (at_most_labels_mono (n := j)); [lia | exact Hh].
        * lia. }
  unfold alsd_positions in Hend. fold T in Hend. rewrite range_length in Hend.
  unfold P in Hend. cbn [fst snd Nat.add] in Hend.
  destruct Hend as [HB Hfinal]. split; [ | exact HB].
  destruct enc_out as [ | e0 enc_rest].
  { rewrite alsd_positions_nil in Hloop. cbn [for_each] in Hloop.
    apply ret_ok in Hloop. destruct Hloop as [Heq _]. injection Heq as _ -> _. constructor. }
  eapply Forall_impl; [ | exact Hfinal]. intros h [(ls & Hl & _ & Hall) Hlen].
  exists ls. split; [exact Hl | split; [ | exact Hall]].
  rewrite Hl in Hlen. simpl length in Hlen.
  assert (HT : (1 <= T)%Z) by (unfold T; simpl length; lia). lia.
Qed.

End AlsdFrames.

(** ALSD on the two frames of [alsd_stub]. *)
Lemma alsd_label_bounds_witness :
  exists r B final bs,
    align_length_sync_decoding alsd_stub Plogaddexp [0; 1] tt = Ok (r, tt) /\
    for_each (alsd_round alsd_stub Plogaddexp [0; 1] 2) (alsd_positions alsd_stub [0; 1])
             (fst (batched_init alsd_stub (alsd_beam alsd_stub)), [],
              snd (batched_init alsd_stub (alsd_beam alsd_stub))) tt
    = Ok (B, final, bs, tt) /\
    r = match final with
        | _ :: _ => sort_nbest alsd_stub (fun h => h) final
        | [] => B
        end /\
    Forall (at_most_labels alsd_stub 2) final /\
    Forall (at_most_labels alsd_stub 3) B.
Proof.
  assert (Hrun : exists r, align_length_sync_decoding alsd_stub Plogaddexp [0; 1] tt
                           = Ok (r, tt)).
  { eexists. vm_compute. reflexivity. }
  destruct Hrun as (r & Hrun). exists r.
  destruct (alsd_label_bounds alsd_stub Plogaddexp [0; 1] tt Hrun) as (B & final & bs & H).
  exists B, final, bs. split; [exact Hrun | exact H].
Defined.

(** ** Time synchronous decoding *)

Section TsdLabels.
Variable N : Arith.
Variables Frame DecOut DecState Tokens LmState LmStates Cache : Type.
Variable self : BeamSearchTransducer N Frame DecOut DecState Tokens LmState LmStates Cache.
Variable logaddexp : num N -> num N -> num N.

Lemma sort_nbest_Forall {H : Type} (P : H -> Prop) (hyp_of : H -> hypothesis N DecState LmState)
  (hyps : list H) :
  Forall P hyps -> Forall P (sort_nbest self hyp_of hyps).
Proof.
  unfold sort_nbest. destruct (score_norm self); apply Forall_slice_sorted.
Qed.

Lemma tsd_merge_blank_Forall (P : hypothesis N DecState LmState -> Prop) seq_A beam_logp :
  (forall h h', label_seq h' = label_seq h -> P h -> P h') ->
  forall (l : list (nat * hypothesis N DecState LmState)) A (c : Cache) A' c',
    for_each (tsd_merge_blank logaddexp seq_A beam_logp) l A c = Ok (A', c') ->
    Forall P A -> Forall (fun ih => P (snd ih)) l -> Forall P A'.
Proof.
  intros HP l A c A' c' H HA Hl.
  refine (for_each_inv (Forall P) _ l A c HA _ H).
  intros A0 [i hyp] s1 A1 s2 HA0 Hin Hstep.
  apply tsd_merge_blank_inv in Hstep. destruct Hstep as (_ & blank_logp & _ & Hcase).
  rewrite Forall_forall in Hl. specialize (Hl (i, hyp) Hin). simpl in Hl.
  destruct (seq_index seq_A (label_seq hyp)); subst A1.
  - apply Forall_update_at; [ | exact HA0]. intros a. apply HP. reflexivity.
  - apply Forall_app. split; [exact HA0 | ]. constructor; [ | constructor].
    apply (HP hyp); [reflexivity | exact Hl].
Qed.

Lemma enumerate_Forall {A : Type} (P : A -> Prop) (l : list A) :
  Forall P l -> Forall (fun ix => P (snd ix)) (enumerate l).
Proof.
  rewrite !Forall_forall. intros H [i x] Hin. simpl.
  apply In_enumerate in Hin. apply nth_error_In in Hin. exact (H x Hin).
Qed.

Lemma Forall2_Forall_r_In {A B : Type} (R : A -> B -> Prop) (P : B -> Prop)
  (l : list A) (r : list B) :
  Forall2 R l r -> (forall a b, In a l -> R a b -> P b) -> Forall P r.
Proof.
  induction 1 as [ | a b l r Hab _ IH]; intros HP; constructor.
  - exact (HP a b (or_introl eq_refl) Hab).
  - apply IH. intros a0 b0 Hin. apply HP. right. exact Hin.
Qed.

Lemma slice_to_nil {A : Type} (n : Z) : slice_to n (@nil A) = [].
Proof. unfold slice_to. destruct (0 <=? n)%Z; apply firstn_nil. Qed.

Lemma tsd_round_labels (e : Frame) A C bs (v : Z) (c : Cache) A' C' bs' c' (n m : nat) :
  tsd_round self logaddexp e (A, C, bs) v c = Ok (A', C', bs', c') ->
  Forall (at_most_labels self n) C -> Forall (at_most_labels self m) A -> n <= m ->
  Forall (at_most_labels self m) A' /\
  ((v <? max_sym_exp self - 1)%Z = true -> Forall (at_most_labels self (S n)) C') /\
  ((v <? max_sym_exp self - 1)%Z = false -> C' = []).
Proof.
  intros H HC HA Hnm. unfold tsd_round in H.
  apply bind_ok in H. destruct H as ([[bdo bs1] tok] & c1 & _ & H).
  apply bind_ok in H. destruct H as (beam_topk & c2 & _ & H).
  apply bind_ok in H. destruct H as (A1 & c3 & Hmerge & H).
  apply bind_ok in H. destruct H as (D & c4 & HD & H).
  apply ret_ok in H. destruct H as [Heq _]. injection Heq as -> -> ->.
  split; [ | split].
  - eapply tsd_merge_blank_Forall; [ | exact Hmerge | exact HA | ].
    + intros h h' Hl. apply at_most_labels_same. exact Hl.
    + apply enumerate_Forall. eapply Forall_impl; [ | exact HC].
      intros h. apply at_most_labels_mono. exact Hnm.
  - intros Hv. rewrite Hv in HD. apply Forall_slice_sorted.
    apply bind_ok in HD. destruct HD as (Ds & c5 & HDs & HD).
    apply ret_ok in HD. destruct HD as [-> _].
    apply map_m_ok in HDs. apply Forall_concat.
    eapply Forall2_Forall_r_In; [exact HDs | ].
    intros [i hyp] new_hyps Hin (s1 & s2 & Hexp).
    apply In_enumerate in Hin. apply nth_error_In in Hin.
    rewrite Forall_forall in HC.
    eapply expand_hyp_labels_ext; [exact Hexp | exact (HC hyp Hin)].
  - intros Hv. rewrite Hv in HD. apply ret_ok in HD. destruct HD as [-> _].
    apply slice_to_nil.
Qed.

Lemma tsd_frame_labels (e : Frame) B bs (c : Cache) B' bs' c' (n : nat) :
  tsd_frame self logaddexp (B, bs) e c = Ok (B', bs', c') ->
  Forall (at_most_labels self n) B ->
  Forall (at_most_labels self (n + Z.to_nat (max_sym_exp self - 1))) B'.
Proof.
  intros H HB. unfold tsd_frame in H. set (M := Z.to_nat (max_sym_exp self - 1)).
  apply bind_ok in H. destruct H as ([[A C] bs1] & c1 & Hloop & H).
  apply ret_ok in H. destruct H as [Heq _]. injection Heq as -> ->.
  apply Forall_slice_sorted.
  set (P := fun k (st : list (hypothesis N DecState LmState)
                        * list (hypothesis N DecState LmState) * DecState) =>
              Forall (at_most_labels self (n + M)) (fst (fst st)) /\
              Forall (at_most_labels self (n + Nat.min k M)) (snd (fst st))).
  assert (Hend : P (0 + length (range (max_sym_exp self))) (A, C, bs1)).
  { eapply for_each_idx with (P := P) (k := 0); [ | | exact Hloop].
    - split; cbn [fst snd]; [constructor | ].
      eapply Forall_impl; [ | exact HB]. intros h. apply at_most_labels_mono. lia.
    - intros j [[A0 C0] bs0] a s1 [[A1 C1] bs2] s2 Ha [HA0 HC0] Hround.
      cbn [fst snd Nat.add] in HA0, HC0. unfold P. cbn [fst snd Nat.add].
      apply range_nth in Ha. subst a.
      eapply tsd_round_labels in Hround; [ | exact HC0 | exact HA0 | lia].
      destruct Hround as (HA1 & Hgrow & Hstop). split; [exact HA1 | ].
      destruct (Z.of_nat j <? max_sym_exp self - 1)%Z eqn:Ev.
      + apply Z.ltb_lt in Ev. specialize (Hgrow eq_refl).
        eapply Forall_impl; [ | exact Hgrow]. intros h. apply at_most_labels_mono.
        unfold M. lia.
      + rewrite (Hstop eq_refl). constructor. }
  exact (proj1 Hend).
Qed.

(** X9.  TSD appends at most [max_sym_exp - 1] labels per frame: every
    hypothesis it returns is the blank followed by at most
    [(max_sym_exp - 1) * T] labels, none of which is 0.  With
    [max_sym_exp <= 1] it can only return the blank alone. *)
Theorem tsd_label_bound (enc_out : list Frame) (c c' : Cache)
  (r : list (hypothesis N DecState LmState)) :
  time_sync_decoding self logaddexp enc_out c = Ok (r, c') ->
  Forall (at_most_labels self (Z.to_nat (max_sym_exp self - 1) * length enc_out)) r.
Proof.
  intros H. unfold time_sync_decoding in H. set (M := Z.to_nat (max_sym_exp self - 1)).
  apply bind_ok in H. destruct H as ([B bs] & c1 & Hloop & H).
  apply ret_ok in H. destruct H as [-> _]. apply sort_nbest_Forall.
  set (P := fun k (st : list (hypothesis N DecState LmState) * DecState) =>
              Forall (at_most_labels self (M * k)) (fst st)).
  assert (Hend : P (0 + length enc_out) (B, bs)).
  { eapply for_each_idx with (P := P) (k := 0); [ | | exact Hloop].
    - unfold P. rewrite Nat.mul_0_r. apply at_most_labels_init.
    - intros j [B0 bs0] e s1 [B1 bs1] s2 _ HB0 Hframe. unfold P in *.
      cbn [fst snd Nat.add] in *.
      eapply tsd_frame_labels in Hframe; [ | exact HB0].
      eapply Forall_impl; [ | exact Hframe]. intros h. apply at_most_labels_mono.
      fold M. lia. }
  exact Hend.
Qed.

End TsdLabels.

(** TSD on the two frames of [tsd_two_paths], two expansions per frame. *)
Lemma tsd_label_bound_witness :
  exists r,
    time_sync_decoding tsd_two_paths Plogaddexp [0; 1] tt = Ok (r, tt) /\
    Forall (at_most_labels tsd_two_paths 2) r.
Proof.
  assert (Hrun : exists r, time_sync_decoding tsd_two_paths Plogaddexp [0; 1] tt
                           = Ok (r, tt)).
  { eexists. vm_compute. reflexivity. }
  destruct Hrun as (r & Hrun). exists r. split; [exact Hrun | ].
  exact (tsd_label_bound tsd_two_paths Plogaddexp [0; 1] tt Hrun).
Defined.

(** ** N-step constrained beam search *)

Section NscLabels.
Variable N : Arith.
Variables Frame DecOut DecState Tokens LmState LmStates Cache : Type.
Variable self : BeamSearchTransducer N Frame DecOut DecState Tokens LmState LmStates Cache.
Variable logaddexp : num N -> num N -> num N.

Lemma same_but_score_refl (h : nsc_hypothesis N DecOut DecState LmState) : same_but_score h h.
Proof. repeat split. Qed.

Lemma same_but_score_trans (h1 h2 h3 : nsc_hypothesis N DecOut DecState LmState) :
  same_but_score h1 h2 -> same_but_score h2 h3 -> same_but_score h1 h3.
Proof.
  intros (A1 & A2 & A3 & A4 & A5) (B1 & B2 & B3 & B4 & B5).
  repeat split; congruence.
Qed.

(** The condition of lines 534-537 under which [hyp_i] adds to [hyp_j]. *)
Lemma nsc_merge_pair_inv (e : Frame) (hyp_j hyp_i h' : nsc_hypothesis N DecOut DecState LmState)
  (c c' : Cache) :
  nsc_merge_pair self logaddexp e hyp_j hyp_i c = Ok (h', c') ->
  same_but_score hyp_j h' /\
  (is_prefix (label_seq hyp_j) (label_seq hyp_i)
   && (Z.of_nat (length (label_seq hyp_j)) - Z.of_nat (length (label_seq hyp_i))
       <=? prefix_alpha self)%Z = false -> h' = hyp_j).
Proof.
  unfold nsc_merge_pair. intros H.
  destruct (is_prefix (label_seq hyp_j) (label_seq hyp_i)
            && (Z.of_nat (length (label_seq hyp_j)) - Z.of_nat (length (label_seq hyp_i))
                <=? prefix_alpha self)%Z).
  - apply bind_ok in H. destruct H as (x & s & _ & H).
    apply ret_ok in H. destruct H as [-> _]. split; [ | discriminate].
    repeat split.
  - apply ret_ok in H. destruct H as [-> _]. split; [apply same_but_score_refl | reflexivity].
Qed.

Lemma nsc_merge_row (e : Frame) :
  forall (rest : list (nsc_hypothesis N DecOut DecState LmState)) hyp_j (c c' : Cache) h',
    for_each (nsc_merge_pair self logaddexp e) rest hyp_j c = Ok (h', c') ->
    same_but_score hyp_j h' /\
    ((forall hyp_i, In hyp_i rest ->
        is_prefix (label_seq hyp_j) (label_seq hyp_i)
        && (Z.of_nat (length (label_seq hyp_j)) - Z.of_nat (length (label_seq hyp_i))
            <=? prefix_alpha self)%Z = false) ->
     h' = hyp_j).
Proof.
  induction rest as [ | hyp_i rest IH]; intros hyp_j c c' h' H; cbn [for_each] in H.
  - apply ret_ok in H. destruct H as [-> _]. split; [apply same_but_score_refl | reflexivity].
  - apply bind_ok in H. destruct H as (h1 & c1 & Hpair & H).
    apply nsc_merge_pair_inv in Hpair. destruct Hpair as [Hsame Hkeep].
    apply IH in H. destruct H as [Hsame' Hkeep']. split.
    + exact (same_but_score_trans Hsame Hsame').
    + intros Hnone. assert (E : h1 = hyp_j) by (apply Hkeep, Hnone; left; reflexivity).
      subst h1. apply Hkeep'. intros x Hx. apply Hnone. right. exact Hx.
Qed.

(** The hypotheses stay in place and only their scores change; the score
    stays as well where no later hypothesis is a prefix within
    [prefix_alpha]. *)
Lemma nsc_prefix_merge_inv (e : Frame)
  (hyps hyps' : list (nsc_hypothesis N DecOut DecState LmState)) (c c' : Cache) :
  nsc_prefix_merge self logaddexp e hyps c = Ok (hyps', c') ->
  Forall2 (@same_but_score N DecOut DecState LmState) hyps hyps' /\
  forall j hyp_j hyp_j',
    nth_error hyps j = Some hyp_j -> nth_error hyps' j = Some hyp_j' ->
    (forall hyp_i, In hyp_i (skipn (S j) hyps) ->
       is_prefix (label_seq hyp_j) (label_seq hyp_i)
       && (Z.of_nat (length (label_seq hyp_j)) - Z.of_nat (length (label_seq hyp_i))
           <=? prefix_alpha self)%Z = false) ->
    hyp_j' = hyp_j.
Proof.
  revert hyps' c c'. induction hyps as [ | h rest IH]; intros hyps' c c' H;
    cbn [nsc_prefix_merge] in H.
  - apply ret_ok in H. destruct H as [-> _]. split; [constructor | ].
    intros [ | j] hyp_j hyp_j' Hj; discriminate Hj.
  - apply bind_ok in H. destruct H as (h1 & c1 & Hrow & H).
    apply bind_ok in H. destruct H as (rest1 & c2 & Hrest & H).
    apply ret_ok in H. destruct H as [-> _].
    apply nsc_merge_row in Hrow. destruct Hrow as [Hsame Hkeep].
    apply IH in Hrest. destruct Hrest as [Hall Hkeeps]. split.
    + constructor; assumption.
    + intros [ | j] hyp_j hyp_j' Hj Hj' Hnone; simpl in Hj, Hj'.
      * injection Hj as <-. injection Hj' as <-. apply Hkeep. exact Hnone.
      * exact (Hkeeps j hyp_j hyp_j' Hj Hj' Hnone).
Qed.

(** X10.  The prefix merge of NSC (lines 529-555) changes scores and
    nothing else: the hypotheses stay in place with their label sequences,
    states, decoder outputs and LM scores; and a hypothesis keeps its score
    too when none of the hypotheses after it is a proper prefix of it within
    [prefix_alpha] labels. *)
Theorem nsc_prefix_merge_scores_only (e : Frame)
  (hyps hyps' : list (nsc_hypothesis N DecOut DecState LmState)) (c c' : Cache) :
  nsc_prefix_merge self logaddexp e hyps c = Ok (hyps', c') ->
  Forall2 (@same_but_score N DecOut DecState LmState) hyps hyps' /\
  forall j hyp_j hyp_j',
    nth_error hyps j = Some hyp_j -> nth_error hyps' j = Some hyp_j' ->
    (forall hyp_i, In hyp_i (skipn (S j) hyps) ->
       is_prefix (label_seq hyp_j) (label_seq hyp_i)
       && (Z.of_nat (length (label_seq hyp_j)) - Z.of_nat (length (label_seq hyp_i))
           <=? prefix_alpha self)%Z = false) ->
    hyp_j' = hyp_j.
Proof. apply nsc_prefix_merge_inv. Qed.

End NscLabels.

(** The prefix merge of [nsc_stub] on a hypothesis and its prefix. *)
Lemma nsc_prefix_merge_scores_only_witness :
  exists hyps',
    nsc_prefix_merge nsc_stub Plogaddexp 0
      [nsc_survivor; NSCHyp (@Hyp Pscore unit unit (1 # 2)%Q [0] tt None) [[0]] None] tt
    = Ok (hyps', tt) /\
    Forall2 (@same_but_score Pscore (list nat) unit unit)
      [nsc_survivor; NSCHyp (@Hyp Pscore unit unit (1 # 2)%Q [0] tt None) [[0]] None] hyps'.
Proof.
  assert (Hrun : exists hyps',
             nsc_prefix_merge nsc_stub Plogaddexp 0
               [nsc_survivor; NSCHyp (@Hyp Pscore unit unit (1 # 2)%Q [0] tt None) [[0]] None] tt
             = Ok (hyps', tt)).
  { eexists. vm_compute. reflexivity. }
  destruct Hrun as (hyps' & Hrun). exists hyps'. split; [exact Hrun | ].
  exact (proj1 (nsc_prefix_merge_scores_only nsc_stub Plogaddexp 0 _ tt Hrun)).
Defined.

Section NscBound.
Variable N : Arith.
Variables Frame DecOut DecState Tokens LmState LmStates Cache : Type.
Variable self : BeamSearchTransducer N Frame DecOut DecState Tokens LmState LmStates Cache.
Variable logaddexp : num N -> num N -> num N.

Lemma within_mono n m (l : list (nsc_hypothesis N DecOut DecState LmState)) :
  n <= m -> Forall (fun h : nsc_hypothesis N DecOut DecState LmState => at_most_labels self n (base h)) l -> Forall (fun h : nsc_hypothesis N DecOut DecState LmState => at_most_labels self m (base h)) l.
Proof.
  intros Hnm. apply Forall_impl. intros h. apply at_most_labels_mono. exact Hnm.
Qed.

Lemma filter_Forall {A : Type} (P : A -> Prop) (f : A -> bool) (l : list A) :
  Forall P l -> Forall P (filter f l).
Proof.
  rewrite !Forall_forall. intros H x Hx. apply filter_In in Hx. exact (H x (proj1 Hx)).
Qed.

Lemma nsc_expand_labels (e : Frame) hyps S_ V bs (c : Cache) S' V' bs' bdo lm_out c' n :
  nsc_expand self e hyps S_ V bs c = Ok (S', V', bs', bdo, lm_out, c') ->
  Forall (fun h : nsc_hypothesis N DecOut DecState LmState => at_most_labels self n (base h)) hyps -> Forall (fun h : nsc_hypothesis N DecOut DecState LmState => at_most_labels self n (base h)) S_ -> Forall (fun h : nsc_hypothesis N DecOut DecState LmState => at_most_labels self n (base h)) V ->
  Forall (fun h : nsc_hypothesis N DecOut DecState LmState => at_most_labels self n (base h)) S' /\ Forall (fun h : nsc_hypothesis N DecOut DecState LmState => at_most_labels self (S n) (base h)) V'.
Proof.
  intros H Hh HS HV. unfold nsc_expand in H.
  apply bind_ok in H. destruct H as (last_out & c1 & _ & H).
  apply bind_ok in H. destruct H as (beam_dec_out & c2 & _ & H).
  apply bind_ok in H. destruct H as (beam_topk & c3 & _ & H).
  apply bind_ok in H. destruct H as ([S1 V1] & c4 & Hloop & H).
  apply bind_ok in H. destruct H as ([[bdo1 bs1] tok] & c5 & _ & H).
  apply ret_ok in H. destruct H as [Heq _]. injection Heq as -> -> -> -> ->.
  assert (Hinv : Forall (fun h : nsc_hypothesis N DecOut DecState LmState => at_most_labels self n (base h)) S1 /\ Forall (fun h : nsc_hypothesis N DecOut DecState LmState => at_most_labels self (S n) (base h)) V1).
  { refine (for_each_inv
              (fun st : list (nsc_hypothesis N DecOut DecState LmState) * list (nsc_hypothesis N DecOut DecState LmState) =>
                 Forall (fun h : nsc_hypothesis N DecOut DecState LmState => at_most_labels self n (base h)) (fst st) /\ Forall (fun h : nsc_hypothesis N DecOut DecState LmState => at_most_labels self (S n) (base h)) (snd st))
              _ _ _ _ _ _ Hloop).
    - split; cbn [fst snd]; [exact HS | ]. apply (within_mono (n := n)); [lia | exact HV].
    - intros [S0 V0] [i hyp] s1 [S2 V2] s2 [HS0 HV0] Hin Hstep. cbn [fst snd] in *.
      apply nsc_expand_hyp_inv in Hstep.
      destruct Hstep as (_ & blank_logp & new_hyps & -> & -> & Hnew).
      apply In_enumerate in Hin. apply nth_error_In in Hin.
      rewrite Forall_forall in Hh. specialize (Hh hyp Hin). split.
      + apply Forall_app. split; [exact HS0 | ]. constructor; [ | constructor].
        eapply at_most_labels_same; [ | exact Hh]. reflexivity.
      + apply Forall_app. split; [exact HV0 | ].
        eapply Forall_impl; [ | exact Hnew]. intros v (_ & _ & k & Hk).
        eapply at_most_labels_ext; [exact Hk | exact Hh]. }
  destruct Hinv as [HS1 HV1]. split; [exact HS1 | ].
  rewrite Forall_forall. intros v Hv. apply slice_to_In in Hv.
  unfold substract in Hv. apply filter_In in Hv. destruct Hv as [Hv _].
  unfold sorted_desc in Hv. apply sort_by_In in Hv.
  rewrite Forall_forall in HV1. exact (HV1 v Hv).
Qed.

Lemma map_m_labels (f : nat * (nsc_hypothesis N DecOut DecState LmState) -> M Cache (nsc_hypothesis N DecOut DecState LmState))
  (V V' : list (nsc_hypothesis N DecOut DecState LmState))
  (c c' : Cache) n :
  (forall i v s1 v' s2, f (i, v) s1 = Ok (v', s2) -> label_seq v' = label_seq v) ->
  map_m f (enumerate V) c = Ok (V', c') ->
  Forall (fun h : nsc_hypothesis N DecOut DecState LmState => at_most_labels self n (base h)) V -> Forall (fun h : nsc_hypothesis N DecOut DecState LmState => at_most_labels self n (base h)) V'.
Proof.
  intros Hf H HV. apply map_m_ok in H.
  eapply Forall2_Forall_r_In; [exact H | ].
  intros [i v] v' Hin (s1 & s2 & Hv). cbn beta.
  apply In_enumerate in Hin. apply nth_error_In in Hin.
  rewrite Forall_forall in HV.
  eapply at_most_labels_same; [ | exact (HV v Hin)]. exact (Hf i v s1 v' s2 Hv).
Qed.

Lemma nsc_round_labels (e : Frame) hyps S_ V bs (j : Z) (c : Cache) hyps' S' V' bs' c' n :
  nsc_round self e (hyps, S_, V, bs) j c = Ok (hyps', S', V', bs', c') ->
  Forall (fun h : nsc_hypothesis N DecOut DecState LmState => at_most_labels self n (base h)) hyps -> Forall (fun h : nsc_hypothesis N DecOut DecState LmState => at_most_labels self n (base h)) S_ -> Forall (fun h : nsc_hypothesis N DecOut DecState LmState => at_most_labels self n (base h)) V ->
  Forall (fun h : nsc_hypothesis N DecOut DecState LmState => at_most_labels self (S n) (base h)) hyps' /\ Forall (fun h : nsc_hypothesis N DecOut DecState LmState => at_most_labels self (S n) (base h)) S' /\ Forall (fun h : nsc_hypothesis N DecOut DecState LmState => at_most_labels self (S n) (base h)) V'.
Proof.
  intros H Hh HS HV. unfold nsc_round in H.
  apply bind_ok in H. destruct H as ([[[[S1 V1] bs1] bdo] lm_out] & c1 & Hexp & H).
  eapply nsc_expand_labels in Hexp; [ | exact Hh | exact HS | exact HV].
  destruct Hexp as [HS1 HV1]. unfold nsc_close in H.
  destruct (j <? nstep self - 1)%Z.
  - apply bind_ok in H. destruct H as (V2 & c2 & Hmap & H).
    apply ret_ok in H. destruct H as [Heq _]. injection Heq as -> -> -> ->.
    assert (HV2 : Forall (fun h : nsc_hypothesis N DecOut DecState LmState => at_most_labels self (S n) (base h)) V2).
    { eapply map_m_labels; [ | exact Hmap | exact HV1].
      intros i v s1 v' s2 Hr. apply nsc_refresh_keeps in Hr. exact (proj2 Hr). }
    split; [exact HV2 | split; [ | exact HV2]].
    apply (within_mono (n := n)); [lia | exact HS1].
  - apply bind_ok in H. destruct H as (V2 & c2 & Hmap & H).
    apply ret_ok in H. destruct H as [Heq _]. injection Heq as -> -> -> ->.
    split; [apply (within_mono (n := n)); [lia | exact Hh] | split].
    + apply (within_mono (n := n)); [lia | exact HS1].
    + eapply map_m_labels; [ | exact Hmap | exact HV1].
      intros i v s1 v' s2 Hr. apply nsc_final_score in Hr. exact (proj1 Hr).
Qed.

Lemma nsc_frame_labels (e : Frame) kept bs (c : Cache) kept' bs' c' n :
  nsc_frame self logaddexp (kept, bs) e c = Ok (kept', bs', c') ->
  Forall (fun h : nsc_hypothesis N DecOut DecState LmState => at_most_labels self n (base h)) kept ->
  Forall (fun h : nsc_hypothesis N DecOut DecState LmState => at_most_labels self (n + Z.to_nat (nstep self)) (base h)) kept'.
Proof.
  intros H Hk. unfold nsc_frame in H.
  apply bind_ok in H. destruct H as (hyps & c1 & Hmerge & H).
  apply bind_ok in H. destruct H as ([[[hyps1 S1] V1] bs1] & c2 & Hloop & H).
  apply ret_ok in H. destruct H as [Heq _]. injection Heq as -> ->.
  apply nsc_prefix_merge_inv in Hmerge. destruct Hmerge as [Hsame _].
  assert (Hh : Forall (fun h : nsc_hypothesis N DecOut DecState LmState => at_most_labels self n (base h)) hyps).
  { eapply Forall2_Forall_r_In; [exact Hsame | ].
    intros h h' Hin (Hl & _). cbn beta.
    apply sort_by_In in Hin. rewrite Forall_forall in Hk.
    eapply at_most_labels_same; [exact Hl | exact (Hk h Hin)]. }
  set (P := fun k (st : list (nsc_hypothesis N DecOut DecState LmState) * list (nsc_hypothesis N DecOut DecState LmState) * list (nsc_hypothesis N DecOut DecState LmState) * DecState) =>
              Forall (fun h : nsc_hypothesis N DecOut DecState LmState => at_most_labels self (n + k) (base h)) (fst (fst (fst st))) /\
              Forall (fun h : nsc_hypothesis N DecOut DecState LmState => at_most_labels self (n + k) (base h)) (snd (fst (fst st))) /\
              Forall (fun h : nsc_hypothesis N DecOut DecState LmState => at_most_labels self (n + k) (base h)) (snd (fst st))).
  assert (Hend : P (0 + length (range (nstep self))) (hyps1, S1, V1, bs1)).
  { eapply for_each_idx with (P := P) (k := 0); [ | | exact Hloop].
    - unfold P. cbn [fst snd]. rewrite Nat.add_0_r.
      split; [exact Hh | split; constructor].
    - intros j [[[h0 S0] V0] bs0] a s1 [[[h2 S2] V2] bs2] s2 _ (H1 & H2 & H3) Hround.
      unfold P in *. cbn [fst snd Nat.add] in *.
      eapply nsc_round_labels in Hround; [ | exact H1 | exact H2 | exact H3].
      rewrite Nat.add_succ_r. exact Hround. }
  rewrite range_length in Hend. destruct Hend as (_ & HS & HV). cbn [fst snd Nat.add] in *.
  apply Forall_slice_sorted. apply Forall_app. split; assumption.
Qed.

(** X11.  NSC appends at most [nstep] labels per frame: every hypothesis
    it returns is the blank followed by at most [nstep * T] labels, none of
    which is 0. *)
Theorem nsc_label_bound (enc_out : list Frame) (c c' : Cache) 
  (r : list (nsc_hypothesis N DecOut DecState LmState)) :
  nsc_beam_search self logaddexp enc_out c = Ok (r, c') ->
  Forall (fun h : nsc_hypothesis N DecOut DecState LmState =>
            at_most_labels self (Z.to_nat (nstep self) * length enc_out) (base h)) r.
Proof.
  intros H. unfold nsc_beam_search in H. set (M := Z.to_nat (nstep self)).
  apply bind_ok in H. destruct H as ([kept0 bs0] & c1 & Hinit & H).
  apply bind_ok in H. destruct H as ([kept bs] & c2 & Hloop & H).
  apply ret_ok in H. destruct H as [-> _]. apply sort_nbest_Forall.
  assert (H0 : Forall (fun h : nsc_hypothesis N DecOut DecState LmState => at_most_labels self 0 (base h)) kept0).
  { unfold nsc_init in Hinit.
    apply bind_ok in Hinit. destruct Hinit as ([[bdo bs1] tok] & c3 & _ & Hinit).
    apply bind_ok in Hinit. destruct Hinit as ([lm0 sc0] & c4 & _ & Hinit).
    apply bind_ok in Hinit. destruct Hinit as (d & c5 & _ & Hinit).
    apply ret_ok in Hinit. destruct Hinit as [Heq _]. injection Heq as -> ->.
    constructor; [ | constructor]. exists []. cbn.
    split; [reflexivity | split; [lia | constructor]]. }
  set (P := fun k (st : list (nsc_hypothesis N DecOut DecState LmState) * DecState) => Forall (fun h : nsc_hypothesis N DecOut DecState LmState => at_most_labels self (M * k) (base h)) (fst st)).
  assert (Hend : P (0 + length enc_out) (kept, bs)).
  { eapply for_each_idx with (P := P) (k := 0); [ | | exact Hloop].
    - unfold P. rewrite Nat.mul_0_r. exact H0.
    - intros j [k0 b0] e s1 [k1 b1] s2 _ Hk0 Hframe. unfold P in *.
      cbn [fst snd Nat.add] in *.
      eapply nsc_frame_labels in Hframe; [ | exact Hk0].
      eapply within_mono; [ | exact Hframe]. fold M. lia. }
  exact Hend.
Qed.

End NscBound.

(** NSC with two expansion steps on the two frames of [nsc_two_steps]. *)
Lemma nsc_label_bound_witness :
  exists r,
    nsc_beam_search nsc_two_steps Plogaddexp [0; 1] tt = Ok (r, tt) /\
    Forall (fun h : nsc_hypothesis Pscore (list nat) unit unit =>
              at_most_labels nsc_two_steps 4 (base h)) r.
Proof.
  assert (Hrun : exists r, nsc_beam_search nsc_two_steps Plogaddexp [0; 1] tt = Ok (r, tt)).
  { eexists. vm_compute. reflexivity. }
  destruct Hrun as (r & Hrun). exists r. split; [exact Hrun | ].
  exact (nsc_label_bound nsc_two_steps Plogaddexp [0; 1] tt Hrun).
Defined.

(** ** The default search under the contract of its oracles *)

Lemma topk_Some (N : Arith) (k : Z) (v : list (num N)) :
  (0 <= k <= Z.of_nat (length v))%Z ->
  exists top,
    topk N k v = Some top /\
    length top = Z.to_nat k /\
    Forall (fun p => snd p < length v) top.
Proof.
  intros Hk. unfold topk.
  destruct (Z.ltb_spec k 0) as [Hneg | _]; [lia | ].
  destruct (Z.ltb_spec (Z.of_nat (length v)) k) as [Hbig | _]; [lia | ].
  cbn [orb]. eexists. split; [reflexivity | split].
  - rewrite length_firstn. unfold sorted_desc. rewrite sort_by_length.
    rewrite length_combine, length_seq. lia.
  - rewrite Forall_forall. intros [x i] Hin. apply firstn_In in Hin.
    unfold sorted_desc in Hin. apply sort_by_In in Hin.
    apply in_combine_r in Hin. apply in_seq in Hin. simpl. lia.
Qed.

Lemma map_m_returns {St A B} (f : A -> M St B) (l : list A) (s : St) :
  (forall a, In a l -> exists b, f a s = Ok (b, s)) ->
  exists r, map_m f l s = Ok (r, s) /\ length r = length l.
Proof.
  induction l as [ | x l IH]; intros H; cbn [map_m].
  - exists []. split; reflexivity.
  - destruct (H x (or_introl eq_refl)) as (b & Hb).
    destruct IH as (r & Hr & Hlen); [intros a Ha; apply H; right; exact Ha | ].
    exists (b :: r). bind_with Hb; bind_with Hr.
    split; [reflexivity | simpl; rewrite Hlen; reflexivity].
Qed.

Section DefaultReturns.
Variable N : Arith.
Variables Frame DecOut DecState Tokens LmState LmStates Cache : Type.
Variable self : BeamSearchTransducer N Frame DecOut DecState Tokens LmState LmStates Cache.

Hypothesis joint_size :
  forall e d, Z.of_nat (length (joint_logp self e d)) = vocab_size self.
Hypothesis lm_size :
  forall l, lm self = Some l ->
            forall st tok, Z.of_nat (length (snd (predict l st tok))) = vocab_size self.
Hypothesis vocab_two : (2 <= vocab_size self)%Z.
Hypothesis beam_one : (1 <= beam_size self)%Z.

Lemma py_max_Some {K A : Type} (lt : K -> K -> bool) (key : A -> K) (l : list A) :
  l <> [] -> exists i x, py_max lt key l = Some (i, x).
Proof.
  destruct l as [ | x l]; [congruence | ]. intros _. simpl.
  destruct (max_loop lt key (0, x) 1 l) as [i y]. exists i, y. reflexivity.
Qed.

Lemma default_expand_returns (e : Frame) hyps kept (c : Cache) :
  hyps <> [] ->
  exists r c', default_expand self e hyps kept c = Ok (r, c') /\
               match r with
               | inl (hyps', _) => hyps' <> []
               | inr kept' => kept' <> []
               end.
Proof.
  intros Hne.
  assert (Hret : exists r c', default_expand self e hyps kept c = Ok (r, c')).
  { unfold default_expand.
    destruct (py_max_Some (ltb N) (@score N DecState LmState) Hne) as (i & max_hyp & Emax).
    rewrite Emax. cbn [or_raise]. rewrite bind_ret_intro.
    destruct (decoder_score (decoder self) max_hyp c) as [[[d st] tok] c1] eqn:Edec.
    assert (Ecall : call (decoder_score (decoder self) max_hyp) c = Ok ((d, st, tok), c1)).
    { unfold call. rewrite Edec. reflexivity. }
    bind_with Ecall.
    pose proof (joint_size e d) as Hsize.
    destruct (joint_logp self e d) as [ | x0 logp] eqn:Elogp; [simpl in Hsize; lia | ].
    cbn [length] in Hsize. cbn [tl firstn item].
    destruct (@topk_Some N (default_beam_k self) logp) as (top & Etop & Hlen & Hidx).
    { unfold default_beam_k, default_beam. lia. }
    rewrite Etop. cbn [or_raise]. rewrite bind_ret_intro.
    rewrite bind_ret_intro.
    set (lms := match lm self with
                | Some l => let (s, sc) := predict l (lm_state max_hyp) tok in (Some s, sc)
                | None => (lm_state max_hyp, [])
                end).
    assert (Hlms : use_lm self = true -> Z.of_nat (length (snd lms)) = vocab_size self).
    { unfold use_lm, lms. pose proof lm_size as Hs. revert Hs.
      case (lm self) as [l | ]; intros Hs Hu; [ | discriminate Hu].
      specialize (Hs l eq_refl (lm_state max_hyp) tok).
      destruct (predict l (lm_state max_hyp) tok) as [s sc]. exact Hs. }
    destruct lms as [lm_state' lm_scores0]. cbn [snd] in Hlms.
    match goal with
    | |- context [map_m ?f top] =>
        destruct (@map_m_returns Cache _ _ f top c1) as (new_hyps & Enew & Hnew)
    end.
    { intros [logp0 k] Hin. rewrite Forall_forall in Hidx.
      specialize (Hidx (logp0, k) Hin). cbn [snd] in Hidx.
      unfold add_lm_score. destruct (use_lm self) eqn:Eu.
      - specialize (Hlms eq_refl).
        destruct (nth_error lm_scores0 (k + 1)) as [x | ] eqn:Ex.
        + eexists. reflexivity.
        + apply nth_error_None in Ex. lia.
      - eexists. reflexivity. }
    bind_with Enew.
    destruct (py_max_Some (ltb N) (@score N DecState LmState)
                          (l := remove_at i hyps ++ new_hyps)) as (j & top_hyp & Etop2).
    { destruct new_hyps as [ | h new_hyps].
      - simpl in Hnew. unfold default_beam_k, default_beam in Hlen. lia.
      - intros Habs. apply app_eq_nil in Habs. destruct Habs as [_ Habs]. discriminate Habs. }
    rewrite Etop2. cbn [or_raise]. rewrite bind_ret_intro.
    match goal with
    | |- context [if ?b then _ else _] => destruct b
    end; eexists; eexists; reflexivity. }
  destruct Hret as (r & c' & Hret). exists r, c'. split; [exact Hret | ].
  pose proof Hret as Hinv. apply default_expand_inv in Hinv.
  destruct Hinv as (i & max_hyp & d & state & tok & blank_logp & new_hyps & j & top
                    & _ & _ & _ & _ & Emax & Hr).
  cbv zeta in Hr.
  destruct (Z.leb_spec (default_beam self)
              (Z.of_nat (length (kept_most_prob
                                   (kept ++ [default_blank_ext max_hyp blank_logp])
                                   (score top))))) as [Hge | Hlt]; subst r.
  - intros Habs. rewrite Habs in Hge. simpl in Hge. unfold default_beam in Hge. lia.
  - intros Habs. rewrite Habs in Emax. discriminate Emax.
Qed.

Lemma default_frame_returns (e : Frame) :
  forall fuel hyps kept (c : Cache),
    hyps <> [] ->
    (exists kept' c', default_frame self fuel e hyps kept c = Ok (kept', c') /\ kept' <> []) \/
    default_frame self fuel e hyps kept c = OutOfFuel.
Proof.
  induction fuel as [ | fuel IH]; intros hyps kept c Hne; cbn [default_frame].
  - right. reflexivity.
  - destruct (default_expand_returns e kept c Hne) as (r & c' & Hr & Hshape).
    bind_with Hr. destruct r as [[hyps' kept'] | kept'].
    + apply IH. exact Hshape.
    + left. exists kept', c'. split; [reflexivity | exact Hshape].
Qed.

(** X12.  With a vocabulary of at least two entries, a beam size of at
    least one, joint outputs of [vocab_size] entries and, when an LM is
    used, LM scores of [vocab_size] entries, the default search raises
    nothing: it returns, unless the [while True] loop of a frame does not
    end within the fuel. *)
Theorem default_search_returns (fuel : nat) (enc_out : list Frame) (c : Cache) :
  (exists r c', default_beam_search self fuel enc_out c = Ok (r, c')) \/
  default_beam_search self fuel enc_out c = OutOfFuel.
Proof.
  unfold default_beam_search.
  assert (Hloop : forall l kept c0,
             kept <> [] ->
             (exists kept' c', for_each (fun kept_hyps enc_out_t =>
                                           default_frame self fuel enc_out_t kept_hyps [])
                                        l kept c0 = Ok (kept', c')) \/
             for_each (fun kept_hyps enc_out_t =>
                         default_frame self fuel enc_out_t kept_hyps []) l kept c0
             = OutOfFuel).
  { induction l as [ | e l IH]; intros kept c0 Hne; cbn [for_each].
    - left. exists kept, c0. reflexivity.
    - destruct (default_frame_returns e fuel [] c0 Hne) as [(kept' & c' & Hf & Hne') | Hf].
      + bind_with Hf. apply IH. exact Hne'.
      + right. unfold bind. rewrite Hf. reflexivity. }
  destruct (Hloop enc_out [default_init self] c) as [(kept' & c' & Hf) | Hf];
    [discriminate | | ].
  - left. bind_with Hf. eexists. eexists. reflexivity.
  - right. unfold bind. rewrite Hf. reflexivity.
Qed.

End DefaultReturns.

(** The default search of the scenario, with fuel for two turns. *)
Lemma default_search_returns_witness :
  (exists r c', default_beam_search scenario_Q 2 [0; 1] tt = Ok (r, c')) \/
  default_beam_search scenario_Q 2 [0; 1] tt = OutOfFuel.
Proof.
  apply (@default_search_returns _ _ _ _ _ _ _ _ scenario_Q).
  - intros [ | e] d; reflexivity.
  - intros l Hl. discriminate Hl.
  - vm_compute. discriminate.
  - vm_compute. discriminate.
Defined.

(** ** Searches that are given no expansion *)

Lemma range_nonpos (n : Z) : (n <= 0)%Z -> range n = [].
Proof.
  intros H. unfold range. replace (Z.to_nat n) with 0 by lia. reflexivity.
Qed.

Section NoExpansion.
Variable N : Arith.
Variables Frame DecOut DecState Tokens LmState LmStates Cache : Type.
Variable self : BeamSearchTransducer N Frame DecOut DecState Tokens LmState LmStates Cache.
Variable logaddexp : num N -> num N -> num N.

Lemma sort_nbest_nil {H : Type} (hyp_of : H -> hypothesis N DecState LmState) :
  sort_nbest self hyp_of [] = [].
Proof. unfold sort_nbest. destruct (score_norm self); apply slice_to_nil. Qed.

Lemma tsd_frames_no_expansion :
  (max_sym_exp self <= 0)%Z ->
  forall (l : list Frame) B bs (c : Cache),
    l <> [] ->
    for_each (tsd_frame self logaddexp) l (B, bs) c = Ok (([], bs), c).
Proof.
  intros Hm.
  assert (Hframe : forall e B bs (c : Cache),
             tsd_frame self logaddexp (B, bs) e c = Ok (([], bs), c)).
  { intros e B bs c. unfold tsd_frame. rewrite (range_nonpos Hm). cbn [for_each].
    cbv [bind ret sort_by fold_right sorted_desc].
    rewrite slice_to_nil. reflexivity. }
  induction l as [ | e l IH]; intros B bs c Hne; [congruence | ].
  cbn [for_each]. bind_with (Hframe e B bs c).
  destruct l as [ | e' l']; [reflexivity | ]. apply IH. discriminate.
Qed.

Lemma nsc_frames_no_step :
  (nstep self <= 0)%Z ->
  forall (l : list Frame) (kept : list (nsc_hypothesis N DecOut DecState LmState)) bs (c : Cache),
    l <> [] -> length kept <= 1 ->
    for_each (nsc_frame self logaddexp) l (kept, bs) c = Ok (([], bs), c).
Proof.
  intros Hn.
  assert (Hframe : forall e (kept : list (nsc_hypothesis N DecOut DecState LmState)) bs
                          (c : Cache),
             length kept <= 1 ->
             nsc_frame self logaddexp (kept, bs) e c = Ok (([], bs), c)).
  { intros e kept bs c Hlen. unfold nsc_frame. rewrite (range_nonpos Hn).
    destruct kept as [ | h [ | h' kept]]; [ | | simpl in Hlen; lia].
    - cbv [bind ret for_each nsc_prefix_merge sort_by fold_right insert_by app sorted_desc].
      rewrite slice_to_nil. reflexivity.
    - cbv [bind ret for_each nsc_prefix_merge sort_by fold_right insert_by app sorted_desc].
      rewrite slice_to_nil. reflexivity. }
  induction l as [ | e l IH]; intros kept bs c Hne Hlen; [congruence | ].
  cbn [for_each]. bind_with (Hframe e kept bs c Hlen).
  destruct l as [ | e' l']; [reflexivity | ]. apply IH; [discriminate | simpl; lia].
Qed.

(** X13.  A search that is given no expansion returns no hypothesis at
    all: TSD with [max_sym_exp <= 0] and NSC with [nstep <= 0] answer every
    input of at least one frame with the empty list, without an error. *)
Theorem no_expansion_no_result :
  ((max_sym_exp self <= 0)%Z ->
   forall (e : Frame) (rest : list Frame) (c : Cache),
     time_sync_decoding self logaddexp (e :: rest) c = Ok ([], c)) /\
  ((nstep self <= 0)%Z ->
   forall (e : Frame) (rest : list Frame) (c c1 : Cache) st,
     nsc_init self c = Ok (st, c1) ->
     nsc_beam_search self logaddexp (e :: rest) c = Ok ([], c1)).
Proof.
  split.
  - intros Hm e rest c. unfold time_sync_decoding.
    destruct (batched_init self (tsd_beam self)) as [B bs].
    rewrite (@bind_ok_intro _ _ _ _ _ _ _ _
               (tsd_frames_no_expansion Hm (l := e :: rest) B bs c ltac:(discriminate))).
    rewrite sort_nbest_nil. reflexivity.
  - intros Hn e rest c c1 [kept bs] Hinit. unfold nsc_beam_search.
    bind_with Hinit.
    assert (Hlen : length kept <= 1).
    { unfold nsc_init in Hinit.
      apply bind_ok in Hinit. destruct Hinit as ([[bdo bs1] tok] & c3 & _ & Hinit).
      apply bind_ok in Hinit. destruct Hinit as ([lm0 sc0] & c4 & _ & Hinit).
      apply bind_ok in Hinit. destruct Hinit as (d & c5 & _ & Hinit).
      apply ret_ok in Hinit. destruct Hinit as [Heq _]. injection Heq as -> ->.
      simpl. lia. }
    rewrite (@bind_ok_intro _ _ _ _ _ _ _ _
               (nsc_frames_no_step Hn (l := e :: rest) kept bs c1 ltac:(discriminate) Hlen)).
    rewrite sort_nbest_nil. reflexivity.
Qed.

End NoExpansion.

(** TSD with [max_sym_exp = 0] and NSC with [nstep = 0] on one frame. *)
Lemma no_expansion_no_result_witness :
  time_sync_decoding tsd_no_expansion Plogaddexp [0] tt = Ok ([], tt) /\
  nsc_beam_search nsc_no_step Plogaddexp [0] tt = Ok ([], tt).
Proof.
  split.
  - apply (proj1 (no_expansion_no_result tsd_no_expansion Plogaddexp)).
    vm_compute. discriminate.
  - assert (Hinit : exists st, nsc_init nsc_no_step tt = Ok (st, tt)).
    { eexists. vm_compute. reflexivity. }
    destruct Hinit as (st & Hinit).
    apply (proj2 (no_expansion_no_result nsc_no_step Plogaddexp)
                 ltac:(vm_compute; discriminate) 0 [] tt tt st Hinit).
Defined.

(** ** The labels of the default search *)

Section DefaultLabels.
Variable N : Arith.
Variables Frame DecOut DecState Tokens LmState LmStates Cache : Type.
Variable self : BeamSearchTransducer N Frame DecOut DecState Tokens LmState LmStates Cache.

Lemma remove_at_In {A : Type} (i : nat) (l : list A) (x : A) :
  In x (remove_at i l) -> In x l.
Proof.
  revert i. induction l as [ | y l IH]; intros i H; [destruct i; exact H | ].
  destruct i as [ | i]; simpl in H.
  - right. exact H.
  - destruct H as [-> | H]; [left; reflexivity | right; exact (IH i H)].
Qed.

Lemma max_loop_nth {K A : Type} (lt : K -> K -> bool) (key : A -> K) :
  forall (l pre : list A) (cur : nat * A),
    nth_error (pre ++ l) (fst cur) = Some (snd cur) ->
    nth_error (pre ++ l) (fst (max_loop lt key cur (length pre) l))
    = Some (snd (max_loop lt key cur (length pre) l)).
Proof.
  induction l as [ | x l IH]; intros pre cur Hcur; cbn [max_loop]; [exact Hcur | ].
  specialize (IH (pre ++ [x]) (if lt (key (snd cur)) (key x) then (length pre, x) else cur)).
  rewrite <- app_assoc, length_app in IH. cbn [app length] in IH.
  rewrite Nat.add_1_r in IH. apply IH.
  destruct (lt (key (snd cur)) (key x)); [ | exact Hcur].
  cbn [fst snd]. rewrite nth_error_app2 by apply Nat.le_refl.
  rewrite Nat.sub_diag. reflexivity.
Qed.

Lemma py_max_nth {K A : Type} (lt : K -> K -> bool) (key : A -> K) (l : list A) i x :
  py_max lt key l = Some (i, x) -> nth_error l i = Some x.
Proof.
  destruct l as [ | y l]; [discriminate | ]. cbn [py_max]. intros [= H].
  pose proof (@max_loop_nth K A lt key l [y] (0, y) eq_refl) as Hn.
  cbn [length app] in Hn. rewrite H in Hn. exact Hn.
Qed.

Lemma default_expand_labels (e : Frame) hyps kept (c c' : Cache) r n :
  default_expand self e hyps kept c = Ok (r, c') ->
  Forall (at_most_labels self n) hyps -> Forall (at_most_labels self n) kept ->
  match r with
  | inl (hyps', kept') =>
      Forall (at_most_labels self (S n)) hyps' /\ Forall (at_most_labels self (S n)) kept'
  | inr kept' => Forall (at_most_labels self n) kept'
  end.
Proof.
  intros H Hh Hk. apply default_expand_inv in H.
  destruct H as (i & max_hyp & d & state & tok & blank_logp & new_hyps & j & top
                 & Emax & _ & _ & Hnew & _ & Hr).
  cbv zeta in Hr.
  assert (Hmax : at_most_labels self n max_hyp).
  { apply py_max_nth in Emax. apply nth_error_In in Emax. rename Emax into Hnth. rewrite Forall_forall in Hh. exact (Hh max_hyp Hnth). }
  assert (Hk1 : Forall (at_most_labels self n)
                       (kept ++ [default_blank_ext max_hyp blank_logp])).
  { apply Forall_app. split; [exact Hk | ]. constructor; [ | constructor].
    eapply at_most_labels_same; [ | exact Hmax]. reflexivity. }
  destruct (default_beam self <=? _)%Z; subst r.
  - unfold kept_most_prob, sorted_asc. rewrite Forall_forall. intros h Hin.
    apply sort_by_In in Hin. apply filter_In in Hin. destruct Hin as [Hin _].
    rewrite Forall_forall in Hk1. exact (Hk1 h Hin).
  - split.
    + apply Forall_app. split.
      * rewrite Forall_forall. intros h Hin. apply remove_at_In in Hin.
        rewrite Forall_forall in Hh. eapply at_most_labels_mono; [ | exact (Hh h Hin)]. lia.
      * eapply Forall_impl; [ | exact Hnew]. intros h (_ & k & Hl).
        eapply at_most_labels_ext; [exact Hl | exact Hmax].
    + eapply Forall_impl; [ | exact Hk1]. intros h. apply at_most_labels_mono. lia.
Qed.

Lemma default_frame_labels (e : Frame) :
  forall fuel hyps kept (c c' : Cache) kept' n,
    default_frame self fuel e hyps kept c = Ok (kept', c') ->
    Forall (at_most_labels self n) hyps -> Forall (at_most_labels self n) kept ->
    Forall (at_most_labels self (n + fuel)) kept'.
Proof.
  induction fuel as [ | fuel IH]; intros hyps kept c c' kept' n H Hh Hk;
    cbn [default_frame] in H; [discriminate H | ].
  apply bind_ok in H. destruct H as (r & c1 & Hexp & H).
  pose proof Hexp as Hr. eapply default_expand_labels in Hr; [ | exact Hh | exact Hk].
  destruct r as [[hyps1 kept1] | kept1].
  - destruct Hr as [Hh1 Hk1]. rewrite Nat.add_succ_r.
    exact (IH hyps1 kept1 c1 c' kept' (S n) H Hh1 Hk1).
  - apply ret_ok in H. destruct H as [-> _].
    eapply Forall_impl; [ | exact Hr]. intros h. apply at_most_labels_mono. lia.
Qed.

(** X14.  When the default search returns with the [while True] loop of
    every frame ended within [fuel] turns, every hypothesis it returns is
    the blank followed by at most [fuel * T] labels, none of which is 0: a
    turn appends at most one label. *)
Theorem default_label_bound (fuel : nat) (enc_out : list Frame) (c c' : Cache)
  (r : list (hypothesis N DecState LmState)) :
  default_beam_search self fuel enc_out c = Ok (r, c') ->
  Forall (at_most_labels self (fuel * length enc_out)) r.
Proof.
  intros H. unfold default_beam_search in H.
  apply bind_ok in H. destruct H as (kept & c1 & Hloop & H).
  apply ret_ok in H. destruct H as [-> _]. apply sort_nbest_Forall.
  set (P := fun k (kept0 : list (hypothesis N DecState LmState)) =>
              Forall (at_most_labels self (fuel * k)) kept0).
  assert (Hend : P (0 + length enc_out) kept).
  { eapply for_each_idx with (P := P) (k := 0); [ | | exact Hloop].
    - unfold P. rewrite Nat.mul_0_r. constructor; [ | constructor].
      exists []. simpl. split; [reflexivity | split; [lia | constructor]].
    - intros j kept0 e s1 kept1 s2 _ Hk0 Hframe. unfold P in *. cbn [Nat.add] in *.
      eapply default_frame_labels in Hframe; [ | exact Hk0 | constructor].
      eapply Forall_impl; [ | exact Hframe]. intros h. apply at_most_labels_mono. lia. }
  exact Hend.
Qed.

End DefaultLabels.

(** The default search of the scenario, two turns per frame. *)
Lemma default_label_bound_witness :
  exists r,
    default_beam_search scenario_Q 2 [0; 1] tt = Ok (r, tt) /\
    Forall (at_most_labels scenario_Q 4) r.
Proof.
  assert (Hrun : exists r, default_beam_search scenario_Q 2 [0; 1] tt = Ok (r, tt)).
  { eexists. vm_compute. reflexivity. }
  destruct Hrun as (r & Hrun). exists r. split; [exact Hrun | ].
  exact (default_label_bound scenario_Q 2 [0; 1] tt Hrun).
Defined.

(** ** The batched searches under the contract of their oracles *)

Lemma for_each_returns {St A B} (body : B -> A -> M St B) (l : list A) :
  (forall b a s, In a l -> exists b' s', body b a s = Ok (b', s')) ->
  forall acc s, exists r s', for_each body l acc s = Ok (r, s').
Proof.
  induction l as [ | x l IH]; intros H acc s; cbn [for_each].
  - exists acc, s. reflexivity.
  - destruct (H acc x s (or_introl eq_refl)) as (b' & s' & Hb). bind_with Hb.
    apply IH. intros b a s0 Hin. apply H. right. exact Hin.
Qed.

Lemma for_each_returns_idx {St A B} (P : nat -> B -> Prop) (body : B -> A -> M St B) :
  forall (l : list A) (k : nat) acc s,
    P k acc ->
    (forall j b a s1,
        nth_error l j = Some a -> P (k + j) b ->
        exists b' s2, body b a s1 = Ok (b', s2) /\ P (S (k + j)) b') ->
    exists r s', for_each body l acc s = Ok (r, s').
Proof.
  induction l as [ | x l IH]; intros k acc s H0 Hstep; cbn [for_each].
  - exists acc, s. reflexivity.
  - destruct (Hstep 0 acc x s eq_refl) as (b' & s2 & Hb & Hp);
      [rewrite Nat.add_0_r; exact H0 | ].
    bind_with Hb. rewrite Nat.add_0_r in Hp. apply (IH (S k) b' s2 Hp).
    intros j b a s1 Hn Hpj. specialize (Hstep (S j) b a s1 Hn).
    rewrite Nat.add_succ_r in Hstep. exact (Hstep Hpj).
Qed.

Lemma map_m_returns_any {St A B} (f : A -> M St B) (l : list A) :
  (forall a s, In a l -> exists b s', f a s = Ok (b, s')) ->
  forall s, exists r s', map_m f l s = Ok (r, s').
Proof.
  induction l as [ | x l IH]; intros H s; cbn [map_m].
  - exists [], s. reflexivity.
  - destruct (H x s (or_introl eq_refl)) as (b & s1 & Hb). bind_with Hb.
    destruct (IH (fun a s0 Hin => H a s0 (or_intror Hin)) s1) as (r & s2 & Hr).
    bind_with Hr. exists (b :: r), s2. reflexivity.
Qed.

Lemma at2_returns (N : Arith) {Cache : Type} (m : list (list (num N))) (i j : nat)
  (row : list (num N)) (x : num N) (c : Cache) :
  nth_error m i = Some row -> nth_error row j = Some x -> at2 N m i j c = Ok (x, c).
Proof.
  intros Hm Hr. unfold at2. rewrite Hm. cbn [or_raise]. rewrite bind_ret_intro.
  rewrite Hr. reflexivity.
Qed.

Lemma batch_topk_returns (N : Arith) {Cache : Type} (k : Z) (c : Cache) :
  forall rows : list (list (num N)),
    Forall (fun row => (0 <= k <= Z.of_nat (length (tl row)))%Z) rows ->
    exists tk,
      batch_topk N k rows c = Ok (tk, c) /\
      Forall2 (fun row top => Forall (fun p => snd p < length (tl row)) top) rows tk.
Proof.
  unfold batch_topk. induction rows as [ | row rows IH]; intros H; cbn [map_m].
  - exists []. split; [reflexivity | constructor].
  - inversion H as [ | r rs Hrow Hrows]; subst.
    destruct (topk_Some N (tl row) Hrow) as (top & Etop & _ & Hidx).
    destruct (IH Hrows) as (tk & Etk & Hall).
    exists (top :: tk). rewrite Etop. cbn [or_raise]. rewrite bind_ret_intro.
    bind_with Etk. split; [reflexivity | constructor; assumption].
Qed.

Section BatchedReturns.
Variable N : Arith.
Variables Frame DecOut DecState Tokens LmState LmStates Cache : Type.
Variable self : BeamSearchTransducer N Frame DecOut DecState Tokens LmState LmStates Cache.
Variable logaddexp : num N -> num N -> num N.

Hypothesis rows : oracle_contract self.
Hypothesis joint_size :
  forall e d, Z.of_nat (length (joint_logp self e d)) = vocab_size self.
Hypothesis lm_size :
  forall l, lm self = Some l ->
            forall st tok n,
              Forall (fun row => Z.of_nat (length row) = vocab_size self)
                     (snd (buff_predict l st tok n)).
Hypothesis narrow_beam : (0 <= beam_size self < vocab_size self)%Z.

Lemma lm_batch_ready (hyps : list (hypothesis N DecState LmState)) (tok : Tokens) :
  lm_ready self (length hyps) (lm_batch self hyps tok).
Proof.
  unfold lm_batch, lm_ready. pose proof (proj2 rows) as Hn. pose proof lm_size as Hs.
  revert Hn Hs. case (lm self) as [l | ]; intros Hn Hs; [ | exact I].
  specialize (Hn l eq_refl (Some (create_lm_batch_states l (map (@lm_state _ _ _) hyps)))
                 tok (length hyps)).
  specialize (Hs l eq_refl (Some (create_lm_batch_states l (map (@lm_state _ _ _) hyps)))
                 tok (length hyps)).
  destruct (buff_predict l _ tok (length hyps)) as [st sc]. split; assumption.
Qed.

Lemma joint_rows_topk (beam : Z) (rows_ : list (list (num N))) :
  beam = Z.min (beam_size self) (vocab_size self) ->
  Forall (fun row => Z.of_nat (length row) = vocab_size self) rows_ ->
  Forall (fun row => (0 <= beam <= Z.of_nat (length (tl row)))%Z) rows_.
Proof.
  intros -> H. eapply Forall_impl; [ | exact H]. intros row Hrow.
  destruct row as [ | x row]; simpl in *; lia.
Qed.

Lemma expand_hyp_returns beam_state (beam_topk : list (list (num N * nat))) lm_out
  (i n : nat) hyp (top : list (num N * nat)) (c : Cache) :
  nth_error beam_topk i = Some top ->
  Forall (fun p => (Z.of_nat (snd p + 1) < vocab_size self)%Z) top ->
  i < n -> lm_ready self n lm_out ->
  exists new_hyps, expand_hyp self beam_state beam_topk lm_out (i, hyp) c = Ok (new_hyps, c).
Proof.
  intros Htop Hidx Hi Hlm. unfold expand_hyp. rewrite Htop. cbn [or_raise].
  rewrite bind_ret_intro.
  match goal with
  | |- context [map_m ?f top] => destruct (@map_m_returns Cache _ _ f top c) as (r & Hr & _)
  end; [ | exists r; exact Hr].
  intros [logp k0] Hin. rewrite Forall_forall in Hidx. specialize (Hidx _ Hin).
  cbn [snd] in Hidx. destruct lm_out as [[[l st] sc] | ]; [ | eexists; reflexivity].
  destruct Hlm as [Hlen Hrows].
  destruct (nth_error sc i) as [row | ] eqn:Erow;
    [ | apply nth_error_None in Erow; lia].
  rewrite Forall_forall in Hrows. specialize (Hrows row (nth_error_In _ _ Erow)).
  destruct (nth_error row (k0 + 1)) as [x | ] eqn:Ex;
    [ | apply nth_error_None in Ex; lia].
  eexists. cbv zeta. bind_with (@at2_returns N Cache _ _ _ _ _ c Erow Ex).
  reflexivity.
Qed.

(** The scores of the batch: one row of [vocab_size] entries per
    hypothesis, of which a top-k of [beam] non-blank entries exists. *)
Lemma batch_rows_ready (beam : Z) (rows_ : list (list (num N))) (c : Cache) :
  beam = Z.min (beam_size self) (vocab_size self) ->
  Forall (fun row => Z.of_nat (length row) = vocab_size self) rows_ ->
  exists tk,
    batch_topk N beam rows_ c = Ok (tk, c) /\
    length tk = length rows_ /\
    Forall (Forall (fun p => (Z.of_nat (snd p + 1) < vocab_size self)%Z)) tk /\
    forall i, i < length rows_ -> exists x, at2 N rows_ i 0 c = Ok (x, c).
Proof.
  intros Hbeam Hrows.
  destruct (batch_topk_returns N c (joint_rows_topk Hbeam Hrows)) as (tk & Etk & Hall).
  exists tk. split; [exact Etk | split; [ | split]].
  - symmetry. exact (Forall2_length Hall).
  - clear Etk. induction Hall as [ | row top rows1 tk1 Htop _ IH]; [constructor | ].
    inversion Hrows as [ | r rs Hrow Hrows1]; subst.
    constructor; [ | exact (IH Hrows1)].
    eapply Forall_impl; [ | exact Htop]. intros p Hp.
    destruct row as [ | x row]; simpl in *; lia.
  - intros i Hi. destruct (nth_error rows_ i) as [row | ] eqn:Erow;
      [ | apply nth_error_None in Erow; lia].
    rewrite Forall_forall in Hrows. specialize (Hrows row (nth_error_In _ _ Erow)).
    destruct row as [ | x row]; [simpl in Hrows; lia | ].
    exists x. exact (@at2_returns N Cache _ _ 0 _ _ c Erow eq_refl).
Qed.

Lemma tsd_round_returns (e : Frame) st (v : Z) (c : Cache) :
  exists st' c', tsd_round self logaddexp e st v c = Ok (st', c').
Proof.
  destruct st as [[A C] bs]. unfold tsd_round.
  pose proof (proj1 rows C bs c (use_lm self)) as Hlen.
  destruct (batch_score (decoder self) C bs c (use_lm self)) as [[[bdo bs1] tok] c1] eqn:Eb.
  cbn [fst] in Hlen.
  assert (Ecall : call (fun c0 => batch_score (decoder self) C bs c0 (use_lm self)) c
                  = Ok ((bdo, bs1, tok), c1)) by (unfold call; rewrite Eb; reflexivity).
  bind_with Ecall.
  set (beam_logp := map (joint_logp self e) bdo).
  assert (Hrows : Forall (fun row => Z.of_nat (length row) = vocab_size self) beam_logp).
  { unfold beam_logp. rewrite Forall_forall. intros row Hin. apply in_map_iff in Hin.
    destruct Hin as (d & <- & _). apply joint_size. }
  destruct (batch_rows_ready c1 eq_refl Hrows) as (tk & Etk & Htk & Hidx & Hat).
  unfold tsd_beam. bind_with Etk.
  assert (Hlogp : length beam_logp = length C).
  { unfold beam_logp. rewrite length_map. exact Hlen. }
  match goal with
  | |- context [for_each ?body (enumerate C) A] =>
      destruct (@for_each_returns Cache _ _ body (enumerate C)) with (acc := A) (s := c1)
        as (A1 & c2 & EA)
  end.
  { intros A0 [i hyp] s Hin. apply In_enumerate in Hin.
    assert (Hi : i < length beam_logp).
    { rewrite Hlogp. apply nth_error_Some. rewrite Hin. discriminate. }
    destruct (nth_error beam_logp i) as [row | ] eqn:Erow;
      [ | apply nth_error_None in Erow; lia].
    rewrite Forall_forall in Hrows. specialize (Hrows row (nth_error_In _ _ Erow)).
    destruct row as [ | x row]; [simpl in Hrows; lia | ].
    unfold tsd_merge_blank.
    destruct (seq_index _ _); bind_with (@at2_returns N Cache _ _ 0 _ _ s Erow eq_refl);
      eexists; eexists; reflexivity. }
  bind_with EA.
  destruct (v <? max_sym_exp self - 1)%Z.
  - match goal with
    | |- context [map_m ?f (enumerate C)] =>
        destruct (@map_m_returns_any Cache _ _ f (enumerate C)) with (s := c2)
          as (Ds & c3 & EDs)
    end.
    { intros [i hyp] s Hin. apply In_enumerate in Hin.
      assert (Hi : i < length C) by (apply nth_error_Some; rewrite Hin; discriminate).
      destruct (nth_error tk i) as [top | ] eqn:Etop;
        [ | apply nth_error_None in Etop; lia].
      rewrite Forall_forall in Hidx.
      destruct (@expand_hyp_returns bs1 tk (lm_batch self C tok) i (length C) hyp top s
                  Etop (Hidx top (nth_error_In _ _ Etop)) Hi (lm_batch_ready C tok))
        as (new_hyps & Enew).
      exists new_hyps, s. exact Enew. }
    unfold bind. rewrite EDs. eexists. eexists. reflexivity.
  - eexists. eexists. reflexivity.
Qed.

(** X15.  With one decoder output and one row of LM scores per hypothesis
    of a batch, [vocab_size] entries in every joint output and every row of
    LM scores, and [0 <= beam_size < vocab_size], TSD raises nothing: it
    returns on every input. *)
Theorem tsd_returns (enc_out : list Frame) (c : Cache) :
  exists r c', time_sync_decoding self logaddexp enc_out c = Ok (r, c').
Proof.
  unfold time_sync_decoding.
  destruct (@for_each_returns Cache _ _ (tsd_frame self logaddexp) enc_out)
    with (acc := batched_init self (tsd_beam self)) (s := c) as ([B bs] & c1 & Eloop).
  { intros [B bs] e s _. unfold tsd_frame.
    destruct (@for_each_returns Cache _ _ (tsd_round self logaddexp e)
                                (range (max_sym_exp self)))
      with (acc := (@nil (hypothesis N DecState LmState), B, bs)) (s := s)
      as ([[A C] bs1] & s1 & Er).
    { intros st v s0 _. apply tsd_round_returns. }
    bind_with Er. eexists. eexists. reflexivity. }
  bind_with Eloop. eexists. eexists. reflexivity.
Qed.

Lemma alsd_select_returns (enc_out : list Frame) (i : nat)
  (B : list (hypothesis N DecState LmState)) (c : Cache) :
  Forall (at_most_labels self i) B ->
  exists live c',
    for_each (alsd_select enc_out (Z.of_nat (length enc_out)) (Z.of_nat i)) B [] c
    = Ok (live, c').
Proof.
  intros HB. apply for_each_returns. intros acc hyp s Hin.
  rewrite Forall_forall in HB. pose proof (at_most_labels_length (HB hyp Hin)) as Hlen.
  unfold alsd_select.
  set (t := (Z.of_nat i - (Z.of_nat (length (label_seq hyp)) - 1) + 1)%Z).
  assert (Ht : (1 <= t)%Z) by (unfold t; lia).
  destruct (Z.ltb_spec (Z.of_nat (length enc_out) - 1) t) as [Hout | Hin_range].
  - eexists. eexists. reflexivity.
  - unfold getitem. destruct (Z.leb_spec 0 t) as [_ | Hneg]; [ | lia].
    destruct (nth_error enc_out (Z.to_nat t)) as [e | ] eqn:Ee;
      [ | apply nth_error_None in Ee; lia].
    eexists. eexists. reflexivity.
Qed.

Lemma alsd_round_returns (enc_out : list Frame) (i : nat) B final bs (c : Cache) :
  Forall (at_most_labels self i) B ->
  exists st' c',
    alsd_round self logaddexp enc_out (Z.of_nat (length enc_out)) (B, final, bs)
               (Z.of_nat i) c
    = Ok (st', c').
Proof.
  intros HB. unfold alsd_round.
  destruct (alsd_select_returns enc_out c HB) as (live & c0 & Elive). bind_with Elive.
  destruct (map fst live) as [ | h B_] eqn:EB; [eexists; eexists; reflexivity | ].
  rewrite <- EB.
  pose proof (proj1 rows (map fst live) bs c0 (use_lm self)) as Hlen.
  destruct (batch_score (decoder self) (map fst live) bs c0 (use_lm self))
    as [[[bdo bs1] tok] c1] eqn:Eb.
  cbn [fst] in Hlen. rewrite length_map in Hlen.
  assert (Ecall : call (fun c2 => batch_score (decoder self) (map fst live) bs c2 (use_lm self))
                       c0
                  = Ok ((bdo, bs1, tok), c1)) by (unfold call; rewrite Eb; reflexivity).
  bind_with Ecall.
  set (beam_logp := map (fun ed : Frame * DecOut => joint_logp self (fst ed) (snd ed))
                        (combine (map snd (map snd live)) bdo)).
  assert (Hrows : Forall (fun row => Z.of_nat (length row) = vocab_size self) beam_logp).
  { unfold beam_logp. rewrite Forall_forall. intros row Hin. apply in_map_iff in Hin.
    destruct Hin as (ed & <- & _). apply joint_size. }
  assert (Hlogp : length beam_logp = length live).
  { unfold beam_logp. rewrite length_map, length_combine, !length_map. lia. }
  destruct (batch_rows_ready c1 eq_refl Hrows) as (tk & Etk & Htk & Hidx & Hat).
  unfold alsd_beam. bind_with Etk.
  match goal with
  | |- context [for_each ?body (enumerate (map fst live)) ?acc0] =>
      assert (Hloop : exists r s', for_each body (enumerate (map fst live)) acc0 c1
                                   = Ok (r, s'));
        [apply for_each_returns | destruct Hloop as ([A fin] & c2 & EA)]
  end.
  { intros [A0 fin0] [j hyp] s Hin. apply In_enumerate in Hin.
    assert (Hj : j < length live).
    { rewrite <- (length_map fst). apply nth_error_Some. rewrite Hin. discriminate. }
    unfold alsd_extend.
    destruct (Hat j) as (x & Ex); [lia | ].
    assert (Ex' : at2 N beam_logp j 0 s = Ok (x, s)).
    { unfold at2, bind in *. destruct (or_raise IndexError (nth_error beam_logp j) c1)
        as [[r s0] | | ] eqn:E1; try discriminate Ex.
      apply or_raise_ok in E1. destruct E1 as [E1 ->]. rewrite E1. cbn [or_raise ret].
      destruct (nth_error r 0) as [y | ]; [ | discriminate Ex].
      cbn [or_raise ret] in *. injection Ex as ->. reflexivity. }
    bind_with Ex'.
    destruct (nth_error (map snd live) j) as [te | ] eqn:Ete;
      [ | apply nth_error_None in Ete; rewrite length_map in Ete; lia].
    cbn [or_raise]. rewrite bind_ret_intro.
    destruct (nth_error tk j) as [top | ] eqn:Etop;
      [ | apply nth_error_None in Etop; lia].
    rewrite Forall_forall in Hidx.
    assert (Hj' : j < length (map fst live)) by (rewrite length_map; exact Hj).
    destruct (@expand_hyp_returns bs1 tk (lm_batch self (map fst live) tok) j
                (length (map fst live)) hyp top s
                Etop (Hidx top (nth_error_In _ _ Etop)) Hj'
                (lm_batch_ready (map fst live) tok))
      as (new_hyps & Enew).
    bind_with Enew. eexists. eexists. reflexivity. }
  bind_with EA. eexists. eexists. reflexivity.
Qed.

(** X16.  Under the same contract ALSD raises nothing either: it returns
    on every input. *)
Theorem alsd_returns (enc_out : list Frame) (c : Cache) :
  exists r c', align_length_sync_decoding self logaddexp enc_out c = Ok (r, c').
Proof.
  unfold align_length_sync_decoding, alsd_loop.
  destruct (batched_init self (alsd_beam self)) as [B bs] eqn:Einit.
  assert (HB : Forall (at_most_labels self 0) B).
  { pose proof (at_most_labels_init self (alsd_beam self)) as Hi.
    rewrite Einit in Hi. exact Hi. }
  destruct (@for_each_returns_idx Cache _ _
              (fun k (st : list (hypothesis N DecState LmState)
                           * list (hypothesis N DecState LmState) * DecState) =>
                 Forall (at_most_labels self k) (fst (fst st)))
              (alsd_round self logaddexp enc_out (Z.of_nat (length enc_out)))
              (alsd_positions self enc_out) 0 (B, [], bs) c HB)
    as ([[B1 final] bs1] & c1 & Eloop).
  { intros j [[B0 final0] bs0] a s1 Ha HB0. cbn [fst snd Nat.add] in *.
    apply range_nth in Ha. subst a.
    destruct (alsd_round_returns enc_out final0 bs0 s1 HB0) as ([[B2 final2] bs2] & s2 & Er).
    exists (B2, final2, bs2), s2. split; [exact Er | ].
    cbn [fst snd]. eapply alsd_round_labels in Er; [exact (proj1 Er) | exact HB0]. }
  bind_with Eloop. destruct final; eexists; eexists; reflexivity.
Qed.

End BatchedReturns.

(** TSD on the two frames of [tsd_two_paths]: three labels, beam size 2. *)
Lemma tsd_returns_witness :
  exists r c', time_sync_decoding tsd_two_paths Plogaddexp [0; 1] tt = Ok (r, c').
Proof.
  apply (@tsd_returns _ _ _ _ _ _ _ _ tsd_two_paths Plogaddexp
           (stub_oracle_contract _ _ _ _ _ _ _ _ _ _)).
  - intros [ | e] d; reflexivity.
  - intros l Hl. discriminate Hl.
  - vm_compute. split; [discriminate | reflexivity].
Defined.

(** ALSD on the two frames of [alsd_stub]. *)
Lemma alsd_returns_witness :
  exists r c', align_length_sync_decoding alsd_stub Plogaddexp [0; 1] tt = Ok (r, c').
Proof.
  apply (@alsd_returns _ _ _ _ _ _ _ _ alsd_stub Plogaddexp
           (stub_oracle_contract _ _ _ _ _ _ _ _ _ _)).
  - intros e d. reflexivity.
  - intros l Hl. discriminate Hl.
  - vm_compute. split; [discriminate | reflexivity].
Defined.

(** ** N-step constrained search under the contract of its oracles *)

Lemma slice_to_nonempty {A : Type} (n : Z) (l : list A) :
  (1 <= n)%Z -> l <> [] -> slice_to n l <> [].
Proof.
  intros Hn Hl. unfold slice_to. destruct (Z.leb_spec 0 n) as [_ | Hneg]; [ | lia].
  destruct l as [ | x l]; [congruence | ].
  destruct (Z.to_nat n) as [ | k] eqn:E; [lia | ]. discriminate.
Qed.

Lemma sort_by_nonempty {A : Type} (past : A -> A -> bool) (l : list A) :
  l <> [] -> sort_by past l <> [].
Proof.
  intros Hl Habs. apply Hl. apply length_zero_iff_nil.
  rewrite <- (sort_by_length past l), Habs. reflexivity.
Qed.

Lemma getitem_last {A : Type} (l : list A) :
  l <> [] -> exists x, getitem l (-1) = Some x.
Proof.
  intros Hl. unfold getitem. cbn [Z.leb Z.compare].
  destruct l as [ | y l]; [congruence | ].
  destruct (Z.leb_spec 0 (Z.of_nat (length (y :: l)) + -1)) as [_ | Hneg];
    [ | simpl length in Hneg; lia].
  destruct (nth_error (y :: l) (Z.to_nat (Z.of_nat (length (y :: l)) + -1))) as [x | ] eqn:E.
  - exists x. reflexivity.
  - apply nth_error_None in E. simpl length in E. lia.
Qed.

Lemma starts_with_nth :
  forall (pref x : list nat), starts_with x pref = true -> length pref <= length x.
Proof.
  induction pref as [ | p pref IH]; intros x H; simpl; [lia | ].
  destruct x as [ | y x]; [discriminate H | ]. simpl in H.
  apply andb_prop in H. destruct H as [_ H]. apply IH in H. simpl. lia.
Qed.

Lemma for_each_total_idx {St A B} (P : nat -> B -> Prop) (body : B -> A -> M St B) :
  forall (l : list A) (k : nat) acc s,
    P k acc ->
    (forall j b a s1,
        nth_error l j = Some a -> P (k + j) b ->
        exists b' s2, body b a s1 = Ok (b', s2) /\ P (S (k + j)) b') ->
    exists r s', for_each body l acc s = Ok (r, s') /\ P (k + length l) r.
Proof.
  induction l as [ | x l IH]; intros k acc s H0 Hstep; cbn [for_each].
  - exists acc, s. split; [reflexivity | ]. simpl. rewrite Nat.add_0_r. exact H0.
  - destruct (Hstep 0 acc x s eq_refl) as (b' & s2 & Hb & Hp);
      [rewrite Nat.add_0_r; exact H0 | ].
    bind_with Hb. rewrite Nat.add_0_r in Hp.
    destruct (IH (S k) b' s2 Hp) as (r & s' & Hr & HP).
    + intros j b a s1 Hn Hpj. specialize (Hstep (S j) b a s1 Hn).
      rewrite Nat.add_succ_r in Hstep. exact (Hstep Hpj).
    + exists r, s'. split; [exact Hr | ]. simpl length. rewrite Nat.add_succ_r. exact HP.
Qed.

Lemma map_m_enumerate_returns {St A B} (P : B -> Prop) (f : nat * A -> M St B)
  (l : list A) (s : St) :
  (forall i a, nth_error l i = Some a -> exists b, f (i, a) s = Ok (b, s) /\ P b) ->
  exists r, map_m f (enumerate l) s = Ok (r, s) /\ Forall P r /\ length r = length l.
Proof.
  intros H.
  assert (Hgen : forall l0 : list (nat * A),
             (forall ia, In ia l0 -> nth_error l (fst ia) = Some (snd ia)) ->
             exists r, map_m f l0 s = Ok (r, s) /\ Forall P r /\ length r = length l0).
  { induction l0 as [ | [i a] l0 IH]; intros Hin; cbn [map_m].
    - exists []. split; [reflexivity | split; [constructor | reflexivity]].
    - destruct (H i a (Hin (i, a) (or_introl eq_refl))) as (b & Eb & Hb).
      destruct IH as (r & Er & Hr & Hlen); [intros ia Hia; apply Hin; right; exact Hia | ].
      bind_with Eb. bind_with Er. exists (b :: r).
      split; [reflexivity | split; [constructor; assumption | simpl; rewrite Hlen; reflexivity]]. }
  destruct (Hgen (enumerate l)) as (r & Er & Hr & Hlen).
  - intros [i a] Hin. apply In_enumerate in Hin. exact Hin.
  - exists r. rewrite enumerate_length in Hlen. auto.
Qed.

Lemma exists_longest {A : Type} (f : A -> nat) (l : list A) :
  l <> [] -> exists x, In x l /\ forall y, In y l -> f y <= f x.
Proof.
  induction l as [ | a l IH]; [congruence | ]. intros _.
  destruct l as [ | b l].
  - exists a. split; [left; reflexivity | ]. intros y [<- | []]. apply Nat.le_refl.
  - destruct IH as (x & Hx & Hmax); [discriminate | ].
    destruct (Nat.le_gt_cases (f x) (f a)) as [Hle | Hgt].
    + exists a. split; [left; reflexivity | ]. intros y [<- | Hy]; [apply Nat.le_refl | ].
      specialize (Hmax y Hy). lia.
    + exists x. split; [right; exact Hx | ]. intros y [<- | Hy]; [lia | exact (Hmax y Hy)].
Qed.

Lemma batch_topk_full (N : Arith) {Cache : Type} (k : Z) (c : Cache) :
  forall rows : list (list (num N)),
    Forall (fun row => (0 <= k <= Z.of_nat (length (tl row)))%Z) rows ->
    exists tk,
      batch_topk N k rows c = Ok (tk, c) /\
      Forall2 (fun row top => length top = Z.to_nat k /\
                              Forall (fun p => snd p < length (tl row)) top) rows tk.
Proof.
  unfold batch_topk. induction rows as [ | row rows IH]; intros H; cbn [map_m].
  - exists []. split; [reflexivity | constructor].
  - inversion H as [ | r rs Hrow Hrows]; subst.
    destruct (topk_Some N (tl row) Hrow) as (top & Etop & Hlen & Hidx).
    destruct (IH Hrows) as (tk & Etk & Hall).
    exists (top :: tk). rewrite Etop. cbn [or_raise]. rewrite bind_ret_intro.
    bind_with Etk. split; [reflexivity | constructor; [split | ]; assumption].
Qed.

Lemma seq_eqb_length (a b : list nat) : seq_eqb a b = true -> length a = length b.
Proof. intros H. apply seq_eqb_eq in H. rewrite H. reflexivity. Qed.

Section NscReturns.
Variable N : Arith.
Variables Frame DecOut DecState Tokens LmState LmStates Cache : Type.
Variable self : BeamSearchTransducer N Frame DecOut DecState Tokens LmState LmStates Cache.
Variable logaddexp : num N -> num N -> num N.

Hypothesis rows : oracle_contract self.
Hypothesis joint_size :
  forall e d, Z.of_nat (length (joint_logp self e d)) = vocab_size self.
Hypothesis lm_size :
  forall l, lm self = Some l ->
            forall st tok n,
              Forall (fun row => Z.of_nat (length row) = vocab_size self)
                     (snd (buff_predict l st tok n)).
Hypothesis vocab_two : (2 <= vocab_size self)%Z.
Hypothesis beam_one : (1 <= beam_size self)%Z.
Hypothesis steps_one : (1 <= nstep self)%Z.

Lemma nsc_shape_same d (h h' : nsc_hypothesis N DecOut DecState LmState) :
  same_but_score h h' -> nsc_shape self d h -> nsc_shape self d h'.
Proof.
  intros (Hl & _ & _ & Hd & Hs) (Hls & Hlen & Hlm). unfold nsc_shape.
  rewrite Hl, Hd, Hs. auto.
Qed.

(** A label read at a position after the initial blank is below
    [vocab_size]. *)
Lemma nsc_shape_label d (h : nsc_hypothesis N DecOut DecState LmState) (k lab : nat) :
  nsc_shape self d h -> nth_error (label_seq h) (S k) = Some lab ->
  (Z.of_nat lab < vocab_size self)%Z.
Proof.
  intros ((ls & Hl & Hall) & _) Hn. rewrite Hl in Hn. simpl in Hn.
  apply nth_error_In in Hn. rewrite Forall_forall in Hall. exact (Hall lab Hn).
Qed.

Lemma joint_at (e : Frame) (d : DecOut) (lab : nat) :
  (Z.of_nat lab < vocab_size self)%Z -> exists x, nth_error (joint_logp self e d) lab = Some x.
Proof.
  intros H. pose proof (joint_size e d) as Hs.
  destruct (nth_error (joint_logp self e d) lab) as [x | ] eqn:E; [exists x; reflexivity | ].
  apply nth_error_None in E. lia.
Qed.

Lemma nsc_prefix_score_returns (e : Frame)
  (hyp_j hyp_i : nsc_hypothesis N DecOut DecState LmState) (c : Cache) :
  nsc_shape self 0 hyp_j -> nsc_shape self 0 hyp_i ->
  is_prefix (label_seq hyp_j) (label_seq hyp_i) = true ->
  exists x, nsc_prefix_score self e hyp_j hyp_i c = Ok (x, c).
Proof.
  intros Hj Hi Hpre. unfold is_prefix in Hpre. apply andb_prop in Hpre.
  destruct Hpre as [Hlt _]. apply Nat.ltb_lt in Hlt.
  pose proof Hj as (_ & Hdj & _). pose proof Hi as ((lsi & Hli & _) & Hdi & _).
  rewrite Nat.add_0_r in Hdj, Hdi.
  assert (Hpos : 1 <= length (label_seq hyp_i)) by (rewrite Hli; simpl; lia).
  unfold nsc_prefix_score.
  destruct (@getitem_last _ (dec_out hyp_i)) as (d & Ed).
  { intros Habs. rewrite Habs in Hdi. simpl in Hdi. lia. }
  rewrite Ed. cbn [or_raise]. rewrite bind_ret_intro.
  destruct (nth_error (label_seq hyp_j) (length (label_seq hyp_i))) as [lab | ] eqn:Elab;
    [ | apply nth_error_None in Elab; lia].
  cbn [or_raise]. rewrite bind_ret_intro.
  assert (Hlab : (Z.of_nat lab < vocab_size self)%Z).
  { destruct (length (label_seq hyp_i)) as [ | k]; [lia | ].
    eapply nsc_shape_label; [exact Hj | exact Elab]. }
  destruct (@joint_at e d lab Hlab) as (x & Ex). rewrite Ex. cbn [or_raise].
  rewrite bind_ret_intro.
  assert (Hloop : forall l acc,
             Forall (fun k => 1 <= k /\ S k < length (label_seq hyp_j)) l ->
             exists r,
               for_each (fun curr_score k =>
                           d0 <- or_raise IndexError (nth_error (dec_out hyp_j) k) ;;
                           lab0 <- or_raise IndexError (nth_error (label_seq hyp_j) (k + 1)) ;;
                           x0 <- or_raise IndexError
                                   (nth_error (joint_logp self e d0) lab0) ;;
                           ret (add N curr_score x0)) l acc c
               = Ok (r, c)).
  { induction l as [ | k l IH]; intros acc Hl; cbn [for_each]; [eexists; reflexivity | ].
    inversion Hl as [ | k' l' [Hk1 Hk2] Hl']; subst.
    assert (Estep : exists x0,
               (d1 <- or_raise IndexError (nth_error (dec_out hyp_j) k) ;;
                lab1 <- or_raise IndexError (nth_error (label_seq hyp_j) (k + 1)) ;;
                x1 <- or_raise IndexError (nth_error (joint_logp self e d1) lab1) ;;
                ret (add N acc x1)) c = Ok (add N acc x0, c)).
    { destruct (nth_error (dec_out hyp_j) k) as [d0 | ] eqn:Ed0;
        [ | apply nth_error_None in Ed0; lia].
      destruct (nth_error (label_seq hyp_j) (k + 1)) as [lab0 | ] eqn:Elab0;
        [ | apply nth_error_None in Elab0; lia].
      assert (Hlab0 : (Z.of_nat lab0 < vocab_size self)%Z).
      { rewrite Nat.add_1_r in Elab0. eapply nsc_shape_label; [exact Hj | exact Elab0]. }
      destruct (@joint_at e d0 lab0 Hlab0) as (x0 & Ex0). exists x0.
      cbn [or_raise]. rewrite !bind_ret_intro. rewrite Ex0. reflexivity. }
    destruct Estep as (x0 & Estep).
    cbv beta. bind_with Estep. apply IH. exact Hl'. }
  apply Hloop. rewrite Forall_forall. intros k Hk. apply in_seq in Hk. lia.
Qed.

Lemma nsc_merge_row_returns (e : Frame) :
  forall (rest : list (nsc_hypothesis N DecOut DecState LmState)) hyp_j (c : Cache),
    nsc_shape self 0 hyp_j -> Forall (nsc_shape self 0) rest ->
    exists h', for_each (nsc_merge_pair self logaddexp e) rest hyp_j c = Ok (h', c) /\
               same_but_score hyp_j h'.
Proof.
  induction rest as [ | hyp_i rest IH]; intros hyp_j c Hj Hrest; cbn [for_each].
  - exists hyp_j. split; [reflexivity | apply same_but_score_refl].
  - inversion Hrest as [ | x l Hi Hrest']; subst.
    assert (Hpair : exists h1, nsc_merge_pair self logaddexp e hyp_j hyp_i c = Ok (h1, c)).
    { unfold nsc_merge_pair.
      destruct (is_prefix (label_seq hyp_j) (label_seq hyp_i)) eqn:Epre; cbn [andb].
      - destruct (_ <=? prefix_alpha self)%Z; [ | eexists; reflexivity].
        destruct (nsc_prefix_score_returns e c Hj Hi Epre) as (x & Ex).
        bind_with Ex. eexists. reflexivity.
      - eexists. reflexivity. }
    destruct Hpair as (h1 & Eh1). bind_with Eh1.
    pose proof Eh1 as Hsame. apply nsc_merge_pair_inv in Hsame. destruct Hsame as [Hsame _].
    destruct (IH h1 c (nsc_shape_same Hsame Hj) Hrest') as (h' & Eh' & Hsame').
    exists h'. split; [exact Eh' | exact (same_but_score_trans Hsame Hsame')].
Qed.

Lemma nsc_prefix_merge_returns (e : Frame) :
  forall (hyps : list (nsc_hypothesis N DecOut DecState LmState)) (c : Cache),
    Forall (nsc_shape self 0) hyps ->
    exists hyps',
      nsc_prefix_merge self logaddexp e hyps c = Ok (hyps', c) /\
      Forall (nsc_shape self 0) hyps' /\ length hyps' = length hyps.
Proof.
  induction hyps as [ | h rest IH]; intros c Hall; cbn [nsc_prefix_merge].
  - exists []. split; [reflexivity | split; [constructor | reflexivity]].
  - inversion Hall as [ | x l Hh Hrest]; subst.
    destruct (nsc_merge_row_returns e c Hh Hrest) as (h' & Eh' & Hsame).
    destruct (IH c Hrest) as (rest' & Erest & Hrest' & Hlen).
    bind_with Eh'. bind_with Erest. exists (h' :: rest').
    split; [reflexivity | split].
    + constructor; [exact (nsc_shape_same Hsame Hh) | exact Hrest'].
    + simpl. rewrite Hlen. reflexivity.
Qed.

Lemma nsc_init_returns (c : Cache) :
  exists h bs c',
    nsc_init self c = Ok (([h], bs), c') /\ nsc_shape self 0 h.
Proof.
  unfold nsc_init.
  match goal with
  | |- context [batch_score ?d ?hs ?s] =>
      pose proof (proj1 rows hs s c (use_lm self)) as Hlen;
      destruct (batch_score d hs s c (use_lm self)) as [[[bdo bs1] tok] c1] eqn:Eb
  end.
  cbn [fst length] in Hlen.
  match goal with
  | |- context [call ?f] =>
      assert (Ecall : call f c = Ok ((bdo, bs1, tok), c1))
        by (unfold call; rewrite Eb; reflexivity)
  end.
  bind_with Ecall.
  destruct bdo as [ | d bdo]; [discriminate Hlen | ].
  unfold nsc_shape, use_lm.
  pose proof (proj2 rows) as Hn. pose proof lm_size as Hs. revert Hn Hs.
  case (lm self) as [l | ]; intros Hn Hs.
  - specialize (Hn l eq_refl None tok 1). specialize (Hs l eq_refl None tok 1).
    destruct (buff_predict l None tok 1) as [st sc]. cbn [snd] in Hn, Hs.
    destruct sc as [ | row sc]; [discriminate Hn | ].
    inversion Hs as [ | r rs Hrow _]; subst.
    eexists. eexists. eexists. split; [reflexivity | ].
    cbn. split; [exists []; split; [reflexivity | constructor] | split; [reflexivity | ]].
    intros _. exists row. split; [reflexivity | exact Hrow].
  - eexists. eexists. eexists. split; [reflexivity | ].
    cbn. split; [exists []; split; [reflexivity | constructor] | split; [reflexivity | ]].
    discriminate.
Qed.

(** A candidate of [hyp]: one more label, not yet scored by the decoder. *)
Lemma nsc_expand_hyp_returns (beam_logp : list (list (num N)))
  (beam_topk : list (list (num N * nat))) S_ V (i : nat)
  (hyp : nsc_hypothesis N DecOut DecState LmState) (row : list (num N))
  (top : list (num N * nat)) (c : Cache) :
  nsc_shape self 0 hyp ->
  nth_error beam_logp i = Some row -> row <> [] ->
  nth_error beam_topk i = Some top ->
  Forall (fun p => (Z.of_nat (snd p + 1) < vocab_size self)%Z) top ->
  exists x new_hyps,
    nsc_expand_hyp self beam_logp beam_topk (S_, V) (i, hyp) c
    = Ok ((S_ ++ [nsc_blank_ext hyp x], V ++ new_hyps), c) /\
    length new_hyps = length top /\
    Forall (fun v : nsc_hypothesis N DecOut DecState LmState =>
              nsc_shape self 1 v /\ exists k, label_seq v = label_seq hyp ++ [k]) new_hyps.
Proof.
  intros Hh Erow Hrow Etop Hidx. unfold nsc_expand_hyp.
  rewrite Erow. cbn [or_raise]. rewrite bind_ret_intro.
  destruct row as [ | x row]; [congruence | ]. cbn [firstn item or_raise].
  rewrite bind_ret_intro. rewrite Etop. cbn [or_raise]. rewrite bind_ret_intro.
  destruct Hh as ((ls & Hl & Hall) & Hd & Hlm).
  match goal with
  | |- context [map_m ?f top] =>
      destruct (@map_m_returns Cache _ _ f top c) as (new_hyps & Enew & Hlen);
        [ | pose proof (map_m_ok f top c Enew) as Hshape]
  end.
  { intros [logp k0] Hin. rewrite Forall_forall in Hidx. specialize (Hidx _ Hin).
    cbn [snd] in Hidx. destruct (use_lm self) eqn:Eu; [ | eexists; reflexivity].
    destruct (Hlm eq_refl) as (sc & Esc & Hsc). rewrite Esc.
    destruct (nth_error sc (k0 + 1)) as [y | ] eqn:Ey;
      [ | apply nth_error_None in Ey; lia].
    eexists. cbv zeta. unfold bind. cbn [or_raise ret]. rewrite Ey. reflexivity. }
  bind_with Enew. exists x, new_hyps. split; [reflexivity | split; [exact Hlen | ]].
  eapply Forall2_Forall_r_In; [exact Hshape | ].
  intros [logp k0] v Hin (s1 & s2 & Hv). rewrite Forall_forall in Hidx.
  specialize (Hidx _ Hin). cbn [snd] in Hidx. cbv zeta in Hv.
  apply bind_ok in Hv. destruct Hv as (score1 & s3 & _ & Hv).
  apply ret_ok in Hv. destruct Hv as [-> _]. split.
  - unfold nsc_shape. cbn. split; [ | split].
    + exists (ls ++ [k0 + 1]). rewrite Hl. split; [reflexivity | ].
      apply Forall_app. split; [exact Hall | constructor; [exact Hidx | constructor]].
    + rewrite length_app. simpl. lia.
    + exact Hlm.
  - exists (k0 + 1). reflexivity.
Qed.

Lemma nsc_blank_ext_shape (hyp : nsc_hypothesis N DecOut DecState LmState) (x : num N) :
  nsc_shape self 0 hyp -> nsc_shape self 0 (nsc_blank_ext hyp x).
Proof. intros H. exact H. Qed.

(** The loop of lines 569-596 over hypotheses for which a row of scores and
    a non-empty top-k are at hand. *)
Lemma nsc_expand_loop (hyps : list (nsc_hypothesis N DecOut DecState LmState))
  (beam_logp : list (list (num N))) (beam_topk : list (list (num N * nat))) (c : Cache) :
  (forall i hyp, nth_error hyps i = Some hyp ->
     nsc_shape self 0 hyp /\
     exists row top,
       nth_error beam_logp i = Some row /\ row <> [] /\
       nth_error beam_topk i = Some top /\ top <> [] /\
       Forall (fun p => (Z.of_nat (snd p + 1) < vocab_size self)%Z) top) ->
  forall (l : list (nat * nsc_hypothesis N DecOut DecState LmState)) S0 V0,
    (forall ih, In ih l -> nth_error hyps (fst ih) = Some (snd ih)) ->
    exists Sn Vn,
      for_each (nsc_expand_hyp self beam_logp beam_topk) l (S0, V0) c
      = Ok ((S0 ++ Sn, V0 ++ Vn), c) /\
      Forall (nsc_shape self 0) Sn /\ length Sn = length l /\
      Forall (fun v : nsc_hypothesis N DecOut DecState LmState =>
                nsc_shape self 1 v /\
                exists hyp k, In hyp hyps /\ label_seq v = label_seq hyp ++ [k]) Vn /\
      (forall ih, In ih l ->
         exists v k, In v Vn /\ label_seq v = label_seq (snd ih) ++ [k]).
Proof.
  intros Hready. induction l as [ | [i hyp] l IH]; intros S0 V0 Hl; cbn [for_each].
  - exists [], []. rewrite !app_nil_r.
    split; [reflexivity | split; [constructor | split; [reflexivity | split]]].
    + constructor.
    + intros ih [].
  - pose proof (Hl (i, hyp) (or_introl eq_refl)) as Hi. cbn [fst snd] in Hi.
    destruct (Hready i hyp Hi) as (Hshape & row & top & Erow & Hrow & Etop & Htop & Hidx).
    destruct (@nsc_expand_hyp_returns beam_logp beam_topk S0 V0 i hyp row top c
                Hshape Erow Hrow Etop Hidx)
      as (x & new_hyps & Estep & Hlen & Hnew).
    bind_with Estep.
    destruct (IH (S0 ++ [nsc_blank_ext hyp x]) (V0 ++ new_hyps))
      as (Sn & Vn & Eloop & HSn & HlenS & HVn & Hcover).
    { intros ih Hin. apply Hl. right. exact Hin. }
    exists (nsc_blank_ext hyp x :: Sn), (new_hyps ++ Vn).
    rewrite <- !app_assoc in Eloop. cbn [app] in Eloop.
    split; [exact Eloop | split; [ | split; [ | split]]].
    + constructor; [exact (@nsc_blank_ext_shape hyp x Hshape) | exact HSn].
    + simpl. rewrite HlenS. reflexivity.
    + apply Forall_app. split; [ | exact HVn].
      eapply Forall_impl; [ | exact Hnew]. intros v [Hv (k & Hk)].
      split; [exact Hv | ]. exists hyp, k. split; [ | exact Hk].
      exact (nth_error_In _ _ Hi).
    + intros ih [<- | Hin].
      * destruct new_hyps as [ | v new_hyps].
        { destruct top; [congruence | discriminate Hlen]. }
        inversion Hnew as [ | v0 l0 [_ (k & Hk)] _]; subst.
        exists v, k. split; [left; reflexivity | exact Hk].
      * destruct (Hcover ih Hin) as (v & k & Hv & Hk).
        exists v, k. split; [apply in_or_app; right; exact Hv | exact Hk].
Qed.

Lemma lm_batch_None (hyps : list (hypothesis N DecState LmState)) (tok : Tokens) :
  lm_batch self hyps tok = None -> use_lm self = false.
Proof.
  unfold lm_batch, use_lm. case (lm self) as [l | ]; [ | reflexivity].
  destruct (buff_predict l _ tok (length hyps)). discriminate.
Qed.

Lemma nsc_expand_returns (e : Frame) (hyps S_ V : list (nsc_hypothesis N DecOut DecState LmState))
  (bs : DecState) (c : Cache) :
  hyps <> [] -> Forall (nsc_shape self 0) hyps -> Forall (nsc_shape self 0) S_ ->
  Forall (fun v : nsc_hypothesis N DecOut DecState LmState =>
            exists h : nsc_hypothesis N DecOut DecState LmState,
              In h hyps /\ label_seq h = label_seq v) V ->
  exists S' V' bs' bdo lm_out c',
    nsc_expand self e hyps S_ V bs c = Ok ((S', V', bs', bdo, lm_out), c') /\
    Forall (nsc_shape self 0) S' /\ S' <> [] /\
    Forall (nsc_shape self 1) V' /\ V' <> [] /\
    length bdo = length V' /\
    lm_ready self (length V') lm_out /\ (lm_out = None -> use_lm self = false).
Proof.
  intros Hne Hh HS HV. unfold nsc_expand.
  destruct (@map_m_returns Cache _ _
              (fun hyp : nsc_hypothesis N DecOut DecState LmState =>
                 or_raise IndexError (getitem (dec_out hyp) (-1))) hyps c)
    as (last_out & Elast & Hlast).
  { intros hyp Hin. rewrite Forall_forall in Hh.
    destruct (Hh hyp Hin) as ((ls & Hl & _) & Hd & _).
    destruct (@getitem_last _ (dec_out hyp)) as (d & Ed).
    - intros Habs. rewrite Habs, Hl in Hd. simpl in Hd. lia.
    - exists d. rewrite Ed. reflexivity. }
  bind_with Elast.
  destruct last_out as [ | d0 lo] eqn:Elo.
  { destruct hyps; [congruence | discriminate Hlast]. }
  rewrite <- Elo in *. clear Elo d0 lo. rewrite bind_ret_intro.
  set (beam_logp := map (joint_logp self e) last_out).
  assert (Hrows : Forall (fun row => Z.of_nat (length row) = vocab_size self) beam_logp).
  { unfold beam_logp. rewrite Forall_forall. intros row Hin. apply in_map_iff in Hin.
    destruct Hin as (d & <- & _). apply joint_size. }
  assert (Hlogp : length beam_logp = length hyps).
  { unfold beam_logp. rewrite length_map. exact Hlast. }
  assert (Hk : (1 <= nsc_beam_k self <= vocab_size self - 1)%Z).
  { unfold nsc_beam_k, nsc_beam. lia. }
  destruct (@batch_topk_full N Cache (nsc_beam_k self) c beam_logp) as (tk & Etk & Htk).
  { eapply Forall_impl; [ | exact Hrows]. intros row Hrow.
    destruct row as [ | x row]; simpl in *; lia. }
  bind_with Etk.
  assert (Hready : forall i hyp, nth_error hyps i = Some hyp ->
             nsc_shape self 0 hyp /\
             exists row top,
               nth_error beam_logp i = Some row /\ row <> [] /\
               nth_error tk i = Some top /\ top <> [] /\
               Forall (fun p => (Z.of_nat (snd p + 1) < vocab_size self)%Z) top).
  { intros i hyp Hi. split.
    - rewrite Forall_forall in Hh. exact (Hh hyp (nth_error_In _ _ Hi)).
    - assert (Hlt : i < length hyps) by (apply nth_error_Some; rewrite Hi; discriminate).
      destruct (nth_error beam_logp i) as [row | ] eqn:Erow;
        [ | apply nth_error_None in Erow; lia].
      destruct (nth_error tk i) as [top | ] eqn:Etop;
        [ | apply nth_error_None in Etop; rewrite <- (Forall2_length Htk) in Etop; lia].
      destruct (@Forall2_nth_error _ _ _ _ _ Htk i row top Erow Etop) as [Hlen Hidx].
      rewrite Forall_forall in Hrows. specialize (Hrows row (nth_error_In _ _ Erow)).
      exists row, top. split; [reflexivity | split; [ | split; [reflexivity | split]]].
      + intros ->. simpl in Hrows. lia.
      + intros ->. simpl in Hlen. lia.
      + eapply Forall_impl; [ | exact Hidx]. intros p Hp.
        destruct row as [ | x row]; simpl in *; lia. }
  destruct (@nsc_expand_loop hyps beam_logp tk c Hready (enumerate hyps) S_ V)
    as (Sn & Vn & Eloop & HSn & HlenS & HVn & Hcover).
  { intros [i hyp] Hin. apply In_enumerate in Hin. exact Hin. }
  bind_with Eloop.
  set (V1 := slice_to (nsc_beam self)
               (substract (sorted_desc (ltb N)
                             (fun x : nsc_hypothesis N DecOut DecState LmState => score x)
                             (V ++ Vn)) hyps)).
  assert (HV1 : Forall (nsc_shape self 1) V1).
  { rewrite Forall_forall. intros v Hv. unfold V1 in Hv. apply slice_to_In in Hv.
    unfold substract in Hv. apply filter_In in Hv. destruct Hv as [Hv Hkeep].
    unfold sorted_desc in Hv. apply sort_by_In in Hv. apply in_app_or in Hv.
    destruct Hv as [Hold | Hnew].
    - rewrite Forall_forall in HV. destruct (HV v Hold) as (h & Hin & Hl).
      apply negb_true_iff in Hkeep.
      assert (Hex : existsb (fun sub : nsc_hypothesis N DecOut DecState LmState =>
                               seq_eqb (label_seq v) (label_seq sub)) hyps = true).
      { apply existsb_exists. exists h. split; [exact Hin | ].
        apply seq_eqb_eq. symmetry. exact Hl. }
      rewrite Hex in Hkeep. discriminate Hkeep.
    - rewrite Forall_forall in HVn. exact (proj1 (HVn v Hnew)). }
  assert (HV1ne : V1 <> []).
  { destruct (@exists_longest _ (fun h : nsc_hypothesis N DecOut DecState LmState =>
                                   length (label_seq h)) hyps Hne) as (hmax & Hin & Hmax).
    destruct (In_nth_error _ _ Hin) as (i & Hi).
    destruct (Hcover (i, hmax)) as (v & k & Hv & Hl).
    { apply nth_error_In with (n := i). apply nth_error_enumerate. exact Hi. }
    cbn [snd] in Hl.
    unfold V1. apply slice_to_nonempty; [unfold nsc_beam; lia | ].
    assert (Hsub : In v (substract (sorted_desc (ltb N)
                             (fun x : nsc_hypothesis N DecOut DecState LmState => score x)
                             (V ++ Vn)) hyps)).
    { unfold substract. apply filter_In. split.
      - unfold sorted_desc. apply sort_by_In. apply in_or_app. right. exact Hv.
      - apply negb_true_iff.
        destruct (existsb _ hyps) eqn:Eex; [ | reflexivity].
        apply existsb_exists in Eex. destruct Eex as (sub & Hsub & Heq).
        apply seq_eqb_length in Heq. rewrite Hl, length_app in Heq. simpl in Heq.
        specialize (Hmax sub Hsub). cbv beta in Hmax. lia. }
    intros Habs. rewrite Habs in Hsub. exact Hsub. }
  fold V1.
  match goal with
  | |- context [call ?f] =>
      destruct (f c) as [[[bdo bs1] tok] c1] eqn:Eb;
      assert (Ecall : call f c = Ok ((bdo, bs1, tok), c1))
        by (unfold call; rewrite Eb; reflexivity)
  end.
  bind_with Ecall.
  pose proof (proj1 rows (map (@base _ _ _ _) V1)
                (create_batch_states (decoder self) bs
                   (map (fun v : nsc_hypothesis N DecOut DecState LmState => dec_state v) V1)
                   (map (fun v : nsc_hypothesis N DecOut DecState LmState => label_seq v) V1))
                c (use_lm self)) as Hlen.
  rewrite Eb in Hlen. cbn [fst] in Hlen. rewrite length_map in Hlen.
  exists (S_ ++ Sn), V1, bs1, bdo, (lm_batch self (map (@base _ _ _ _) V1) tok), c1.
  split; [reflexivity | ].
  split; [apply Forall_app; split; assumption | ].
  split.
  { destruct Sn as [ | s Sn]; [ | intros Habs; apply app_eq_nil in Habs;
                                 destruct Habs as [_ Habs]; discriminate Habs].
    simpl in HlenS. rewrite enumerate_length in HlenS.
    destruct hyps; [congruence | discriminate HlenS]. }
  split; [exact HV1 | split; [exact HV1ne | split; [exact Hlen | split]]].
  - pose proof (lm_batch_ready rows lm_size (map (@base _ _ _ _) V1) tok) as Hr.
    rewrite length_map in Hr. exact Hr.
  - apply lm_batch_None.
Qed.

Lemma nsc_refresh_returns (bs : DecState) (bdo : list DecOut) lm_out (n i : nat)
  (v : nsc_hypothesis N DecOut DecState LmState) (c : Cache) :
  nsc_shape self 1 v -> i < n -> length bdo = n ->
  lm_ready self n lm_out -> (lm_out = None -> use_lm self = false) ->
  exists v', nsc_refresh self bs bdo lm_out (i, v) c = Ok (v', c) /\ nsc_shape self 0 v'.
Proof.
  intros ((ls & Hl & Hall) & Hd & Hlm) Hi Hlen Hready Hnone. unfold nsc_refresh.
  destruct (nth_error bdo i) as [d | ] eqn:Ed; [ | apply nth_error_None in Ed; lia].
  cbn [or_raise]. rewrite bind_ret_intro.
  destruct lm_out as [[[l st] sc] | ].
  - destruct Hready as [Hsc Hrows].
    destruct (nth_error sc i) as [row | ] eqn:Erow;
      [ | apply nth_error_None in Erow; lia].
    rewrite Forall_forall in Hrows. specialize (Hrows row (nth_error_In _ _ Erow)).
    cbn [or_raise]. rewrite bind_ret_intro. eexists. split; [reflexivity | ].
    unfold nsc_shape. cbn. split; [exists ls; split; assumption | split].
    + rewrite length_app. simpl. lia.
    + intros _. exists row. split; [reflexivity | exact Hrows].
  - eexists. split; [reflexivity | ].
    unfold nsc_shape. cbn. split; [exists ls; split; assumption | split].
    + rewrite length_app. simpl. lia.
    + rewrite (Hnone eq_refl). discriminate.
Qed.

Lemma nsc_final_returns (e : Frame) (bs : DecState) (bdo : list DecOut) lm_out (n i : nat)
  (v : nsc_hypothesis N DecOut DecState LmState) (c : Cache) :
  nsc_shape self 1 v -> i < n -> length bdo = n ->
  lm_ready self n lm_out -> (lm_out = None -> use_lm self = false) ->
  exists v',
    nsc_final self bs bdo (map (joint_logp self e) bdo) lm_out (i, v) c = Ok (v', c) /\
    nsc_shape self 0 v'.
Proof.
  intros Hv Hi Hlen Hready Hnone. unfold nsc_final.
  destruct (negb (nstep self =? 1)%Z).
  - destruct (nth_error (map (joint_logp self e) bdo) i) as [row | ] eqn:Erow;
      [ | apply nth_error_None in Erow; rewrite length_map in Erow; lia].
    assert (Hrow : Z.of_nat (length row) = vocab_size self).
    { apply nth_error_In in Erow. apply in_map_iff in Erow.
      destruct Erow as (d & <- & _). apply joint_size. }
    destruct row as [ | x row]; [simpl in Hrow; lia | ].
    assert (Eat : (blank_logp <- at2 N (map (joint_logp self e) bdo) i 0 ;;
                   ret (nsc_set_score v (add N (score v) blank_logp))) c
                  = Ok (nsc_set_score v (add N (score v) x), c)).
    { bind_with (@at2_returns N Cache _ _ 0 _ _ c Erow eq_refl). reflexivity. }
    bind_with Eat.
    apply (@nsc_refresh_returns bs bdo lm_out n i _ c); assumption.
  - rewrite bind_ret_intro.
    apply (@nsc_refresh_returns bs bdo lm_out n i v c); assumption.
Qed.

Lemma nsc_round_returns (e : Frame) (j : Z)
  (hyps S_ V : list (nsc_hypothesis N DecOut DecState LmState)) (bs : DecState) (c : Cache) :
  hyps <> [] -> Forall (nsc_shape self 0) hyps -> Forall (nsc_shape self 0) S_ ->
  Forall (fun v : nsc_hypothesis N DecOut DecState LmState =>
            exists h : nsc_hypothesis N DecOut DecState LmState,
              In h hyps /\ label_seq h = label_seq v) V ->
  exists hyps' S' V' bs' c',
    nsc_round self e (hyps, S_, V, bs) j c = Ok ((hyps', S', V', bs'), c') /\
    Forall (nsc_shape self 0) S' /\ S' <> [] /\
    Forall (nsc_shape self 0) V' /\
    ((j <? nstep self - 1)%Z = true -> hyps' = V' /\ V' <> []).
Proof.
  intros Hne Hh HS HV. unfold nsc_round.
  destruct (nsc_expand_returns e bs c Hne Hh HS HV)
    as (S1 & V1 & bs1 & bdo & lm_out & c1 & Eexp & HS1 & HS1ne & HV1 & HV1ne & Hlen
        & Hready & Hnone).
  bind_with Eexp. unfold nsc_close.
  destruct (j <? nstep self - 1)%Z.
  - destruct (@map_m_enumerate_returns Cache _ _ (nsc_shape self 0)
                (nsc_refresh self bs1 bdo lm_out) V1 c1) as (V2 & EV2 & HV2 & HlenV).
    { intros i v Hi. apply (@nsc_refresh_returns bs1 bdo lm_out (length V1) i v c1);
        try assumption.
      - rewrite Forall_forall in HV1. exact (HV1 v (nth_error_In _ _ Hi)).
      - apply nth_error_Some. rewrite Hi. discriminate. }
    bind_with EV2. exists V2, S1, V2, bs1, c1.
    split; [reflexivity | split; [exact HS1 | split; [exact HS1ne | split; [exact HV2 | ]]]].
    intros _. split; [reflexivity | ]. intros ->. simpl in HlenV.
    destruct V1; [congruence | discriminate HlenV].
  - destruct (@map_m_enumerate_returns Cache _ _ (nsc_shape self 0)
                (nsc_final self bs1 bdo (map (joint_logp self e) bdo) lm_out) V1 c1)
      as (V2 & EV2 & HV2 & HlenV).
    { intros i v Hi. apply (@nsc_final_returns e bs1 bdo lm_out (length V1) i v c1);
        try assumption.
      - rewrite Forall_forall in HV1. exact (HV1 v (nth_error_In _ _ Hi)).
      - apply nth_error_Some. rewrite Hi. discriminate. }
    bind_with EV2. exists hyps, S1, V2, bs1, c1.
    split; [reflexivity | split; [exact HS1 | split; [exact HS1ne | split; [exact HV2 | ]]]].
    discriminate.
Qed.

Lemma nsc_frame_returns (e : Frame) (kept : list (nsc_hypothesis N DecOut DecState LmState))
  (bs : DecState) (c : Cache) :
  kept <> [] -> Forall (nsc_shape self 0) kept ->
  exists kept' bs' c',
    nsc_frame self logaddexp (kept, bs) e c = Ok ((kept', bs'), c') /\
    kept' <> [] /\ Forall (nsc_shape self 0) kept'.
Proof.
  intros Hne Hk. unfold nsc_frame.
  set (hyps0 := sort_by (fun x y : nsc_hypothesis N DecOut DecState LmState =>
                           length (label_seq x) <? length (label_seq y)) kept).
  assert (H0 : Forall (nsc_shape self 0) hyps0).
  { rewrite Forall_forall. intros h Hin. apply sort_by_In in Hin.
    rewrite Forall_forall in Hk. exact (Hk h Hin). }
  destruct (nsc_prefix_merge_returns e c H0) as (hyps & Emerge & Hh & Hlen).
  bind_with Emerge.
  assert (Hhne : hyps <> []).
  { intros ->. simpl in Hlen. symmetry in Hlen. apply length_zero_iff_nil in Hlen.
    exact (sort_by_nonempty _ Hne Hlen). }
  set (P := fun k (st : list (nsc_hypothesis N DecOut DecState LmState)
                        * list (nsc_hypothesis N DecOut DecState LmState)
                        * list (nsc_hypothesis N DecOut DecState LmState) * DecState) =>
              Forall (nsc_shape self 0) (snd (fst (fst st))) /\
              Forall (nsc_shape self 0) (snd (fst st)) /\
              (1 <= k -> snd (fst (fst st)) <> []) /\
              ((Z.of_nat k < nstep self)%Z ->
               fst (fst (fst st)) <> [] /\
               Forall (nsc_shape self 0) (fst (fst (fst st))) /\
               Forall (fun v : nsc_hypothesis N DecOut DecState LmState =>
                         exists h : nsc_hypothesis N DecOut DecState LmState,
                           In h (fst (fst (fst st))) /\ label_seq h = label_seq v)
                      (snd (fst st)))).
  destruct (@for_each_total_idx Cache _ _ P (nsc_round self e) (range (nstep self)) 0
              (hyps, [], [], bs) c) as ([[[hyps1 S1] V1] bs1] & c1 & Eloop & HP).
  { unfold P. cbn [fst snd]. split; [constructor | split; [constructor | split; [lia | ]]].
    intros _. split; [exact Hhne | split; [exact Hh | constructor]]. }
  { intros j [[[h0 S0] V0] bs0] a s1 Ha (HS0 & HV0 & _ & Hround).
    cbn [fst snd Nat.add] in *.
    assert (Hj : (Z.of_nat j < nstep self)%Z).
    { assert (Hlt : j < length (range (nstep self)))
        by (apply nth_error_Some; rewrite Ha; discriminate).
      rewrite range_length in Hlt. lia. }
    apply range_nth in Ha. subst a.
    destruct (Hround Hj) as (Hne0 & Hh0 & Hsub).
    destruct (nsc_round_returns e (Z.of_nat j) bs0 s1 Hne0 Hh0 HS0 Hsub)
      as (h2 & S2 & V2 & bs2 & s2 & Er & HS2 & HS2ne & HV2 & Hnext).
    exists (h2, S2, V2, bs2), s2. split; [exact Er | ].
    unfold P. cbn [fst snd].
    split; [exact HS2 | split; [exact HV2 | split; [intros _; exact HS2ne | ]]].
    intros Hj1.
    destruct (Z.ltb_spec (Z.of_nat j) (nstep self - 1)) as [Hlt | Hge]; [ | lia].
    destruct (Hnext eq_refl) as [-> HV2ne].
    split; [exact HV2ne | split; [exact HV2 | ]].
    rewrite Forall_forall. intros v Hv. exists v. split; [exact Hv | reflexivity]. }
  bind_with Eloop. rewrite range_length in HP. destruct HP as (HS1 & HV1 & HS1ne & _).
  cbn [fst snd Nat.add] in *.
  eexists. eexists. eexists. split; [reflexivity | split].
  - apply slice_to_nonempty; [unfold nsc_beam; lia | ].
    unfold sorted_desc. apply sort_by_nonempty.
    intros Habs. apply app_eq_nil in Habs. destruct Habs as [Habs _].
    apply HS1ne; [lia | exact Habs].
  - apply Forall_slice_sorted. apply Forall_app. split; assumption.
Qed.

(** X17.  With one decoder output and one row of LM scores per hypothesis
    of a batch, [vocab_size >= 2] entries in every joint output and every
    row of LM scores, [beam_size >= 1] and [nstep >= 1], NSC raises nothing:
    no frame leaves it without a hypothesis to expand, every decoder output,
    label and LM score it indexes is there, and it returns on every input. *)
Theorem nsc_returns (enc_out : list Frame) (c : Cache) :
  exists r c', nsc_beam_search self logaddexp enc_out c = Ok (r, c').
Proof.
  unfold nsc_beam_search.
  destruct (nsc_init_returns c) as (h & bs & c0 & Einit & Hh). bind_with Einit.
  assert (Hloop : forall l kept bs0 c1,
             kept <> [] -> Forall (nsc_shape self 0) kept ->
             exists st c', for_each (nsc_frame self logaddexp) l (kept, bs0) c1
                           = Ok (st, c')).
  { induction l as [ | e l IH]; intros kept bs0 c1 Hne Hk; cbn [for_each].
    - eexists. eexists. reflexivity.
    - destruct (nsc_frame_returns e bs0 c1 Hne Hk) as (kept' & bs' & c' & Ef & Hne' & Hk').
      bind_with Ef. exact (IH kept' bs' c' Hne' Hk'). }
  destruct (Hloop enc_out [h] bs c0) as ([kept bs1] & c1 & Eloop);
    [discriminate | constructor; [exact Hh | constructor] | ].
  bind_with Eloop. eexists. eexists. reflexivity.
Qed.

End NscReturns.

(** NSC with two expansion steps on the two frames of [nsc_two_steps]. *)
Lemma nsc_returns_witness :
  exists r c', nsc_beam_search nsc_two_steps Plogaddexp [0; 1] tt = Ok (r, c').
Proof.
  apply (@nsc_returns _ _ _ _ _ _ _ _ nsc_two_steps Plogaddexp
           (stub_oracle_contract _ _ _ _ _ _ _ _ _ _)).
  - intros e d. change (Z.of_nat (length (by_labels e d)) = 3%Z). unfold by_labels.
    repeat match goal with
           | |- context [match ?x with _ => _ end] => destruct x
           end; reflexivity.
  - intros l Hl. discriminate Hl.
  - vm_compute. discriminate.
  - vm_compute. discriminate.
  - vm_compute. discriminate.
Defined.
